(** * Web-Games-Lobby: wave sampler, buoyant boat controller and the RTS
    selection and command system

    A shallow embedding of the simulation code of
    [src/games/ocean-glide/OceanGlide.ts] and
    [src/games/space-runner/SpaceRunner.ts].

    Numbers.  A JavaScript number is modelled as a real number or [NaN]:
    arithmetic is exact (rounding is idealised away) and every result that
    is not a finite number is identified with [NaN].  Where the outcome
    hangs on the rounding of IEEE doubles (whether two runs give the very
    same number, whether a lifetime has reached zero), the expressions are
    given on doubles as well, in [Doubles].  The functions of the
    three.js library that the games call ([THREE.MathUtils], [Vector2],
    [Vector3], [Quaternion]) are written out after the library's
    definitions. *)

From Stdlib Require Import String.
From Stdlib Require Import Reals Lra Lia List Bool Arith ZArith.
From Stdlib Require PrimFloat.
From stdpp Require Import base list gmap strings.
Import ListNotations.

(** ** JavaScript numbers *)

Module JS.
Local Open Scope R_scope.

Inductive number : Type :=
| Num (r : R)
| NaN.

Definition lift1 (f : R -> R) (a : number) : number :=
  match a with
  | Num x => Num (f x)
  | NaN => NaN
  end.

Definition lift2 (f : R -> R -> R) (a b : number) : number :=
  match a with
  | Num x => match b with
             | Num y => Num (f x y)
             | NaN => NaN
             end
  | NaN => NaN
  end.

Definition add : number -> number -> number := lift2 Rplus.
Definition sub : number -> number -> number := lift2 Rminus.
Definition mul : number -> number -> number := lift2 Rmult.
Definition neg : number -> number := lift1 Ropp.

(** [a / b]; a zero divisor gives a non-finite result. *)
Definition div (a b : number) : number :=
  match a with
  | Num x => match b with
             | Num y => if Req_dec_T y 0 then NaN else Num (x / y)
             | NaN => NaN
             end
  | NaN => NaN
  end.

Definition Math_sqrt (a : number) : number :=
  match a with
  | Num x => if Rlt_dec x 0 then NaN else Num (sqrt x)
  | NaN => NaN
  end.

Definition Math_sin : number -> number := lift1 sin.
Definition Math_cos : number -> number := lift1 cos.
Definition Math_abs : number -> number := lift1 Rabs.
Definition Math_min : number -> number -> number := lift2 Rmin.
Definition Math_max : number -> number -> number := lift2 Rmax.
Definition Math_PI : number := Num PI.

(** [Math.pow(b, e)] for a positive base [b], the only kind the games use
    (0.001 and 0.002). *)
Definition Math_pow (b e : number) : number :=
  match b with
  | Num x => match e with
             | Num y => if Rlt_dec 0 x then Num (Rpower x y) else NaN
             | NaN => NaN
             end
  | NaN => NaN
  end.

(** Comparisons: every comparison with [NaN] is false. *)
Definition lt (a b : number) : bool :=
  match a, b with
  | Num x, Num y => if Rlt_dec x y then true else false
  | _, _ => false
  end.

Definition le (a b : number) : bool :=
  match a, b with
  | Num x, Num y => if Rle_dec x y then true else false
  | _, _ => false
  end.

(** [a === b] on numbers. *)
Definition strict_eq (a b : number) : bool :=
  match a, b with
  | Num x, Num y => if Req_dec_T x y then true else false
  | _, _ => false
  end.

(** [a || b] on numbers: [0] and [NaN] are falsy. *)
Definition or_else (a b : number) : number :=
  match a with
  | Num x => if Req_dec_T x 0 then b else a
  | NaN => b
  end.

(** [ToNumber] of an ordinary object (one without a numeric [valueOf]): the
    object is converted to the string "[object Object]", which is not a
    numeric literal. *)
Definition ToNumber_object {A : Type} (o : A) : number := NaN.

Definition finite (a : number) : Prop := exists r, a = Num r.

End JS.

Declare Scope js_scope.
Delimit Scope js_scope with js.
Bind Scope js_scope with JS.number.
Notation "a + b" := (JS.add a b) : js_scope.
Notation "a - b" := (JS.sub a b) : js_scope.
Notation "a * b" := (JS.mul a b) : js_scope.
Notation "a / b" := (JS.div a b) : js_scope.
Notation "- a" := (JS.neg a) : js_scope.
Notation "# r" := (JS.Num r%R) (at level 5, r at level 1, format "# r") : js_scope.

(** ** The three.js functions used by the games *)

Module THREE.
Import JS.
Local Open Scope js_scope.

(** [Number.EPSILON] *)
Definition EPSILON : number := #(/ 2 ^ 52).

(** [MathUtils.lerp(x, y, t) = (1 - t) * x + t * y] *)
Definition lerp (x y t : number) : number := (#1 - t) * x + t * y.

(** [MathUtils.clamp(value, min, max) = Math.max(min, Math.min(max, value))] *)
Definition clamp (value lo hi : number) : number :=
  Math_max lo (Math_min hi value).

Record Vector2 : Type := mkV2 { v2x : number; v2y : number }.
Record Vector3 : Type := mkV3 { vx : number; vy : number; vz : number }.
Record Quaternion : Type :=
  mkQ { qx : number; qy : number; qz : number; qw : number }.

Module Vector2.
Definition lengthSq (v : Vector2) : number := v2x v * v2x v + v2y v * v2y v.
Definition length (v : Vector2) : number := Math_sqrt (lengthSq v).
Definition multiplyScalar (v : Vector2) (s : number) : Vector2 :=
  mkV2 (v2x v * s) (v2y v * s).
Definition divideScalar (v : Vector2) (s : number) : Vector2 :=
  multiplyScalar v (#1 / s).
(** [normalize() { return this.divideScalar(this.length() || 1) }] *)
Definition normalize (v : Vector2) : Vector2 :=
  divideScalar v (or_else (length v) #1).
End Vector2.

Module Vector3.
Definition dot (a b : Vector3) : number :=
  vx a * vx b + vy a * vy b + vz a * vz b.
Definition length (v : Vector3) : number :=
  Math_sqrt (vx v * vx v + vy v * vy v + vz v * vz v).
Definition multiplyScalar (v : Vector3) (s : number) : Vector3 :=
  mkV3 (vx v * s) (vy v * s) (vz v * s).
Definition divideScalar (v : Vector3) (s : number) : Vector3 :=
  multiplyScalar v (#1 / s).
Definition normalize (v : Vector3) : Vector3 :=
  divideScalar v (or_else (length v) #1).
Definition addScaledVector (a v : Vector3) (s : number) : Vector3 :=
  mkV3 (vx a + vx v * s) (vy a + vy v * s) (vz a + vz v * s).
Definition setY (v : Vector3) (y : number) : Vector3 := mkV3 (vx v) y (vz v).
End Vector3.

Module Quaternion.
Definition length (q : Quaternion) : number :=
  Math_sqrt (qx q * qx q + qy q * qy q + qz q * qz q + qw q * qw q).

(** [normalize()]: a zero quaternion becomes the identity. *)
Definition normalize (q : Quaternion) : Quaternion :=
  let l := length q in
  if strict_eq l #0 then mkQ #0 #0 #0 #1
  else let l := #1 / l in mkQ (qx q * l) (qy q * l) (qz q * l) (qw q * l).

(** [setFromUnitVectors(vFrom, vTo)] *)
Definition setFromUnitVectors (vFrom vTo : Vector3) : Quaternion :=
  let r := Vector3.dot vFrom vTo + #1 in
  if lt r EPSILON then
    if lt (Math_abs (vz vFrom)) (Math_abs (vx vFrom))
    then normalize (mkQ (- vy vFrom) (vx vFrom) #0 #0)
    else normalize (mkQ #0 (- vz vFrom) (vy vFrom) #0)
  else
    normalize
      (mkQ (vy vFrom * vz vTo - vz vFrom * vy vTo)
           (vz vFrom * vx vTo - vx vFrom * vz vTo)
           (vx vFrom * vy vTo - vy vFrom * vx vTo)
           r).

(** [setFromAxisAngle(axis, angle)] *)
Definition setFromAxisAngle (axis : Vector3) (angle : number) : Quaternion :=
  let halfAngle := angle / #2 in
  let s := Math_sin halfAngle in
  mkQ (vx axis * s) (vy axis * s) (vz axis * s) (Math_cos halfAngle).

(** [a.multiply(b)], that is [multiplyQuaternions(a, b)] *)
Definition multiply (a b : Quaternion) : Quaternion :=
  mkQ (qx a * qw b + qw a * qx b + qy a * qz b - qz a * qy b)
      (qy a * qw b + qw a * qy b + qz a * qx b - qx a * qz b)
      (qz a * qw b + qw a * qz b + qx a * qy b - qy a * qx b)
      (qw a * qw b - qx a * qx b - qy a * qy b - qz a * qz b).
End Quaternion.

End THREE.

(** ** Ocean Glide: the wave sampler and the boat controller *)

Module OceanGlide.
Import JS THREE.
Local Open Scope js_scope.

(** Gerstner wave parameters (type [GW]). *)
Record GW : Type := mkGW {
  dir : Vector2;    (* must be normalized *)
  amp : number;     (* amplitude *)
  len : number;     (* wavelength *)
  steep : number;   (* 0..1 *)
  speed : number    (* phase speed scalar *)
}.

Definition norm2 (v : Vector2) : Vector2 :=
  if strict_eq (Vector2.lengthSq v) #0 then mkV2 #1 #0
  else Vector2.normalize v.

(** The arrays that [makeWaveSampler] builds from [waves]. *)
Record Sampler : Type := mkSampler {
  s_waves : list GW;
  dirs : list Vector2;
  ks : list number;
  omegas : list number;
  amps : list number;
  steeps : list number
}.

Definition TWO_PI : number := Math_PI * #2.
Definition g : number := #9.81.

(** An out-of-range array read; the loops below never make one. *)
Definition undefined_number : number := NaN.
Definition undefined_dir : Vector2 := mkV2 NaN NaN.
Definition undefined_wave : GW := mkGW undefined_dir NaN NaN NaN NaN.

(** [omegas = waves.map((k, i) => Math.sqrt(g * k) * waves[i].speed)]: the
    callback's first argument [k] is the element of [waves], a [GW]
    object, so [g * k] multiplies a number by an object. *)
Definition makeWaveSampler (waves : list GW) : Sampler :=
  {| s_waves := waves;
     dirs := map (fun w => Vector2.normalize (dir w)) waves;
     ks := map (fun w => TWO_PI / len w) waves;
     omegas :=
       imap (fun i k =>
               Math_sqrt (g * ToNumber_object k)
               * speed (nth i waves undefined_wave))
            waves;
     amps := map (fun w => amp w) waves;
     steeps := map (fun w => steep w) waves |}.

(** The accumulators of the loop in [heightAndNormal]. *)
Record Acc : Type := mkAcc {
  dispX : number; dispY : number; dispZ : number;
  dHdX : number; dHdZ : number
}.

Definition phase_at (s : Sampler) (x z t : number) (i : nat) : number :=
  let d := nth i (dirs s) undefined_dir in
  let k := nth i (ks s) undefined_number in
  let w := nth i (omegas s) undefined_number in
  k * (v2x d * x + v2y d * z) - w * t.

Definition wave_step (s : Sampler) (x z t : number) (a : Acc) (i : nat) : Acc :=
  let d := nth i (dirs s) undefined_dir in
  let k := nth i (ks s) undefined_number in
  let A := nth i (amps s) undefined_number in
  let Q := nth i (steeps s) undefined_number in
  let phase := phase_at s x z t i in
  let sinP := Math_sin phase in
  let cosP := Math_cos phase in
  {| dispX := dispX a + Q * A * v2x d * cosP;
     dispY := dispY a + A * sinP;
     dispZ := dispZ a + Q * A * v2y d * cosP;
     dHdX := dHdX a + A * k * v2x d * cosP;
     dHdZ := dHdZ a + A * k * v2y d * cosP |}.

Record Sample : Type := mkSample {
  height : number;
  normal : Vector3;
  disp : Vector3
}.

Definition heightAndNormal (s : Sampler) (x z t : number) : Sample :=
  let a :=
    fold_left (wave_step s x z t) (seq 0 (length (s_waves s)))
              (mkAcc #0 #0 #0 #0 #0) in
  let y := dispY a in
  let n := Vector3.normalize (mkV3 (- dHdX a) #1 (- dHdZ a)) in
  {| height := y; normal := n; disp := mkV3 (dispX a) (dispY a) (dispZ a) |}.

(** The three waves of [initOceanGlide]. *)
Definition waves : list GW :=
  [ mkGW (norm2 (mkV2 #1 #0)) #0.35 #16 #0.55 #1;
    mkGW (norm2 (mkV2 #0.2 #0.98)) #0.18 #7 #0.42 #1.2;
    mkGW (norm2 (mkV2 (- #0.9) #0.4)) #0.08 #3.5 #0.35 #1.6 ].

Definition sampler : Sampler := makeWaveSampler waves.

(** *** The boat *)

(** [KeyInput]: the map [down] and [pressed(k) = !!this.down[k.toLowerCase()]];
    the games pass lower-case literals. *)
Definition KeyInput : Type := gmap string bool.
Definition pressed (keys : KeyInput) (k : string) : bool :=
  default false (keys !! k).

Record Boat : Type := mkBoat {
  b_speed : number;           (* speed: forward m/s *)
  heading : number;           (* yaw radians *)
  targetThrottle : number;    (* -1..1 *)
  targetSteer : number;       (* -1..1 *)
  position : Vector3;         (* boat.position *)
  quaternion : Quaternion;    (* boat.quaternion *)
  running : bool
}.

Definition MAX_FWD : number := #14.
Definition MAX_REV : number := #3.
Definition ACCEL : number := #7.
Definition DRAG : number := #0.25.
Definition STEER_BASE : number := #0.7.
Definition STEER_SPEED_FACTOR : number := #0.12.
Definition hullOffset : number := #0.25.

Definition bool_num (b : bool) : number := if b then #1 else #0.

Definition wantThrottle (keys : KeyInput) : number :=
  bool_num (pressed keys "w") - bool_num (pressed keys "s").
Definition wantSteer (keys : KeyInput) : number :=
  bool_num (pressed keys "d") - bool_num (pressed keys "a").

(** [lerp(value, want, 1 - Math.pow(0.001, dt))], the smoothing expression of
    [updateInput], in exact arithmetic; [Doubles.smooth] is the same
    expression on doubles. *)
Definition smooth (value want dt : number) : number :=
  lerp value want (#1 - Math_pow #0.001 dt).

Definition updateInput (keys : KeyInput) (dt : number) (b : Boat) : Boat :=
  {| b_speed := b_speed b;
     heading := heading b;
     targetThrottle := smooth (targetThrottle b) (wantThrottle keys) dt;
     targetSteer := smooth (targetSteer b) (wantSteer keys) dt;
     position := position b;
     quaternion := quaternion b;
     running := running b |}.

(** The speed after the throttle, drag and clamp steps of [updateBoat]. *)
Definition next_speed (b : Boat) (dt : number) : number :=
  let accel := ACCEL * targetThrottle b in
  let speed1 := b_speed b + accel * dt in
  let drag := DRAG * speed1 * Math_abs speed1 in
  let speed2 := speed1 - drag * dt in
  clamp speed2 (- MAX_REV) MAX_FWD.

(** The slerp target [finalQ] of [updateBoat]: yaw from the heading times the
    rotation taking world-up to the sampled normal. *)
Definition up : Vector3 := mkV3 #0 #1 #0.
Definition finalQ (heading : number) (targetUp : Vector3) : Quaternion :=
  let quat := Quaternion.setFromUnitVectors up targetUp in
  let yawQuat := Quaternion.setFromAxisAngle up heading in
  Quaternion.multiply yawQuat quat.

(** [Object3D.rotateZ(angle)]: multiply by the rotation about the local z
    axis. *)
Definition rotateZ (q : Quaternion) (angle : number) : Quaternion :=
  Quaternion.multiply q (Quaternion.setFromAxisAngle (mkV3 #0 #0 #1) angle).

Section Controller.
(** [Quaternion.slerp], of the three.js library, is taken as given. *)
Variable slerp : Quaternion -> Quaternion -> number -> Quaternion.

Definition updateBoat (dt t : number) (b : Boat) : Boat :=
  let speed' := next_speed b dt in
  let steerRate := STEER_BASE + STEER_SPEED_FACTOR * Math_abs speed' in
  let heading' := heading b - targetSteer b * steerRate * dt in
  let fwd := mkV3 (- Math_sin heading') #0 (- Math_cos heading') in
  let pos1 := Vector3.addScaledVector (position b) fwd (speed' * dt) in
  let w := heightAndNormal sampler (vx pos1) (vz pos1) t in
  let pos2 := Vector3.setY pos1 (height w + hullOffset) in
  let q1 := slerp (quaternion b) (finalQ heading' (normal w))
                  (#1 - Math_pow #0.002 dt) in
  let bank :=
    clamp (- targetSteer b * Math_min #1 (Math_abs speed' / MAX_FWD) * #0.25)
          (- #0.35) #0.35 in
  let q2 := rotateZ q1 (lerp #0 bank (#0.35 * dt)) in
  {| b_speed := speed';
     heading := heading';
     targetThrottle := targetThrottle b;
     targetSteer := targetSteer b;
     position := pos2;
     quaternion := q2;
     running := running b |}.

(** One frame of [tick], as far as the boat is concerned: the buoys, the
    camera and the renderer do not write to the boat. *)
Definition tick (keys : KeyInput) (dt t : number) (b : Boat) : Boat :=
  if running b then updateBoat dt t (updateInput keys dt b) else b.

(** What one frame supplies: the keys held, [clock.getDelta()] and
    [clock.getElapsedTime()]. *)
Definition frame : Type := (KeyInput * R * R)%type.
End Controller.

(** [start()] and [pause()] set the [running] flag. *)
Definition set_running (r : bool) (b : Boat) : Boat :=
  mkBoat (b_speed b) (heading b) (targetThrottle b) (targetSteer b)
         (position b) (quaternion b) r.
Definition start : Boat -> Boat := set_running true.
Definition pause : Boat -> Boat := set_running false.

(** The boat when [initOceanGlide] returns, after [start()]. *)
Definition boat0 : Boat :=
  {| b_speed := #0; heading := #0; targetThrottle := #0; targetSteer := #0;
     position := mkV3 #0 #0 #0;
     quaternion := mkQ #0 #0 #0 #1;
     running := true |}.

End OceanGlide.

(** ** Space Runner: selection, move commands and unit movement

    Every number of this game is finite (positions start finite and are
    only added, scaled and normalised with the zero-length guard of
    [normalize]), so its numbers are modelled by the reals directly. *)

Module SpaceRunner.
Local Open Scope R_scope.

(** [THREE.Vector3] on finite coordinates. *)
Record Vector3 : Type := mkV { x : R; y : R; z : R }.

Definition v_add (a b : Vector3) : Vector3 :=
  mkV (x a + x b) (y a + y b) (z a + z b).
Definition v_sub (a b : Vector3) : Vector3 :=
  mkV (x a - x b) (y a - y b) (z a - z b).
Definition setY (a : Vector3) (v : R) : Vector3 := mkV (x a) v (z a).
Definition v_length (a : Vector3) : R :=
  sqrt (x a * x a + y a * y a + z a * z a).
Definition multiplyScalar (a : Vector3) (s : R) : Vector3 :=
  mkV (x a * s) (y a * s) (z a * s).
(** [normalize() { return this.divideScalar(this.length() || 1) }] and
    [divideScalar(s) { return this.multiplyScalar(1 / s) }] *)
Definition normalize (a : Vector3) : Vector3 :=
  let l := v_length a in
  multiplyScalar a (1 / (if Req_dec_T l 0 then 1 else l)).
Definition addScaledVector (a v : Vector3) (s : R) : Vector3 :=
  mkV (x a + x v * s) (y a + y v * s) (z a + z v * s).
Definition distanceTo (a b : Vector3) : R :=
  sqrt ((x a - x b) * (x a - x b) + (y a - y b) * (y a - y b)
        + (z a - z b) * (z a - z b)).
Definition Math_hypot (a b : R) : R := sqrt (a * a + b * b).

Definition Rltb (a b : R) : bool := if Rlt_dec a b then true else false.
Definition Rleb (a b : R) : bool := if Rle_dec a b then true else false.

(** Which shared material a unit's own material was last copied from. *)
Inductive Material : Type := friendlyMat | selectedMat.

(** A unit.  Its mesh is represented by the mesh's position and material,
    its selection ring by the ring's visibility. *)
Record Unit : Type := mkUnit {
  id : nat;
  position : Vector3;        (* mesh.position *)
  material : Material;       (* mesh.material *)
  ringVisible : bool;        (* selRing.visible *)
  target : option Vector3;
  speed : R;
  selected : bool;
  hadTarget : bool
}.

Record OrderMarker : Type := mkMarker { m_position : Vector3; ttl : R }.

(** The events passed to the host's [onEvent] callback.  The callback is
    optional ([onEvent?.(...)]); the log lists the calls a host that supplied
    one receives. *)
Inductive event : Type :=
| SelectionChanged (count : nat)
| CommandMove (to_x to_z : R) (count : nat)
| UnitArrived (uid : nat) (at_x at_z : R)
| GameStarted
| GamePaused.

Record Game : Type := mkGame {
  units : list Unit;
  markers : list OrderMarker;
  dragging : bool;
  dragStart : R * R;
  dragStartGround : option Vector3;
  lastMouse : R * R;
  selBoxShown : bool;              (* selBox.style.display = 'block' *)
  groundSelection : option (Vector3 * Vector3);   (* selGroup, when visible *)
  running : bool;
  events : list event              (* calls of onEvent, oldest first *)
}.

Definition with_units (g : Game) (us : list Unit) : Game :=
  mkGame us (markers g) (dragging g) (dragStart g) (dragStartGround g)
         (lastMouse g) (selBoxShown g) (groundSelection g) (running g)
         (events g).

Definition emit (g : Game) (e : event) : Game :=
  mkGame (units g) (markers g) (dragging g) (dragStart g) (dragStartGround g)
         (lastMouse g) (selBoxShown g) (groundSelection g) (running g)
         (events g ++ [e]).

(** [spawnUnit] and the roster of three rows of four units. *)
Definition spawnUnit (uid : nat) (px pz : R) : Unit :=
  {| id := uid; position := mkV px 0.5 pz; material := friendlyMat;
     ringVisible := false; target := None; speed := 6; selected := false;
     hadTarget := false |}.

Definition roster : list Unit :=
  flat_map (fun r => map (fun c => spawnUnit (1 + r * 4 + c)
                                     (-8 + INR c * 2) (-6 + INR r * 2))
                         (seq 0 4))
           (seq 0 3).

Definition init : Game :=
  {| units := roster; markers := []; dragging := false; dragStart := (0, 0);
     dragStartGround := None; lastMouse := (0, 0); selBoxShown := false;
     groundSelection := None; running := false; events := [] |}.

(** *** Selection helpers *)

Definition deselect (u : Unit) : Unit :=
  mkUnit (id u) (position u) friendlyMat false (target u) (speed u) false
         (hadTarget u).
Definition select (u : Unit) : Unit :=
  mkUnit (id u) (position u) selectedMat true (target u) (speed u) true
         (hadTarget u).

Definition clearSelection (g : Game) : Game :=
  emit (with_units g (map deselect (units g))) (SelectionChanged 0).

(** The loop of [applySelectionFilter]: the units seen so far and [count]. *)
Definition select_step (filter : Unit -> bool) (acc : list Unit * nat)
    (u : Unit) : list Unit * nat :=
  if filter u then (fst acc ++ [select u], S (snd acc))
  else (fst acc ++ [u], snd acc).

Definition applySelectionFilter (filter : Unit -> bool) (additive : bool)
    (g : Game) : Game :=
  let g1 := if additive then g else clearSelection g in
  let '(us, count) := fold_left (select_step filter) (units g1) ([], 0%nat) in
  emit (with_units g1 us) (SelectionChanged count).

(** *** Formation *)

Definition Math_ceil (a : R) : R := IZR (Zceil a).
Definition Math_floor (a : R) : R := IZR (Zfloor a).
(** [a % b]: the remainder has the sign of the dividend. *)
Definition js_rem (a b : R) : R :=
  let q := a / b in
  a - b * (if Rlt_dec q 0 then Math_ceil q else Math_floor q).

Definition spacing : R := 1.4.

Definition formationOffsets (n : nat) : list Vector3 :=
  let side := Math_ceil (sqrt (INR n)) in
  let half := (side - 1) * 0.5 in
  map (fun i =>
         let r := Math_floor (INR i / side) in
         let c := js_rem (INR i) side in
         mkV ((c - half) * spacing) 0 ((r - half) * spacing))
      (seq 0 n).

(** *** Mouse and keyboard *)

Record MouseEvent : Type := mkMouse {
  button : nat; clientX : R; clientY : R; shiftKey : bool
}.

Record KeyboardEvent : Type := mkKey {
  ctrlKey : bool; metaKey : bool; key : string
}.

(** [String.prototype.toLowerCase] on strings of ASCII characters, where
    it maps [A]-[Z] to [a]-[z] and nothing else.  (On other letters it does
    more; a key name with such a letter is outside this definition.) *)
Definition lower_ascii (c : Ascii.ascii) : Ascii.ascii :=
  let n := Ascii.nat_of_ascii c in
  if ((65 <=? n) && (n <=? 90))%nat then Ascii.ascii_of_nat (n + 32) else c.
Fixpoint toLowerCase (s : string) : string :=
  match s with
  | EmptyString => EmptyString
  | String c s' => String (lower_ascii c) (toLowerCase s')
  end.

Definition zero3 : Vector3 := mkV 0 0 0.

(** The move-command loop [selected.forEach((u, i) => ...)].  [selected] holds
    the same unit objects as [units], so writing to its [i]-th element writes
    to the [i]-th selected unit of [units]; [i] counts the selected units
    passed so far. *)
(** [u.target = tg; u.hadTarget = true] *)
Definition command (u : Unit) (tg : Vector3) : Unit :=
  mkUnit (id u) (position u) (material u) (ringVisible u) (Some tg) (speed u)
         (selected u) true.

Fixpoint assignTargets (p : Vector3) (offs : list Vector3) (i : nat)
    (us : list Unit) : list Unit :=
  match us with
  | [] => []
  | u :: rest =>
      if selected u then
        command u (v_add p (nth i offs zero3))
        :: assignTargets p offs (S i) rest
      else u :: assignTargets p offs i rest
  end.

Definition spawnOrderMarker (p : Vector3) (g : Game) : Game :=
  mkGame (units g) (markers g ++ [mkMarker (setY p 0.03) 1])
         (dragging g) (dragStart g) (dragStartGround g) (lastMouse g)
         (selBoxShown g) (groundSelection g) (running g) (events g).

Section Picking.
(** Ray casting against the ground plane and the unit meshes and the
    projection to the screen go through the camera and the three.js
    ray caster.  A hit mesh is named by the id of the unit that owns it:
    ids are handed out by [uid++]. *)
Variable pickGround : R -> R -> option Vector3.
Variable pickUnit : R -> R -> list Unit -> option nat.
Variable projectToScreen : Vector3 -> R * R.

Definition onMouseDown (e : MouseEvent) (g : Game) : Game :=
  if (button e =? 0)%nat then
    let ground := pickGround (clientX e) (clientY e) in
    mkGame (units g) (markers g) true (clientX e, clientY e) ground
           (clientX e, clientY e) true
           (match ground with Some p => Some (p, p) | None => None end)
           (running g) (events g)
  else g.

(** [onMouseMove]: the cursor follows the pointer; during a drag the ground
    rectangle is shown when both ends hit the ground. *)
Definition onMouseMove (e : MouseEvent) (g : Game) : Game :=
mkGame (units g) (markers g) (dragging g) (dragStart g) (dragStartGround g)
       (clientX e, clientY e) (selBoxShown g)
       (if dragging g then
          match dragStartGround g, pickGround (clientX e) (clientY e) with
          | Some a, Some b => Some (a, b)
          | _, _ => None
          end
        else groundSelection g)
       (running g) (events g).

Definition end_drag (g : Game) : Game :=
  mkGame (units g) (markers g) false (dragStart g) None (lastMouse g)
         (selBoxShown g) (groundSelection g) (running g) (events g).

Definition hide_selection (g : Game) : Game :=
  mkGame (units g) (markers g) (dragging g) (dragStart g)
         (dragStartGround g) (lastMouse g) false None (running g) (events g).

Definition inWorldRect (a b : Vector3) (u : Unit) : bool :=
  let minX := Rmin (x a) (x b) in
  let maxX := Rmax (x a) (x b) in
  let minZ := Rmin (z a) (z b) in
  let maxZ := Rmax (z a) (z b) in
  let p := position u in
  Rleb minX (x p) && Rleb (x p) maxX && Rleb minZ (z p) && Rleb (z p) maxZ.

Definition inScreenRect (sx sy ex ey : R) (u : Unit) : bool :=
  let x1 := Rmin sx ex in
  let y1 := Rmin sy ey in
  let x2 := Rmax sx ex in
  let y2 := Rmax sy ey in
  let s := projectToScreen (position u) in
  Rleb x1 (fst s) && Rleb (fst s) x2 && Rleb y1 (snd s) && Rleb (snd s) y2.

Definition onMouseUp (e : MouseEvent) (g : Game) : Game :=
  if (button e =? 0)%nat then
    let moved :=
      Rltb 5 (Math_hypot (clientX e - fst (dragStart g))
                         (clientY e - snd (dragStart g))) in
    let g := hide_selection g in
    let g :=
      if negb moved then
        match pickUnit (clientX e) (clientY e) (units g) with
        | Some hit =>
            applySelectionFilter (fun u => (id u =? hit)%nat) (shiftKey e) g
        | None => if negb (shiftKey e) then clearSelection g else g
        end
      else
        match dragStartGround g, pickGround (clientX e) (clientY e) with
        | Some startGround, Some endGround =>
            applySelectionFilter (inWorldRect startGround endGround)
                                 (shiftKey e) g
        | _, _ =>
            applySelectionFilter
              (inScreenRect (fst (dragStart g)) (snd (dragStart g))
                            (clientX e) (clientY e))
              (shiftKey e) g
        end in
    end_drag g
  else g.

Definition onDblClick (e : MouseEvent) (g : Game) : Game :=
  match pickUnit (clientX e) (clientY e) (units g) with
  | Some hit =>
      match List.find (fun u => (id u =? hit)%nat) (units g) with
      | Some h =>
          applySelectionFilter
            (fun u => Rltb (distanceTo (position u) (position h)) 4)
            (shiftKey e) g
      | None => g
      end
  | None => g
  end.

Definition onContextMenu (e : MouseEvent) (g : Game) : Game :=
  match pickGround (clientX e) (clientY e) with
  | None => g
  | Some p =>
      let sel := List.filter selected (units g) in
      if (length sel =? 0)%nat then g
      else
        let offs := formationOffsets (length sel) in
        let g := with_units g (assignTargets p offs 0 (units g)) in
        let g := spawnOrderMarker p g in
        emit g (CommandMove (x p) (z p) (length sel))
  end.

Definition onKeyDown (e : KeyboardEvent) (g : Game) : Game :=
  if (ctrlKey e || metaKey e) && String.eqb (toLowerCase (key e)) "a"
  then applySelectionFilter (fun _ => true) false g
  else g.
End Picking.

(** *** Movement, separation and arrival events *)

Definition sepRadius : R := 1.2.

(** The inner loop over [v] for the unit [u] at index [i]. *)
Definition sep_step (i : nat) (u : Unit) (acc : Vector3 * nat) (v : Unit)
    : Vector3 * nat :=
  let '(sep, j) := acc in
  if (i =? j)%nat then (sep, S j)
  else
    let d := distanceTo (position u) (position v) in
    if Rltb 0 d && Rltb d sepRadius then
      let push :=
        multiplyScalar
          (normalize (setY (v_sub (position u) (position v)) 0))
          ((sepRadius - d) * 2) in
      (v_add sep push, S j)
    else (sep, S j).

Definition separation (us : list Unit) (i : nat) (u : Unit) : Vector3 :=
  fst (fold_left (sep_step i u) us (zero3, 0%nat)).

Definition with_position (u : Unit) (p : Vector3) : Unit :=
  mkUnit (id u) p (material u) (ringVisible u) (target u) (speed u)
         (selected u) (hadTarget u).

(** The seek part of the loop body: the unit after it and the events it
    emits. *)
Definition seek (dt : R) (u : Unit) : Unit * list event :=
  match target u with
  | None => (u, [])
  | Some tg =>
      let to := setY (v_sub tg (position u)) 0 in
      let dist := v_length to in
      if Rltb dist 0.12 then
        if hadTarget u then
          (mkUnit (id u) (position u) (material u) (ringVisible u) None
                  (speed u) (selected u) false,
           [UnitArrived (id u) (x (position u)) (z (position u))])
        else
          (mkUnit (id u) (position u) (material u) (ringVisible u) None
                  (speed u) (selected u) (hadTarget u), [])
      else
        (with_position u
           (addScaledVector (position u) (normalize to) (speed u * dt)), [])
  end.

(** The body of [for (const u of units)] for the unit at index [i]; the
    units are updated in place, so later units see the new position. *)
Definition unit_step (dt : R) (st : list Unit * list event) (i : nat)
    : list Unit * list event :=
  let '(us, evs) := st in
  match us !! i with
  | None => st
  | Some u =>
      let sep := separation us i u in
      let u1 := with_position u (addScaledVector (position u) sep dt) in
      let '(u2, out) := seek dt u1 in
      (<[i := u2]> us, evs ++ out)
  end.

Definition updateUnits_loop (dt : R) (us : list Unit)
    : list Unit * list event :=
  fold_left (unit_step dt) (seq 0 (length us)) (us, []).

Definition updateUnits (dt : R) (g : Game) : Game :=
  let '(us, out) := updateUnits_loop dt (units g) in
  mkGame us (markers g) (dragging g) (dragStart g) (dragStartGround g)
         (lastMouse g) (selBoxShown g) (groundSelection g) (running g)
         (events g ++ out).

(** [updateMarkers]: markers age and are removed at [ttl <= 0], in exact
    arithmetic; [Doubles.updateMarkers] ages the lifetimes on doubles. *)
Definition updateMarkers (dt : R) (g : Game) : Game :=
  let aged := map (fun m => mkMarker (m_position m) (ttl m - dt)) (markers g) in
  mkGame (units g) (List.filter (fun m => negb (Rleb (ttl m) 0)) aged)
         (dragging g) (dragStart g) (dragStartGround g) (lastMouse g)
         (selBoxShown g) (groundSelection g) (running g) (events g).

(** One frame: the camera pan and the renderer do not touch the units. *)
Definition tick (dt : R) (g : Game) : Game :=
  if running g then updateMarkers dt (updateUnits dt g) else g.

Definition start (g : Game) : Game :=
  emit (mkGame (units g) (markers g) (dragging g) (dragStart g)
               (dragStartGround g) (lastMouse g) (selBoxShown g)
               (groundSelection g) true (events g)) GameStarted.

Definition pause (g : Game) : Game :=
  emit (mkGame (units g) (markers g) (dragging g) (dragStart g)
               (dragStartGround g) (lastMouse g) (selBoxShown g)
               (groundSelection g) false (events g)) GamePaused.

End SpaceRunner.

(** ** Teardown: the [dispose()] of the game modules

    [dispose()] of the five game modules on the host objects it touches:
    the frame request, the resize handler, the key and DOM listeners, the
    canvas, the overlay, the scene graph and the GPU data of the renderer,
    the geometries and the materials.

    What the calls do is that of the DOM and of three.js.
    [cancelAnimationFrame], [ResizeObserver.disconnect],
    [removeEventListener], [Object3D.remove], [Object3D.clear] and the
    assignment to [innerHTML] do nothing when there is nothing to remove.
    [geometry.dispose()] and [material.dispose()] dispatch a [dispose]
    event: the renderer's listener frees the GPU data it has uploaded for
    that object and unregisters itself, so the call does nothing for an
    object without GPU data; [renderer.dispose()] does the same for the
    renderer's own GPU state.  A method call on [null] throws a
    [TypeError]; [Node.removeChild] throws when the node is not a child. *)

Module Lifecycle.

(** How a call ends. *)
Inductive Completion (A : Type) : Type :=
| Returned (a : A)
| Thrown (error : string).
Arguments Returned {A} a.
Arguments Thrown {A} error.

Inductive resource : Type :=
| rendererState                 (* what the WebGLRenderer itself holds *)
(* Ocean Glide *)
| waterGeo | waterMat
| hullGeo | hullMat | bowGeo | bowMat | mastGeo | mastMat
| wakeGeo                       (* shared by the meshes wakeL and wakeR *)
| wakeLMat | wakeRMat
| buoyGeo (i : nat) | buoyMat (i : nat)
(* Space Runner *)
| unitGeo                       (* shared by all unit meshes *)
| ringGeo                       (* shared by all selection rings *)
| unitMat (uid : nat) | ringMat (uid : nat)
| selFillGeo | selFillMat | selEdgesGeo | selEdgesMat
| markerGeo                     (* shared by all order markers *)
| markerMat (k : nat)
| groundGeo | groundMat | gridGeo | gridMat   (* never passed to dispose() *)
| cursorGeo | cursorMat                       (* never passed to dispose() *)
(* Star Field *)
| starGeo | starMat | shipGeo | shipMat
(* any other geometry or material of a scene *)
| sceneGeo (n : nat) | sceneMat (n : nat).

Definition resource_eq_dec (a b : resource) : {a = b} + {a <> b}.
Proof. decide equality; apply Nat.eq_dec. Defined.

(** The objects that the teardown detaches.  Nothing is ever moved to
    another parent, so an object is either attached to the parent it was
    added to or has no parent. *)
Inductive node : Type :=
| sceneN
| selGroupN | selFillN | selEdgesN
| unitMeshN (uid : nat) | selRingN (uid : nat)
| markerMeshN (k : nat)
| childN (n : nat).             (* any other child of the scene *)

Definition node_eq_dec (a b : node) : {a = b} + {a <> b}.
Proof. decide equality; apply Nat.eq_dec. Defined.

(** The parent that an object was added to. *)
Definition home (c : node) : node :=
  match c with
  | selFillN | selEdgesN => selGroupN
  | selRingN uid => unitMeshN uid
  | _ => sceneN
  end.

Definition listener : Type := (string * string)%type.   (* target, type *)
Definition listener_eq_dec (a b : listener) : {a = b} + {a <> b}.
Proof. decide equality; apply string_dec. Defined.

Record Host : Type := mkHost {
  running : bool;               (* the game's [running] flag *)
  frameRequested : bool;        (* a requestAnimationFrame callback is pending *)
  resizeObserved : bool;        (* the resize handler is installed *)
  keysAttached : bool;          (* KeyInput's window listeners *)
  listeners : list listener;    (* the game's own listeners *)
  canvasParent : option string; (* renderer.domElement.parentElement *)
  overlayChildren : nat;        (* children of the overlay element *)
  attached : list node;         (* the objects that have their parent *)
  gpu : list resource;          (* what holds GPU data *)
  freed : list resource         (* the GPU data freed so far, oldest first *)
}.

(** [start()] and [pause()] write the flag; [dispose()] does not read it. *)
Definition start (h : Host) : Host :=
  mkHost true (frameRequested h) (resizeObserved h) (keysAttached h)
         (listeners h) (canvasParent h) (overlayChildren h) (attached h)
         (gpu h) (freed h).

Definition step : Type := Host -> Completion Host.

(** [f(); g()] *)
Definition andThen (f g : step) : step :=
  fun h => match f h with
           | Returned h' => g h'
           | Thrown e => Thrown e
           end.
Declare Scope step_scope.
Delimit Scope step_scope with step.
Bind Scope step_scope with step.
Notation "f ;; g" := (andThen f g)
  (at level 100, g at level 200, right associativity) : step_scope.
Local Open Scope step_scope.

(** [for (const a of l) f(a)] and [l.forEach(f)] *)
Definition forEach {A : Type} (f : A -> step) (l : list A) : step :=
  fold_right (fun a k => f a ;; k) Returned l.

(** [a?.f()] and [a.f()] *)
Definition optional_call {A : Type} (a : option A) (f : A -> step) : step :=
  match a with
  | Some x => f x
  | None => Returned
  end.
Definition member_call {A : Type} (a : option A) (f : A -> step) : step :=
  match a with
  | Some x => f x
  | None => fun _ => Thrown "TypeError: cannot read properties of null"
  end.

Definition cancelAnimationFrame : step := fun h =>
  Returned (mkHost (running h) false (resizeObserved h) (keysAttached h)
                   (listeners h) (canvasParent h) (overlayChildren h)
                   (attached h) (gpu h) (freed h)).
Definition removeResize : step := fun h =>
  Returned (mkHost (running h) (frameRequested h) false (keysAttached h)
                   (listeners h) (canvasParent h) (overlayChildren h)
                   (attached h) (gpu h) (freed h)).
Definition keys_detach : step := fun h =>
  Returned (mkHost (running h) (frameRequested h) (resizeObserved h) false
                   (listeners h) (canvasParent h) (overlayChildren h)
                   (attached h) (gpu h) (freed h)).
Definition removeEventListener (l : listener) : step := fun h =>
  Returned (mkHost (running h) (frameRequested h) (resizeObserved h)
                   (keysAttached h) (List.remove listener_eq_dec l (listeners h))
                   (canvasParent h) (overlayChildren h) (attached h) (gpu h)
                   (freed h)).

(** [parent.removeChild(renderer.domElement)] *)
Definition removeChild (parent : string) : step := fun h =>
  match canvasParent h with
  | Some p =>
      if String.eqb p parent then
        Returned (mkHost (running h) (frameRequested h) (resizeObserved h)
                         (keysAttached h) (listeners h) None
                         (overlayChildren h) (attached h) (gpu h) (freed h))
      else Thrown "NotFoundError: the node is not a child of this node"
  | None => Thrown "NotFoundError: the node is not a child of this node"
  end.
(** [renderer.domElement?.parentElement?.removeChild(renderer.domElement)] *)
Definition remove_canvas : step := fun h =>
  optional_call (canvasParent h) removeChild h.

(** [overlay.innerHTML = ''] *)
Definition clear_overlay : step := fun h =>
  Returned (mkHost (running h) (frameRequested h) (resizeObserved h)
                   (keysAttached h) (listeners h) (canvasParent h) 0
                   (attached h) (gpu h) (freed h)).

Definition with_attached (h : Host) (l : list node) : Host :=
  mkHost (running h) (frameRequested h) (resizeObserved h) (keysAttached h)
         (listeners h) (canvasParent h) (overlayChildren h) l (gpu h)
         (freed h).

(** [parent.remove(child)]: nothing happens unless [child] is a child of
    [parent]. *)
Definition object_remove (parent child : node) : step := fun h =>
  if node_eq_dec (home child) parent
  then Returned (with_attached h (List.remove node_eq_dec child (attached h)))
  else Returned h.
(** [child.parent] *)
Definition parent_of (child : node) (h : Host) : option node :=
  if in_dec node_eq_dec child (attached h) then Some (home child) else None.
(** [child.parent?.remove(child)] *)
Definition remove_from_parent (child : node) : step := fun h =>
  optional_call (parent_of child h) (fun p => object_remove p child) h.
(** [scene.clear()] *)
Definition scene_clear : step := fun h =>
  Returned (with_attached h
              (List.filter (fun c => if node_eq_dec (home c) sceneN
                                     then false else true) (attached h))).

(** [r.dispose()] on a geometry or a material, and [renderer.dispose()]
    on [rendererState]. *)
Definition dispose_resource (r : resource) : step := fun h =>
  if in_dec resource_eq_dec r (gpu h) then
    Returned (mkHost (running h) (frameRequested h) (resizeObserved h)
                     (keysAttached h) (listeners h) (canvasParent h)
                     (overlayChildren h) (attached h)
                     (List.remove resource_eq_dec r (gpu h)) (freed h ++ [r]))
  else Returned h.
Definition renderer_dispose : step := dispose_resource rendererState.

(** An object that [scene.traverse] visits: its geometry, if it has one,
    and its materials. *)
Record object : Type := mkObject {
  geometry : option resource;
  materials : list resource
}.
(** [mesh.geometry?.dispose?.()], then [dispose?.()] on the material or
    on each material of the array. *)
Definition dispose_object (o : object) : step :=
  optional_call (geometry o) dispose_resource
  ;; forEach dispose_resource (materials o).
Definition scene_traverse (objects : list object) : step :=
  forEach dispose_object objects.

(** The steps that every game starts with: stop the frame loop, drop the
    resize handler and the key listeners. *)
Definition stop_loop : step :=
  cancelAnimationFrame ;; removeResize ;; keys_detach.
Definition release_renderer : step :=
  renderer_dispose ;; remove_canvas ;; clear_overlay.

(** *** Ocean Glide *)

Definition buoy_count : nat := 18.

Definition ocean_dispose : step :=
  stop_loop ;; release_renderer
  ;; forEach dispose_resource
       [waterGeo; waterMat; hullGeo; hullMat; bowGeo; bowMat; mastGeo; mastMat;
        wakeGeo; wakeLMat; wakeGeo; wakeRMat]
  ;; forEach (fun i => dispose_resource (buoyGeo i) ;; dispose_resource (buoyMat i))
             (seq 0 buoy_count)
  ;; scene_clear.

(** *** Space Runner *)

Definition runner_listeners : list listener :=
  [("window", "keydown"); ("canvas", "mousedown"); ("canvas", "mousemove");
   ("canvas", "mouseup"); ("canvas", "dblclick"); ("canvas", "contextmenu");
   ("canvas", "wheel")]%string.

Definition dispose_unit (u : SpaceRunner.Unit) : step :=
  let uid := SpaceRunner.id u in
  object_remove (unitMeshN uid) (selRingN uid)
  ;; dispose_resource ringGeo ;; dispose_resource (ringMat uid)
  ;; dispose_resource unitGeo ;; dispose_resource (unitMat uid).

Definition dispose_marker (k : nat) : step :=
  remove_from_parent (markerMeshN k)
  ;; dispose_resource markerGeo ;; dispose_resource (markerMat k).

Definition runner_dispose (g : SpaceRunner.Game) : step :=
  stop_loop
  ;; forEach removeEventListener runner_listeners
  ;; release_renderer
  ;; object_remove selGroupN selFillN ;; object_remove selGroupN selEdgesN
  ;; dispose_resource selFillGeo ;; dispose_resource selFillMat
  ;; dispose_resource selEdgesGeo ;; dispose_resource selEdgesMat
  ;; forEach dispose_unit (SpaceRunner.units g)
  ;; forEach dispose_marker (seq 0 (length (SpaceRunner.markers g)))
  ;; scene_clear.

(** *** Star Field, Grid Arena, Forest and Beach *)

Definition starfield_dispose (scene : list object) : step :=
  stop_loop ;; release_renderer
  ;; dispose_resource starGeo ;; dispose_resource starMat
  ;; dispose_resource shipGeo ;; dispose_resource shipMat
  ;; scene_traverse scene.

Definition arena_dispose : step := stop_loop ;; release_renderer.

Definition forest_dispose (scene : list object) : step :=
  stop_loop ;; release_renderer ;; scene_traverse scene.

(** The game modules of the registry, each with what its [dispose()]
    iterates over. *)
Inductive game : Type :=
| ForestBeach (scene : list object)
| SpaceRunnerGame (g : SpaceRunner.Game)
| StarField (scene : list object)
| GridArena
| OceanGlideGame.

Definition dispose (G : game) : step :=
  match G with
  | ForestBeach scene => forest_dispose scene
  | SpaceRunnerGame g => runner_dispose g
  | StarField scene => starfield_dispose scene
  | GridArena => arena_dispose
  | OceanGlideGame => ocean_dispose
  end.

(** [h'] is [h] with, possibly, more of it released. *)
Definition below (h' h : Host) : Prop :=
  running h' = running h
  /\ (frameRequested h' = true -> frameRequested h = true)
  /\ (resizeObserved h' = true -> resizeObserved h = true)
  /\ (keysAttached h' = true -> keysAttached h = true)
  /\ incl (listeners h') (listeners h)
  /\ (canvasParent h' = None \/ canvasParent h' = canvasParent h)
  /\ (overlayChildren h' <= overlayChildren h)%nat
  /\ incl (attached h') (attached h)
  /\ incl (gpu h') (gpu h).

(** A step of a teardown: it returns, it only releases, it reaches a
    state [Q] that further releases keep and in which it does nothing, and
    what it frees held GPU data and holds it no more. *)
Class Releasing (p : step) (Q : Host -> Prop) : Prop := {
  releasing_returns : forall h, exists h', p h = Returned h';
  releasing_below : forall h h', p h = Returned h' -> below h' h;
  releasing_post : forall h h', p h = Returned h' -> Q h';
  releasing_closed : forall h h', Q h -> below h' h -> Q h';
  releasing_settled : forall h, Q h -> p h = Returned h;
  releasing_log : forall h h', p h = Returned h' ->
    exists new, freed h' = freed h ++ new /\ List.NoDup new
                /\ forall r, In r new -> In r (gpu h) /\ ~ In r (gpu h');
  releasing_started : forall h h', p h = Returned h' ->
    p (start h) = Returned (start h')
}.

(** A step that leaves the GPU data of [r] alone. *)
Class Keeps (r : resource) (p : step) : Prop :=
  keeps : forall h h', p h = Returned h' -> In r (gpu h) -> In r (gpu h').

(** The geometries and materials that Space Runner creates and that its
    [dispose()] never reaches: those of the ground, the grid and the cursor
    ring. *)
Definition runner_unreached : list resource :=
  [groundGeo; groundMat; gridGeo; gridMat; cursorGeo; cursorMat].

(** What every [dispose()] has done when it returns: the frame loop, the
    resize handler and the key listeners are gone, the renderer's GPU state
    is freed, the canvas is out of the page and the overlay is empty. *)
Definition released (h : Host) : Prop :=
  frameRequested h = false /\ resizeObserved h = false
  /\ keysAttached h = false /\ ~ In rendererState (gpu h)
  /\ canvasParent h = None /\ overlayChildren h = 0%nat.

End Lifecycle.

(** ** Notions used to state the properties *)

Module Notions.
Import JS THREE.
Local Open Scope js_scope.

(** A wave whose parameters are finite numbers, with a positive
    wavelength. *)
Definition valid_wave (w : OceanGlide.GW) : Prop :=
  exists dx dy a l st sp : R,
    w = OceanGlide.mkGW (mkV2 #dx #dy) #a #l #st #sp /\ (0 < l)%R.

(** The height as the specification words it: the sum over the components
    of [amp * sin(k * (dir . [x,z]) - omega * t)] with [k = 2 pi / len] and
    [omega = sqrt(9.81 * k) * speed]. *)
Definition spec_k (w : OceanGlide.GW) : number :=
  (#2 * Math_PI) / OceanGlide.len w.
Definition spec_omega (w : OceanGlide.GW) : number :=
  Math_sqrt (#9.81 * spec_k w) * OceanGlide.speed w.
Definition spec_phase (w : OceanGlide.GW) (x z t : number) : number :=
  spec_k w * (v2x (OceanGlide.dir w) * x + v2y (OceanGlide.dir w) * z)
  - spec_omega w * t.
Definition spec_height (ws : list OceanGlide.GW) (x z t : number) : number :=
  fold_right
    (fun w acc => OceanGlide.amp w * Math_sin (spec_phase w x z t) + acc) #0 ws.
(** The sum of the component amplitudes. *)
Definition sum_amps (ws : list OceanGlide.GW) : number :=
  fold_right (fun w acc => OceanGlide.amp w + acc) #0 ws.

(** The total duration of a list of tick sizes. *)
Definition total (dts : list R) : R := fold_right Rplus 0%R dts.

(** The smoothed signal after the ticks [dts] with the raw input held at
    [want]. *)
Definition smooth_run (want : number) (dts : list R) (v : number) : number :=
  fold_left (fun v dt => OceanGlide.smooth v want #dt) dts v.

(** [updateInput] over the ticks [dts] with the keys held as they are. *)
Definition input_run (keys : OceanGlide.KeyInput) (dts : list R)
    (b : OceanGlide.Boat) : OceanGlide.Boat :=
  fold_left (fun b dt => OceanGlide.updateInput keys #dt b) dts b.

(** A forward speed within [[-MAX_REV, MAX_FWD]]. *)
Definition in_bounds (s : number) : Prop :=
  exists v : R, s = #v /\ (-3 <= v <= 14)%R.

(** The boat after each frame of [frames], oldest first. *)
Fixpoint trajectory (slerp : Quaternion -> Quaternion -> number -> Quaternion)
    (frames : list OceanGlide.frame) (b : OceanGlide.Boat)
    : list OceanGlide.Boat :=
  match frames with
  | [] => []
  | (keys, dt, t) :: rest =>
      let b' := OceanGlide.tick slerp keys #dt #t b in
      b' :: trajectory slerp rest b'
  end.

(** *** Space Runner *)

(** What a unit becomes in the selection loop. *)
Definition chosen (filter : SpaceRunner.Unit -> bool) (u : SpaceRunner.Unit)
    : SpaceRunner.Unit :=
  if filter u then SpaceRunner.select u else u.

(** The filter that a drag release applies. *)
Definition box_filter (pickGround : R -> R -> option SpaceRunner.Vector3)
    (projectToScreen : SpaceRunner.Vector3 -> R * R)
    (e : SpaceRunner.MouseEvent) (g : SpaceRunner.Game)
    : SpaceRunner.Unit -> bool :=
  match SpaceRunner.dragStartGround g,
        pickGround (SpaceRunner.clientX e) (SpaceRunner.clientY e) with
  | Some a, Some b => SpaceRunner.inWorldRect a b
  | _, _ =>
      SpaceRunner.inScreenRect projectToScreen
        (fst (SpaceRunner.dragStart g)) (snd (SpaceRunner.dragStart g))
        (SpaceRunner.clientX e) (SpaceRunner.clientY e)
  end.

(** What [seek] makes of a unit, and the events it emits for it. *)
Definition settle (dt : R) (u : SpaceRunner.Unit) : SpaceRunner.Unit :=
  fst (SpaceRunner.seek dt u).
Definition reports (dt : R) (u : SpaceRunner.Unit) : list SpaceRunner.event :=
  snd (SpaceRunner.seek dt u).

(** The host is told that a selection was replaced: first the count 0 of
    the cleared selection, then the number of units now selected. *)
Definition notified_twice (g g' : SpaceRunner.Game) : Prop :=
  SpaceRunner.events g'
  = SpaceRunner.events g
    ++ [SpaceRunner.SelectionChanged 0;
        SpaceRunner.SelectionChanged
          (length (List.filter SpaceRunner.selected (SpaceRunner.units g')))].

(** [p]'s x and z lie within the bounds of the rectangle spanned by the
    ground points [a] and [b]. *)
Definition in_world_rect (a b p : SpaceRunner.Vector3) : Prop :=
  (Rmin (SpaceRunner.x a) (SpaceRunner.x b) <= SpaceRunner.x p
   <= Rmax (SpaceRunner.x a) (SpaceRunner.x b))%R
  /\ (Rmin (SpaceRunner.z a) (SpaceRunner.z b) <= SpaceRunner.z p
      <= Rmax (SpaceRunner.z a) (SpaceRunner.z b))%R.

(** The screen point [s] lies in the rectangle spanned by the screen points
    [(sx, sy)] and [(ex, ey)]. *)
Definition in_screen_rect (sx sy ex ey : R) (s : R * R) : Prop :=
  (Rmin sx ex <= fst s <= Rmax sx ex)%R /\ (Rmin sy ey <= snd s <= Rmax sy ey)%R.

(** A fixture of three units: A and C lie inside the ground rectangle from
    (0, 0) to (6, 6), B lies outside.  The fixture's camera looks straight
    down, so that a pointer position picks the ground point with the same
    coordinates. *)
Definition unitA : SpaceRunner.Unit := SpaceRunner.spawnUnit 1 1 1.
Definition unitB : SpaceRunner.Unit := SpaceRunner.spawnUnit 2 8 8.
Definition unitC : SpaceRunner.Unit := SpaceRunner.spawnUnit 3 3 2.
Definition fixture_pickGround (cx cy : R) : option SpaceRunner.Vector3 :=
  Some (SpaceRunner.mkV cx 0 cy).
Definition fixture_pickUnit (cx cy : R) (us : list SpaceRunner.Unit)
    : option nat := None.
Definition fixture_project (p : SpaceRunner.Vector3) : R * R :=
  (SpaceRunner.x p, SpaceRunner.z p).
(** The fixture after a press of the primary button at (0, 0). *)
Definition fixture : SpaceRunner.Game :=
  SpaceRunner.onMouseDown fixture_pickGround
    (SpaceRunner.mkMouse 0 0 0 false)
    (SpaceRunner.with_units SpaceRunner.init [unitA; unitB; unitC]).
Definition release_at_6_6 : SpaceRunner.MouseEvent :=
  SpaceRunner.mkMouse 0 6 6 false.

(** The offset of the [i]-th unit in a square grid of side
    [ceil (sqrt N)], columns first, centred on the clicked point. *)
Definition grid_offset (N i : nat) : SpaceRunner.Vector3 :=
  let side := Nat.sqrt_up N in
  let half := ((INR side - 1) * 0.5)%R in
  SpaceRunner.mkV ((INR (i mod side) - half) * SpaceRunner.spacing)%R 0%R
                  ((INR (i / side) - half) * SpaceRunner.spacing)%R.

(** A unit that has a move target also has its [hadTarget] flag set. *)
Definition flagged (u : SpaceRunner.Unit) : Prop :=
  SpaceRunner.target u <> None -> SpaceRunner.hadTarget u = true.

(** The games that the handlers and the frame loop can produce from the
    initial one, whatever the camera shows. *)
Inductive reachable : SpaceRunner.Game -> Prop :=
| reach_init : reachable SpaceRunner.init
| reach_start g : reachable g -> reachable (SpaceRunner.start g)
| reach_pause g : reachable g -> reachable (SpaceRunner.pause g)
| reach_tick dt g : reachable g -> reachable (SpaceRunner.tick dt g)
| reach_mouseDown pickGround e g :
    reachable g -> reachable (SpaceRunner.onMouseDown pickGround e g)
| reach_mouseMove pickGround e g :
    reachable g -> reachable (SpaceRunner.onMouseMove pickGround e g)
| reach_mouseUp pickGround pickUnit projectToScreen e g :
    reachable g ->
    reachable (SpaceRunner.onMouseUp pickGround pickUnit projectToScreen e g)
| reach_dblClick pickUnit e g :
    reachable g -> reachable (SpaceRunner.onDblClick pickUnit e g)
| reach_contextMenu pickGround e g :
    reachable g -> reachable (SpaceRunner.onContextMenu pickGround e g)
| reach_keyDown e g : reachable g -> reachable (SpaceRunner.onKeyDown e g).

(** The unit at index [i] when its turn comes in [updateUnits], after the
    separation push. *)
Definition pushed (dt : R) (us : list SpaceRunner.Unit) (i : nat)
    (u : SpaceRunner.Unit) : SpaceRunner.Unit :=
  SpaceRunner.with_position u
    (SpaceRunner.addScaledVector (SpaceRunner.position u)
                                 (SpaceRunner.separation us i u) dt).

(** The horizontal distance from [u] to the point [tg]. *)
Definition remaining (u : SpaceRunner.Unit) (tg : SpaceRunner.Vector3) : R :=
  SpaceRunner.v_length
    (SpaceRunner.setY (SpaceRunner.v_sub tg (SpaceRunner.position u)) 0).

(** [ev] is a [unit:arrived] event of a unit of [us] that had a target. *)
Definition arrival_of (us : list SpaceRunner.Unit) (ev : SpaceRunner.event)
    : Prop :=
  exists (i : nat) (u : SpaceRunner.Unit) (px pz : R),
    us !! i = Some u /\ SpaceRunner.target u <> None
    /\ ev = SpaceRunner.UnitArrived (SpaceRunner.id u) px pz.

(** No two of the positions are closer than the separation radius. *)
Definition spread (ps : list SpaceRunner.Vector3) : Prop :=
  forall (i j : nat) (p q : SpaceRunner.Vector3),
    ps !! i = Some p -> ps !! j = Some q -> i <> j ->
    (SpaceRunner.sepRadius <= SpaceRunner.distanceTo p q)%R.

(** The camera of the scenario of C5: the pointer picks unit 1, and the
    ground point under it is where unit 1 stands. *)
Definition scenario_pickUnit (cx cy : R) (us : list SpaceRunner.Unit)
    : option nat := Some 1%nat.
Definition scenario_pickGround (cx cy : R) : option SpaceRunner.Vector3 :=
  Some (SpaceRunner.mkV (-8) 0 (-6)).
(** Click on unit 1, then right-click on the ground under it. *)
Definition scenario_selected : SpaceRunner.Game :=
  SpaceRunner.onMouseUp scenario_pickGround scenario_pickUnit fixture_project
    (SpaceRunner.mkMouse 0 0 0 false) SpaceRunner.init.
Definition scenario_commanded : SpaceRunner.Game :=
  SpaceRunner.onContextMenu scenario_pickGround
    (SpaceRunner.mkMouse 2 0 0 false) scenario_selected.

(** The target that the command of the scenario computes for unit 1, and
    unit 1 once it has that target. *)
Definition scenario_target : SpaceRunner.Vector3 :=
  SpaceRunner.v_add (SpaceRunner.mkV (-8) 0 (-6))
    (nth 0 (SpaceRunner.formationOffsets 1) SpaceRunner.zero3).
Definition scenario_unit : SpaceRunner.Unit :=
  SpaceRunner.command
    (SpaceRunner.select (SpaceRunner.spawnUnit 1 (-8) (-6)))
    (SpaceRunner.mkV (-8) 0 (-6)).

(** The fixture with all three units selected by Ctrl+A. *)
Definition fixture_all_selected : SpaceRunner.Game :=
  SpaceRunner.onKeyDown (SpaceRunner.mkKey true false "a") fixture.

End Notions.

(** ** Keyboard input ([src/lib/input/keys.ts])

    [KeyInput] with its map [down].  The two window listeners are in place
    between [attach()] and [detach()]; a key event outside that span reaches
    no handler.  [toLowerCase] is the one of [SpaceRunner], on ASCII
    letters. *)

Module Keys.

Record KeyInput : Type := mkKeys {
  attached : bool;
  down : gmap string bool
}.

(** [down] is a plain object ([{}]), so reading and writing a property goes
    through [Object.prototype]: an absent [constructor] reads as the
    inherited function (truthy), [__proto__] reads as the prototype object
    (truthy), and writing a boolean to [__proto__] is ignored by its setter.
    No other property of [Object.prototype] has an all-lowercase name. *)
Definition write (n : string) (b : bool) (d : gmap string bool)
    : gmap string bool :=
  if String.eqb n "__proto__" then d else <[n := b]> d.

(** [!!down[n]] *)
Definition truthy (d : gmap string bool) (n : string) : bool :=
  if String.eqb n "__proto__" then true
  else match d !! n with
       | Some b => b
       | None => String.eqb n "constructor"
       end.

(** [new KeyInput()] *)
Definition create : KeyInput := mkKeys false ∅.

Definition attach (k : KeyInput) : KeyInput := mkKeys true (down k).

(** [detach()] removes the listeners and resets [down] to [{}]. *)
Definition detach (k : KeyInput) : KeyInput := mkKeys false ∅.

(** A [keydown] event on the window: [this.down[e.key.toLowerCase()] = true]. *)
Definition keydown (key : string) (k : KeyInput) : KeyInput :=
  if attached k
  then mkKeys true (write (SpaceRunner.toLowerCase key) true (down k))
  else k.

(** A [keyup] event on the window: [this.down[e.key.toLowerCase()] = false]. *)
Definition keyup (key : string) (k : KeyInput) : KeyInput :=
  if attached k
  then mkKeys true (write (SpaceRunner.toLowerCase key) false (down k))
  else k.

(** [pressed(k) { return !!this.down[k.toLowerCase()] }] *)
Definition pressed (k : KeyInput) (name : string) : bool :=
  truthy (down k) (SpaceRunner.toLowerCase name).

(** A key name of ASCII characters only, for which [toLowerCase] is
    [String.prototype.toLowerCase]. *)
Definition ascii_only (s : string) : bool :=
  forallb (fun c => (Ascii.nat_of_ascii c <? 128)%nat) (list_ascii_of_string s).

(** Key events on the window, oldest first. *)
Inductive key_event : Type := Down (key : string) | Up (key : string).

Definition handle (k : KeyInput) (e : key_event) : KeyInput :=
  match e with
  | Down key => keydown key k
  | Up key => keyup key k
  end.

Definition handle_all (es : list key_event) (k : KeyInput) : KeyInput :=
  fold_left handle es k.

End Keys.

(** ** Renderer sizing ([src/lib/three/renderer.ts]) *)

Module Renderer.
Local Open Scope R_scope.

(** [sizeOf(el)], from the width and height of the element's bounding
    rectangle. *)
Definition sizeOf (width height : R) : R * R :=
  (Rmax 1 (SpaceRunner.Math_floor width),
   Rmax 1 (SpaceRunner.Math_floor height)).

(** [camera.aspect = w / h] in [apply] of [makeResizeHandler]. *)
Definition aspect (width height : R) : R :=
  fst (sizeOf width height) / snd (sizeOf width height).

End Renderer.

(** ** Screen coordinates and zoom ([SpaceRunner.ts]) *)

Module Viewport.
Local Open Scope R_scope.

(** [renderer.domElement.getBoundingClientRect()] *)
Record DOMRect : Type := mkRect { left : R; top : R; width : R; height : R }.

(** [screenToNDC(x, y)]: the value written to [mouseNDC]. *)
Definition screenToNDC (rect : DOMRect) (sx sy : R) : R * R :=
  (((sx - left rect) / width rect) * 2 - 1,
   - ((sy - top rect) / height rect) * 2 + 1).

(** The arithmetic of [projectToScreen] on the point [p] that
    [v.clone().project(camera)] returns. *)
Definition toScreen (rect : DOMRect) (p : R * R) : R * R :=
  (((fst p + 1) / 2) * width rect + left rect,
   ((- snd p + 1) / 2) * height rect + top rect).

Definition Math_sign (a : R) : R :=
  if Rlt_dec 0 a then 1 else if Rlt_dec a 0 then -1 else 0.

(** [onWheel]: the new [camDist],
    [clamp(camDist + Math.sign(e.deltaY) * 2.5, 14, 60)]. *)
Definition onWheel (deltaY camDist : R) : R :=
  Rmax 14 (Rmin 60 (camDist + Math_sign deltaY * 2.5)).

(** [camDist] when the game starts. *)
Definition camDist0 : R := 26.

(** [camDist] after the wheel events with the given [deltaY]s. *)
Definition zoom (deltas : list R) (camDist : R) : R :=
  fold_left (fun d deltaY => onWheel deltaY d) deltas camDist.

End Viewport.

(** ** The host ([src/features/GameHub/gamehub.tsx])

    The callbacks [joinGame], [leaveGame], [startGame] and [pauseGame] of the
    [GameHub] component, on the values they read and write: the instance
    ref, the React state, the stored id, and the calls they make on game
    handles.  A handle is named by the number of the [init] call that
    returned it.  The methods of a handle do not throw; [init] throws when
    the WebGL context is missing ([createRenderer]). *)

Module Host.

Inductive call : Type :=
| Init (game : string) (h : nat)      (* def.init(...) returned handle h *)
| InitFailed (game : string)          (* def.init(...) threw *)
| Start (h : nat)
| Pause (h : nat)
| Dispose (h : nat).

Record State : Type := mkState {
  instanceRef : option nat;
  activeId : option string;
  joiningId : option string;
  running : bool;
  error : option string;
  storage : option string;           (* localStorage['gamehub.activeId'] *)
  calls : list call;                 (* oldest first *)
  fresh : nat                        (* handles returned so far *)
}.

Definition initial : State := mkState None None None false None None [] 0.

(** [instanceRef.current?.pause?.(); instanceRef.current?.dispose?.()] *)
Definition pause_and_dispose (st : State) : list call :=
  match instanceRef st with
  | Some h => calls st ++ [Pause h; Dispose h]
  | None => calls st
  end.

Definition leaveGame (st : State) : State :=
  mkState None None None false None None (pause_and_dispose st) (fresh st).

Definition webgl_message : string :=
  "WebGL context not available (renderer.getContext() returned null)".

(** [joinGame(id)], with both mount points present; [games] lists the ids
    of [GAMES] ([registry.ts]) and [webgl] tells whether [createRenderer]
    gets a context. *)
Definition joinGame (games : list string) (webgl : bool) (id : string)
    (st : State) : State :=
  let cs := pause_and_dispose st in
  if existsb (String.eqb id) games then
    if webgl then
      mkState (Some (fresh st)) (Some id) None false None (Some id)
              (cs ++ [Init id (fresh st)]) (S (fresh st))
    else
      mkState None (activeId st) None (running st) (Some webgl_message)
              (storage st) (cs ++ [InitFailed id]) (fresh st)
  else
    mkState None (activeId st) None (running st)
            (Some ("Game not found: " ++ id)%string) (storage st) cs (fresh st).

Definition startGame (st : State) : State :=
  mkState (instanceRef st) (activeId st) (joiningId st) true (error st)
          (storage st)
          (match instanceRef st with
           | Some h => calls st ++ [Start h]
           | None => calls st
           end)
          (fresh st).

Definition pauseGame (st : State) : State :=
  mkState (instanceRef st) (activeId st) (joiningId st) false (error st)
          (storage st)
          (match instanceRef st with
           | Some h => calls st ++ [Pause h]
           | None => calls st
           end)
          (fresh st).

Inductive action : Type :=
| Join (webgl : bool) (id : string)
| Leave
| Play
| Halt.

Definition step (games : list string) (st : State) (a : action) : State :=
  match a with
  | Join webgl id => joinGame games webgl id st
  | Leave => leaveGame st
  | Play => startGame st
  | Halt => pauseGame st
  end.

Definition run (games : list string) (acts : list action) (st : State)
    : State :=
  fold_left (step games) acts st.

(** The lifecycle contract of a game handle, as an automaton over the calls:
    [init] only while no handle is live, handles numbered in order, and
    [start], [pause] and [dispose] only on the live handle, which [dispose]
    ends.  The result is the live handle and the number of handles so far,
    or [None] when a call breaks the contract. *)
Definition contract_step (s : option (option nat * nat)) (c : call)
    : option (option nat * nat) :=
  match s with
  | None => None
  | Some (live, n) =>
      match c, live with
      | Init _ h, None => if (h =? n)%nat then Some (Some h, S n) else None
      | InitFailed _, None => Some (None, n)
      | Start h, Some l => if (h =? l)%nat then Some (Some l, n) else None
      | Pause h, Some l => if (h =? l)%nat then Some (Some l, n) else None
      | Dispose h, Some l => if (h =? l)%nat then Some (None, n) else None
      | _, _ => None
      end
  end.

Definition contract (cs : list call) : option (option nat * nat) :=
  fold_left contract_step cs (Some (None, 0%nat)).

End Host.

(** ** Ocean Glide: the buoys and the camera

    [updateBuoys], [updateCamera] and the whole of [tick], on the boat, the
    buoy meshes and the camera position ([camera.lookAt] and the renderer
    write to neither). *)

Module OceanScene.
Import JS THREE OceanGlide.
Local Open Scope js_scope.

(** A buoy mesh: its position and orientation. *)
Record Buoy : Type := mkBuoy { bpos : Vector3; bquat : Quaternion }.

Record Scene : Type := mkScene {
  boat : Boat;
  buoys : list Buoy;
  camera : Vector3              (* camera.position *)
}.

(** [Vector3.lerp(v, alpha)]: [this.x += (v.x - this.x) * alpha], and so
    for [y] and [z]. *)
Definition v3_lerp (a v : Vector3) (alpha : number) : Vector3 :=
  mkV3 (vx a + (vx v - vx a) * alpha)
       (vy a + (vy v - vy a) * alpha)
       (vz a + (vz v - vz a) * alpha).

Section Scene.
Variable slerp : Quaternion -> Quaternion -> number -> Quaternion.

Definition updateBuoys (t : number) (bs : list Buoy) : list Buoy :=
  map (fun m =>
         let w := heightAndNormal sampler (vx (bpos m)) (vz (bpos m)) t in
         mkBuoy (Vector3.setY (bpos m) (height w + #0.5))
                (slerp (bquat m)
                       (Quaternion.setFromUnitVectors up (normal w)) #0.2))
      bs.

Definition updateCamera (dt : number) (b : Boat) (cam : Vector3) : Vector3 :=
  let lookAhead := b_speed b * #0.15 in
  let lookPos :=
    mkV3 (vx (position b) - Math_sin (heading b) * lookAhead)
         (vy (position b) + #2.8)
         (vz (position b) - Math_cos (heading b) * lookAhead - #5.8) in
  v3_lerp cam lookPos (#1 - Math_pow #0.0025 dt).

Definition tick (keys : KeyInput) (dt t : number) (s : Scene) : Scene :=
  if running (boat s) then
    let b := updateBoat slerp dt t (updateInput keys dt (boat s)) in
    mkScene b (updateBuoys t (buoys s)) (updateCamera dt b (camera s))
  else
    mkScene (boat s) (buoys s) (updateCamera (dt * #0.2) (boat s) (camera s)).

(** What happens to a scene: a frame with its keys, [dt] and [t], or a call
    of [start()] or [pause()]. *)
Inductive action : Type :=
| Frame (keys : KeyInput) (dt t : number)
| SetRunning (r : bool).

Definition step (s : Scene) (a : action) : Scene :=
  match a with
  | Frame keys dt t => tick keys dt t s
  | SetRunning r => mkScene (set_running r (boat s)) (buoys s) (camera s)
  end.

Definition run (acts : list action) (s : Scene) : Scene :=
  fold_left step acts s.
End Scene.

(** The scene when [initOceanGlide] returns, with the buoys where
    [Math.random()] put them, after [start()]. *)
Definition scene0 (bs : list Buoy) : Scene :=
  mkScene boat0 bs (mkV3 #0 #4 #8).

End OceanScene.

(** ** Space Runner: the camera rig

    [placeCamera], [cameraPan] and [onWheel] on the camera target, the zoom
    distance and the camera position.  [Vector3.applyAxisAngle],
    [applyEuler] (order XYZ), [applyQuaternion], [crossVectors] and
    [negate] are those of three.js. *)

Module CameraRig.
Import SpaceRunner.
Local Open Scope R_scope.

Record Quat : Type := mkQuat { qx : R; qy : R; qz : R; qw : R }.

(** [Quaternion.setFromAxisAngle(axis, angle)] *)
Definition setFromAxisAngle (axis : Vector3) (angle : R) : Quat :=
  let halfAngle := angle / 2 in
  let s := sin halfAngle in
  mkQuat (x axis * s) (y axis * s) (z axis * s) (cos halfAngle).

(** [Quaternion.setFromEuler(euler)], order XYZ. *)
Definition setFromEuler (ex ey ez : R) : Quat :=
  let c1 := cos (ex / 2) in
  let c2 := cos (ey / 2) in
  let c3 := cos (ez / 2) in
  let s1 := sin (ex / 2) in
  let s2 := sin (ey / 2) in
  let s3 := sin (ez / 2) in
  mkQuat (s1 * c2 * c3 + c1 * s2 * s3)
         (c1 * s2 * c3 - s1 * c2 * s3)
         (c1 * c2 * s3 + s1 * s2 * c3)
         (c1 * c2 * c3 - s1 * s2 * s3).

(** [Vector3.applyQuaternion(q)]: [v + q.w * t + cross(q.xyz, t)] with
    [t = 2 * cross(q.xyz, v)]. *)
Definition applyQuaternion (v : Vector3) (q : Quat) : Vector3 :=
  let tx := 2 * (qy q * z v - qz q * y v) in
  let ty := 2 * (qz q * x v - qx q * z v) in
  let tz := 2 * (qx q * y v - qy q * x v) in
  mkV (x v + qw q * tx + qy q * tz - qz q * ty)
      (y v + qw q * ty + qz q * tx - qx q * tz)
      (z v + qw q * tz + qx q * ty - qy q * tx).

Definition crossVectors (a b : Vector3) : Vector3 :=
  mkV (y a * z b - z a * y b) (z a * x b - x a * z b) (x a * y b - y a * x b).
Definition negate (a : Vector3) : Vector3 := mkV (- x a) (- y a) (- z a).

(** [MathUtils.degToRad(degrees) = degrees * (Math.PI / 180)] *)
Definition degToRad (degrees : R) : R := degrees * (PI / 180).
Definition camTilt : R := degToRad 58.

Record Rig : Type := mkRig {
  camTarget : Vector3;
  camDist : R;
  cameraPos : Vector3            (* camera.position *)
}.

Definition placeCamera (r : Rig) : Rig :=
  let dir := applyQuaternion (mkV 0 0 1)
                             (setFromAxisAngle (mkV 1 0 0) (- camTilt)) in
  mkRig (camTarget r) (camDist r)
        (addScaledVector (camTarget r) dir (camDist r)).

(** [keys.pressed(a) || keys.pressed(b) ? 1 : 0] *)
Definition held (keys : Keys.KeyInput) (a b : string) : R :=
  if Keys.pressed keys a || Keys.pressed keys b then 1 else 0.

Definition cameraPan (keys : Keys.KeyInput) (dt : R) (r : Rig) : Rig :=
  let panSpeed := 14 in
  let dx := held keys "d" "arrowright" - held keys "a" "arrowleft" in
  let dz := held keys "s" "arrowdown" - held keys "w" "arrowup" in
  (* if (dx || dz) *)
  if Req_dec_T dx 0 then
    if Req_dec_T dz 0 then r
    else
      let fwd :=
        normalize (setY (applyQuaternion (mkV 0 0 (-1))
                                         (setFromEuler (- camTilt) 0 0)) 0) in
      let right := negate (crossVectors fwd (mkV 0 1 0)) in
      let t1 := addScaledVector (camTarget r) right (dx * panSpeed * dt) in
      let t2 := addScaledVector t1 fwd (dz * panSpeed * dt) in
      placeCamera (mkRig t2 (camDist r) (cameraPos r))
  else
    let fwd :=
      normalize (setY (applyQuaternion (mkV 0 0 (-1))
                                       (setFromEuler (- camTilt) 0 0)) 0) in
    let right := negate (crossVectors fwd (mkV 0 1 0)) in
    let t1 := addScaledVector (camTarget r) right (dx * panSpeed * dt) in
    let t2 := addScaledVector t1 fwd (dz * panSpeed * dt) in
    placeCamera (mkRig t2 (camDist r) (cameraPos r)).

End CameraRig.

(** ** The same expressions on IEEE doubles

    JavaScript numbers are IEEE binary64 numbers and [+], [-], [*] round
    to nearest, as the primitive floats do.  [Math.pow] is
    implementation-approximated: its result is taken as an argument. *)

Module Doubles.
Import PrimFloat.
Local Open Scope float_scope.

(** [MathUtils.lerp(x, y, t) = (1 - t) * x + t * y] *)
Definition lerp (x y t : float) : float := (1 - t) * x + t * y.

(** The smoothing expression of [updateInput],
    [lerp(value, want, 1 - Math.pow(0.001, dt))], where [p] is the double
    that [Math.pow(0.001, dt)] returned. *)
Definition smooth (value want p : float) : float := lerp value want (1 - p).

(** The doubles nearest to [0.001 ^ 0.0125] and to [0.001 ^ 0.025]
    ([0.9172759353897796] and [0.8413951416451951]): the powers for a tick
    of 12.5 ms and for a tick of 25 ms. *)
Definition pow_tick : float := 0x1.d5a530ffd056dp-1.
Definition pow_two_ticks : float := 0x1.aecb5810c240dp-1.

(** The doubles within three units in the last place of [p]. *)
Definition around (p : float) : list float :=
  [next_down (next_down (next_down p)); next_down (next_down p); next_down p;
   p; next_up p; next_up (next_up p); next_up (next_up (next_up p))].

(** [updateMarkers(dt)] on the lifetimes: [m.ttl -= dt], and the marker is
    spliced out when [m.ttl <= 0].  A marker is its mesh and its [ttl]. *)
Definition updateMarkers {A : Type} (dt : float) (ms : list (A * float))
    : list (A * float) :=
  List.filter (fun m => negb (snd m <=? 0))
              (map (fun m => (fst m, snd m - dt)) ms).

(** [n] frames with the same [dt]. *)
Fixpoint frames {A : Type} (n : nat) (dt : float) (ms : list (A * float))
    : list (A * float) :=
  match n with
  | O => ms
  | S k => frames k dt (updateMarkers dt ms)
  end.

(** Markers as [spawnOrderMarker] makes them ([ttl: 1.0]), or with another
    lifetime [t]. *)
Definition with_ttl {A : Type} (t : float) (meshes : list A)
    : list (A * float) :=
  map (fun m => (m, t)) meshes.

(** The lifetime left after [n] frames, if the marker is still there. *)
Fixpoint left_after (n : nat) (dt t : float) : option float :=
  match n with
  | O => Some t
  | S k => if t - dt <=? 0 then None else left_after k dt (t - dt)
  end.

(** [0.1] as a double. *)
Definition tenth : float := 0x1.999999999999ap-4.

End Doubles.

(** ** More notions *)

Module MoreNotions.
Local Open Scope R_scope.

(** [n] frames of the running game, each with the same [dt]. *)
Fixpoint frames (dt : R) (n : nat) (g : SpaceRunner.Game) : SpaceRunner.Game :=
  match n with
  | O => g
  | S n' => frames dt n' (SpaceRunner.tick dt g)
  end.

(** A running game with the single unit [u] and no event yet. *)
Definition lone_game (u : SpaceRunner.Unit) : SpaceRunner.Game :=
  SpaceRunner.mkGame [u] [] false (0, 0) None (0, 0) false None true [].

(** A unit at the origin, commanded to the ground point [(a, 0, 0)]. *)
Definition sent_east (a : R) : SpaceRunner.Unit :=
  SpaceRunner.command
    (SpaceRunner.mkUnit 1 SpaceRunner.zero3 SpaceRunner.friendlyMat false None
                        6 false false)
    (SpaceRunner.mkV a 0 0).

(** No two of the points [ps] are at a distance that makes the separation
    rule push: every pair is at the same point or at least [sepRadius]
    apart. *)
Definition no_push (ps : list SpaceRunner.Vector3) : Prop :=
  forall (i j : nat) (p q : SpaceRunner.Vector3),
    ps !! i = Some p -> ps !! j = Some q -> i <> j ->
    ~ (0 < SpaceRunner.distanceTo p q < SpaceRunner.sepRadius).

(** A running game of the units [us], with no marker and no event yet. *)
Definition game_of (us : list SpaceRunner.Unit) : SpaceRunner.Game :=
  SpaceRunner.mkGame us [] false (0, 0) None (0, 0) false None true [].

(** A smoothed intent within [[-1, 1]]. *)
Definition within_unit (s : JS.number) : Prop :=
  exists v : R, s = JS.Num v /\ -1 <= v <= 1.

(** What selecting and deselecting leave alone: the part of a unit that
    movement reads and writes. *)
Definition movement_state (u : SpaceRunner.Unit)
    : nat * SpaceRunner.Vector3 * option SpaceRunner.Vector3 * R * bool :=
  (SpaceRunner.id u, SpaceRunner.position u, SpaceRunner.target u,
   SpaceRunner.speed u, SpaceRunner.hadTarget u).

(** What movement leaves alone: identity, looks, speed, selection and
    height. *)
Definition standing (u : SpaceRunner.Unit)
    : nat * SpaceRunner.Material * bool * R * bool * R :=
  (SpaceRunner.id u, SpaceRunner.material u, SpaceRunner.ringVisible u,
   SpaceRunner.speed u, SpaceRunner.selected u,
   SpaceRunner.y (SpaceRunner.position u)).

(** A unit as [spawnUnit] makes it, but for its place. *)
Definition idle_unit (uid : nat) (p : SpaceRunner.Vector3) : SpaceRunner.Unit :=
  SpaceRunner.mkUnit uid p SpaceRunner.friendlyMat false None 6 false false.

End MoreNotions.

(** * Properties *)

(** Decide the comparisons of concrete reals that guard a branch. *)
Ltac real_cases :=
  repeat match goal with
    | |- context [Req_dec_T ?a ?b] => destruct (Req_dec_T a b); try lra
    | |- context [Rlt_dec ?a ?b] => destruct (Rlt_dec a b); try lra
    | |- context [Rle_dec ?a ?b] => destruct (Rle_dec a b); try lra
    end.

(** ** Facts about the number model *)

Section NumberFacts.
Import JS.
Local Open Scope js_scope.

Lemma add_NaN_r (a : number) : a + NaN = NaN.
Proof. destruct a; reflexivity. Qed.

Lemma sub_NaN_r (a : number) : a - NaN = NaN.
Proof. destruct a; reflexivity. Qed.

Lemma mul_NaN_r (a : number) : a * NaN = NaN.
Proof. destruct a; reflexivity. Qed.

Lemma div_Num (a b : R) : b <> 0%R -> #a / #b = #(a / b).
Proof.
  intros Hb. unfold div. destruct (Req_dec_T b 0) as [E | _]; [contradiction | reflexivity].
Qed.

Lemma sqrt_Num (a : R) : (0 <= a)%R -> Math_sqrt #a = #(sqrt a).
Proof.
  intros Ha. unfold Math_sqrt. destruct (Rlt_dec a 0) as [L | _]; [lra | reflexivity].
Qed.

Lemma pow_Num (b e : R) : (0 < b)%R -> Math_pow #b #e = #(Rpower b e).
Proof.
  intros Hb. unfold Math_pow. destruct (Rlt_dec 0 b) as [_ | N]; [reflexivity | contradiction].
Qed.

Lemma nth_all_NaN (l : list number) (i : nat) :
  Forall (eq NaN) l -> nth i l NaN = NaN.
Proof.
  intros H. revert i. induction H as [| a l Ha _ IH]; intros [| i]; simpl; auto.
Qed.

End NumberFacts.

(** ** The wave sampler *)

Section WaveSampler.
Import JS THREE OceanGlide.
Local Open Scope js_scope.

Lemma omegas_all_NaN (ws : list GW) :
  Forall (eq NaN) (omegas (makeWaveSampler ws)).
Proof.
  unfold makeWaveSampler; simpl.
  apply Forall_lookup. intros i w Hi.
  rewrite list_lookup_imap in Hi.
  destruct (ws !! i); simpl in Hi; congruence.
Qed.

Lemma phase_at_NaN (ws : list GW) (x z t : number) (i : nat) :
  phase_at (makeWaveSampler ws) x z t i = NaN.
Proof.
  unfold phase_at.
  change undefined_number with NaN.
  rewrite (nth_all_NaN _ i (omegas_all_NaN ws)).
  apply sub_NaN_r.
Qed.

Lemma wave_step_NaN (ws : list GW) (x z t : number) (a : Acc) (i : nat) :
  let a' := wave_step (makeWaveSampler ws) x z t a i in
  dispY a' = NaN /\ dHdX a' = NaN /\ dHdZ a' = NaN.
Proof.
  unfold wave_step. rewrite phase_at_NaN. simpl.
  rewrite !mul_NaN_r, !add_NaN_r. auto.
Qed.

Lemma loop_NaN (w : GW) (ws : list GW) (x z t : number) :
  let s := makeWaveSampler (w :: ws) in
  let a := fold_left (wave_step s x z t) (seq 0 (length (s_waves s)))
                     (mkAcc #0 #0 #0 #0 #0) in
  dispY a = NaN /\ dHdX a = NaN /\ dHdZ a = NaN.
Proof.
  intros s a. subst a.
  replace (length (s_waves s)) with (S (length ws)) by reflexivity.
  rewrite seq_S, fold_left_app. simpl fold_left at 1.
  apply wave_step_NaN.
Qed.

Lemma height_NaN (w : GW) (ws : list GW) (x z t : number) :
  height (heightAndNormal (makeWaveSampler (w :: ws)) x z t) = NaN.
Proof. unfold heightAndNormal. cbn [height]. apply loop_NaN. Qed.

Lemma normal_NaN (w : GW) (ws : list GW) (x z t : number) :
  normal (heightAndNormal (makeWaveSampler (w :: ws)) x z t)
  = mkV3 NaN #(1 * (1 / 1)) NaN.
Proof.
  destruct (loop_NaN w ws x z t) as (_ & HX & HZ).
  cbv zeta in HX, HZ.
  unfold heightAndNormal. cbn [normal]. rewrite HX, HZ.
  unfold Vector3.normalize, Vector3.length. simpl.
  unfold Vector3.divideScalar, Vector3.multiplyScalar. simpl.
  destruct (Req_dec_T 1 0); [lra | reflexivity].
Qed.

End WaveSampler.

Section WaveSamplerClaims.
Import JS THREE OceanGlide Notions.
Local Open Scope js_scope.

Lemma norm2_finite (a b : R) : exists c d : R, norm2 (mkV2 #a #b) = mkV2 #c #d.
Proof.
  unfold norm2, Vector2.lengthSq, Vector2.normalize, Vector2.divideScalar,
    Vector2.multiplyScalar, Vector2.length, Vector2.lengthSq, strict_eq,
    or_else, Math_sqrt, div; simpl.
  assert (0 <= a * a + b * b)%R by nra.
  real_cases; simpl; real_cases; eauto.
Qed.

Lemma waves_valid : Forall valid_wave waves.
Proof.
  unfold waves.
  destruct (norm2_finite 1 0) as (c1 & d1 & E1).
  destruct (norm2_finite 0.2 0.98) as (c2 & d2 & E2).
  destruct (norm2_finite (Ropp 0.9) 0.4) as (c3 & d3 & E3).
  change (- #0.9) with #(Ropp 0.9). rewrite E1, E2, E3.
  repeat constructor; unfold valid_wave; do 6 eexists; (split; [reflexivity | lra]).
Qed.

Lemma spec_term_finite (w : GW) (x z t : R) :
  valid_wave w -> finite (amp w * Math_sin (spec_phase w #x #z #t)).
Proof.
  intros (dx & dy & a & l & st & sp & -> & Hl).
  unfold spec_phase, spec_omega, spec_k, Math_PI; simpl.
  assert (0 < 2 * PI / l)%R.
  { apply Rdiv_lt_0_compat; [| assumption]. pose proof PI_RGT_0. lra. }
  real_cases; simpl; real_cases.
  eexists; reflexivity.
Qed.

Lemma spec_height_finite (ws : list GW) (x z t : R) :
  Forall valid_wave ws -> finite (spec_height ws #x #z #t).
Proof.
  induction 1 as [| w ws Hw _ IH]; simpl.
  - eexists; reflexivity.
  - destruct (spec_term_finite w x z t Hw) as (r1 & ->).
    destruct IH as (r2 & ->). eexists; reflexivity.
Qed.

(** C1 (defect).  The CPU sampler does not return the sum of
    [amp * sin(phase)]: [omegas] is built by mapping over [waves], so each
    angular frequency is [sqrt(9.81 * <object>) * speed], which is NaN, and
    with it every phase and the height.  For the game's own three waves and
    every finite query the sampled height is NaN, while the sum the claim
    describes is a finite number. *)
Theorem sampler_height_is_NaN_not_the_sine_sum :
  forall x z t : R,
    height (heightAndNormal sampler #x #z #t) = NaN
    /\ finite (spec_height waves #x #z #t)
    /\ height (heightAndNormal sampler #x #z #t) <> spec_height waves #x #z #t.
Proof.
  intros x z t.
  assert (HN : height (heightAndNormal sampler #x #z #t) = NaN)
    by apply height_NaN.
  pose proof (spec_height_finite waves x z t waves_valid) as HF.
  repeat split; try assumption.
  destruct HF as (r & Hr). rewrite HN, Hr. discriminate.
Qed.

(** C2 (defect, the same one as C1).  For the game's waves the normal that
    [heightAndNormal] returns is [(NaN, 1, NaN)]: its length is NaN, not 1,
    and the height is NaN, so the comparison [|height| <= sum of amplitudes]
    is false. *)
Theorem sampler_normal_not_unit_height_not_bounded :
  forall x z t : number,
    let s := heightAndNormal sampler x z t in
    Vector3.length (normal s) = NaN
    /\ strict_eq (Vector3.length (normal s)) #1 = false
    /\ le (Math_abs (height s)) (sum_amps waves) = false.
Proof.
  intros x z t s. subst s. unfold sampler, waves.
  rewrite normal_NaN, height_NaN. repeat split.
Qed.

Lemma finalQ_NaN_normal (h : number) (y : R) :
  finalQ h (mkV3 NaN #y NaN) = mkQ NaN NaN NaN NaN.
Proof.
  unfold finalQ, Quaternion.setFromUnitVectors, Vector3.dot, up. simpl.
  unfold Quaternion.normalize, Quaternion.length. simpl.
  unfold Quaternion.multiply. simpl.
  rewrite !mul_NaN_r. simpl. rewrite ?add_NaN_r, ?sub_NaN_r. simpl.
  rewrite ?add_NaN_r, ?sub_NaN_r. reflexivity.
Qed.

(** C9 (defect, the same one as C1).  On every tick the sampled normal is
    [(NaN, 1, NaN)]; it is not of zero magnitude, no fall-back applies, and
    the orientation that the boat is slerped towards has NaN in all four
    components; the boat's height is NaN as well. *)
Theorem boat_orientation_target_is_NaN :
  forall (slerp : Quaternion -> Quaternion -> number -> Quaternion)
         (dt t : number) (b : Boat),
    let b' := updateBoat slerp dt t b in
    vy (position b') = NaN
    /\ exists a angle : number,
         quaternion b' = rotateZ (slerp (quaternion b) (mkQ NaN NaN NaN NaN) a)
                                 angle.
Proof.
  intros slerp dt t b b'. subst b'. unfold updateBoat. cbn [position quaternion].
  unfold sampler, waves. rewrite height_NaN, normal_NaN, finalQ_NaN_normal.
  split; [reflexivity |]. eauto.
Qed.

Lemma EPSILON_bounds : exists e : R, EPSILON = #e /\ (0 < e < 1)%R.
Proof.
  exists (/ 2 ^ 52)%R. split; [reflexivity |].
  assert (L : (1 < 2 ^ 52)%R) by (apply Rlt_pow_R1; [lra | lia]).
  split.
  - apply Rinv_0_lt_compat. lra.
  - apply (Rinv_1_lt_contravar 1) in L; [| lra]. rewrite Rinv_1 in L. exact L.
Qed.

Lemma normalize_along_w (a b c d : R) :
  a = 0%R -> b = 0%R -> c = 0%R -> (0 < d)%R ->
  Quaternion.normalize (mkQ #a #b #c #d) = mkQ #0 #0 #0 #1.
Proof.
  intros -> -> -> Hd.
  unfold Quaternion.normalize, Quaternion.length, strict_eq, Math_sqrt, div.
  cbn [qx qy qz qw mul add lift2].
  replace (0 * 0 + 0 * 0 + 0 * 0 + d * d)%R with (d * d)%R by ring.
  rewrite sqrt_square by lra.
  real_cases; [nra |].
  f_equal; f_equal; field; lra.
Qed.

(** The guard that does exist: a normal of zero magnitude gives the same
    target orientation as world-up. *)
Lemma finalQ_zero_normal_is_up (h : number) :
  finalQ h (mkV3 #0 #0 #0) = finalQ h up.
Proof.
  unfold finalQ. f_equal.
  unfold Quaternion.setFromUnitVectors, Vector3.dot, up.
  destruct EPSILON_bounds as (e & -> & He).
  cbn [vx vy vz mul add sub lift2 lt].
  real_cases.
  rewrite !normalize_along_w by lra. reflexivity.
Qed.

End WaveSamplerClaims.

(** ** The boat controller *)

Section BoatController.
Import JS THREE OceanGlide Notions.
Local Open Scope js_scope.

Lemma smooth_Num (v w dt : R) :
  smooth #v #w #dt
  = #((1 - (1 - Rpower 0.001 dt)) * v + (1 - Rpower 0.001 dt) * w).
Proof. unfold smooth, lerp. rewrite pow_Num by lra. reflexivity. Qed.

Lemma smooth_NaN (w dt : R) : smooth NaN #w #dt = NaN.
Proof. unfold smooth, lerp. rewrite pow_Num by lra. reflexivity. Qed.

(** The closed form of the exponential approach: after the ticks [dts] the
    distance to the input has shrunk by [0.001 ^ total dts]. *)
Lemma smooth_run_cons (w : number) (dt : R) (dts : list R) (v : number) :
  smooth_run w (dt :: dts) v = smooth_run w dts (smooth v w #dt).
Proof. reflexivity. Qed.

Lemma total_cons (dt : R) (dts : list R) : total (dt :: dts) = (dt + total dts)%R.
Proof. reflexivity. Qed.

Lemma smooth_run_closed (w : R) (dts : list R) (v : R) :
  smooth_run #w dts #v = #(w + (v - w) * Rpower 0.001 (total dts)).
Proof.
  revert v. induction dts as [| dt dts IH]; intros v.
  - cbn [smooth_run fold_left total fold_right].
    rewrite Rpower_O by lra. f_equal. ring.
  - rewrite smooth_run_cons, smooth_Num, IH, total_cons, Rpower_plus.
    f_equal. ring.
Qed.

Lemma smooth_run_NaN (w : R) (dts : list R) : smooth_run #w dts NaN = NaN.
Proof.
  induction dts as [| dt dts IH]; [reflexivity |].
  rewrite smooth_run_cons, smooth_NaN. exact IH.
Qed.

Lemma smooth_run_total (w : R) (dts1 dts2 : list R) (v : number) :
  total dts1 = total dts2 -> smooth_run #w dts1 v = smooth_run #w dts2 v.
Proof.
  intros E. destruct v as [v |].
  - rewrite !smooth_run_closed, E. reflexivity.
  - rewrite !smooth_run_NaN. reflexivity.
Qed.

Lemma wantThrottle_Num (keys : KeyInput) : exists w : R, wantThrottle keys = #w.
Proof.
  unfold wantThrottle. destruct (pressed keys "w"), (pressed keys "s");
    eexists; reflexivity.
Qed.

Lemma wantSteer_Num (keys : KeyInput) : exists w : R, wantSteer keys = #w.
Proof.
  unfold wantSteer. destruct (pressed keys "d"), (pressed keys "a");
    eexists; reflexivity.
Qed.

(** [updateInput] over several ticks smooths the two intents separately
    and leaves the rest of the boat alone. *)
Lemma input_run_fields (keys : KeyInput) (dts : list R) (b : Boat) :
  input_run keys dts b
  = {| b_speed := b_speed b;
       heading := heading b;
       targetThrottle := smooth_run (wantThrottle keys) dts (targetThrottle b);
       targetSteer := smooth_run (wantSteer keys) dts (targetSteer b);
       position := position b;
       quaternion := quaternion b;
       running := running b |}.
Proof.
  revert b. induction dts as [| dt dts IH]; intros b.
  - destruct b; reflexivity.
  - change (input_run keys (dt :: dts) b)
      with (input_run keys dts (updateInput keys #dt b)).
    rewrite IH. reflexivity.
Qed.

(** C3, amended.  In exact arithmetic, with the raw input held constant,
    the smoothed intent depends only on the total duration, not on how it
    is cut into ticks: for any raw input value, and for [updateInput] with
    any keys held; in particular two ticks of size [dt] equal one tick of
    size [2 * dt]. *)
Theorem smoothing_independent_of_tick_rate :
  (forall (dts1 dts2 : list R),
      total dts1 = total dts2 ->
      (forall (want : R) (v : number),
          smooth_run #want dts1 v = smooth_run #want dts2 v)
      /\ (forall (keys : KeyInput) (b : Boat),
             input_run keys dts1 b = input_run keys dts2 b))
  /\ (forall (keys : KeyInput) (dt : R) (b : Boat),
         updateInput keys #dt (updateInput keys #dt b)
         = updateInput keys #(2 * dt) b).
Proof.
  assert (Hrun : forall (dts1 dts2 : list R) (keys : KeyInput) (b : Boat),
             total dts1 = total dts2 ->
             input_run keys dts1 b = input_run keys dts2 b).
  { intros dts1 dts2 keys b E. rewrite !input_run_fields.
    destruct (wantThrottle_Num keys) as (wt & ->).
    destruct (wantSteer_Num keys) as (ws & ->).
    rewrite (smooth_run_total wt dts1 dts2), (smooth_run_total ws dts1 dts2)
      by exact E.
    reflexivity. }
  split.
  - intros dts1 dts2 E. split.
    + intros want v. apply smooth_run_total, E.
    + intros keys b. apply Hrun, E.
  - intros keys dt b.
    change (updateInput keys #dt (updateInput keys #dt b))
      with (input_run keys [dt; dt] b).
    change (updateInput keys #(2 * dt) b) with (input_run keys [(2 * dt)%R] b).
    apply Hrun. simpl. lra.
Qed.

Lemma smoothing_independent_of_tick_rate_witness :
  smooth_run #1 [0.25; 0.25; 0.5]%R #0 = smooth_run #1 [1%R] #0
  /\ input_run {["w" := true]} [0.25; 0.25; 0.5]%R boat0
     = input_run {["w" := true]} [1%R] boat0.
Proof.
  assert (E : total [0.25; 0.25; 0.5]%R = total [1%R]) by (simpl; lra).
  destruct smoothing_independent_of_tick_rate as (Hpart & _).
  destruct (Hpart _ _ E) as (H1 & H2).
  split; [apply H1 | apply H2].
Defined.

Lemma next_speed_in_bounds (b : Boat) (dt : R) :
  finite (b_speed b) -> finite (targetThrottle b) ->
  in_bounds (next_speed b #dt).
Proof.
  intros (s & Hs) (th & Hth).
  unfold next_speed, clamp, ACCEL, DRAG, MAX_REV, MAX_FWD.
  rewrite Hs, Hth. simpl.
  eexists. split; [reflexivity |]. split.
  - apply Rmax_l.
  - apply Rmax_lub; [lra | apply Rmin_l].
Qed.

Lemma in_bounds_finite (s : number) : in_bounds s -> finite s.
Proof. intros (v & -> & _). eexists; reflexivity. Qed.

Lemma updateInput_finite (keys : KeyInput) (dt : R) (b : Boat) :
  finite (targetThrottle b) -> finite (targetThrottle (updateInput keys #dt b)).
Proof.
  intros (th & Hth). cbn [updateInput targetThrottle]. rewrite Hth.
  destruct (wantThrottle_Num keys) as (w & ->).
  rewrite smooth_Num. eexists; reflexivity.
Qed.

Section WithSlerp.
Variable slerp : Quaternion -> Quaternion -> number -> Quaternion.

Lemma updateBoat_speed (dt t : number) (b : Boat) :
  b_speed (updateBoat slerp dt t b) = next_speed b dt.
Proof. reflexivity. Qed.

Lemma tick_invariant (keys : KeyInput) (dt t : R) (b : Boat) :
  finite (b_speed b) -> finite (targetThrottle b) -> running b = true ->
  let b' := tick slerp keys #dt #t b in
  in_bounds (b_speed b') /\ finite (targetThrottle b') /\ running b' = true.
Proof.
  intros Hs Hth Hr b'. subst b'. unfold tick. rewrite Hr.
  split; [| split].
  - rewrite updateBoat_speed. apply next_speed_in_bounds.
    + exact Hs.
    + apply updateInput_finite, Hth.
  - cbn [updateBoat targetThrottle]. apply updateInput_finite, Hth.
  - exact Hr.
Qed.

Lemma trajectory_in_bounds (frames : list frame) (b : Boat) :
  finite (b_speed b) -> finite (targetThrottle b) -> running b = true ->
  Forall (fun b' => in_bounds (b_speed b')) (trajectory slerp frames b).
Proof.
  revert b. induction frames as [| [[keys dt] t] rest IH]; intros b Hs Hth Hr.
  - constructor.
  - destruct (tick_invariant keys dt t b Hs Hth Hr) as (H1 & H2 & H3).
    simpl. constructor; [exact H1 |].
    apply IH; [apply in_bounds_finite, H1 | exact H2 | exact H3].
Qed.
End WithSlerp.

(** C7.  After every tick the forward speed lies in [[-3, 14]]: for one
    [updateBoat] with any finite speed, throttle intent and tick size, and
    along every sequence of frames of the running game. *)
Theorem speed_within_bounds_after_every_tick :
  forall (slerp : Quaternion -> Quaternion -> number -> Quaternion)
         (b : Boat),
    finite (b_speed b) -> finite (targetThrottle b) ->
    (forall dt t : R, in_bounds (b_speed (updateBoat slerp #dt #t b)))
    /\ (running b = true ->
        forall frames : list frame,
          Forall (fun b' => in_bounds (b_speed b')) (trajectory slerp frames b)).
Proof.
  intros slerp b Hs Hth. split.
  - intros dt t. rewrite updateBoat_speed. apply next_speed_in_bounds; assumption.
  - intros Hr frames. apply trajectory_in_bounds; assumption.
Qed.

Lemma speed_within_bounds_after_every_tick_witness :
  in_bounds (b_speed (updateBoat (fun q _ _ => q) #0.016 #0.016 boat0))
  /\ Forall (fun b' => in_bounds (b_speed b'))
            (trajectory (fun q _ _ => q)
               [({["w" := true]}, 0.016, 0.016)%R;
                ({["w" := true]}, 0.5, 0.516)%R;
                ({["s" := true]}, 2, 2.516)%R]
               boat0).
Proof.
  assert (F : finite #0) by (eexists; reflexivity).
  destruct (speed_within_bounds_after_every_tick (fun q _ _ => q) boat0 F F)
    as (H1 & H2).
  split; [apply H1 | apply H2; reflexivity].
Defined.

End BoatController.

(** ** Smoothing on doubles *)

Section DoubleSmoothing.
Import PrimFloat.
Local Open Scope float_scope.

(** C3, on doubles.  From rest with W held, two ticks of 12.5 ms and one
    tick of 25 ms leave different throttle intents, whichever doubles
    within three units in the last place of the exact powers [Math.pow]
    returns: the two runs are not exactly the same on the numbers the code
    computes with. *)
Lemma two_ticks_differ_from_one_tick_of_twice_the_size :
  Forall (fun p1 =>
            Forall (fun p2 =>
                      PrimFloat.eqb
                        (Doubles.smooth (Doubles.smooth 0 1 p1) 1 p1)
                        (Doubles.smooth 0 1 p2) = false)
                   (Doubles.around Doubles.pow_two_ticks))
         (Doubles.around Doubles.pow_tick).
Proof. repeat constructor. Qed.

End DoubleSmoothing.

(** ** Selection *)

Section Selection.
Import SpaceRunner Notions.
Local Open Scope R_scope.

Lemma Rleb_true_iff (a b : R) : Rleb a b = true <-> a <= b.
Proof. unfold Rleb. destruct (Rle_dec a b); split; intros; try discriminate; tauto. Qed.

Lemma Rltb_true_iff (a b : R) : Rltb a b = true <-> a < b.
Proof. unfold Rltb. destruct (Rlt_dec a b); split; intros; try discriminate; tauto. Qed.

Lemma hypot_gt (c a b : R) : 0 <= c -> c * c < a * a + b * b -> c < Math_hypot a b.
Proof.
  intros Hc H. unfold Math_hypot.
  rewrite <- (sqrt_square c) at 1 by exact Hc.
  apply sqrt_lt_1_alt. split; [nra | exact H].
Qed.

Lemma select_loop (filter : Unit -> bool) (us acc : list Unit) (n : nat) :
  fold_left (select_step filter) us (acc, n)
  = (acc ++ map (chosen filter) us, (n + length (List.filter filter us))%nat).
Proof.
  revert acc n. induction us as [| u us IH]; intros acc n.
  - simpl. rewrite app_nil_r, Nat.add_0_r. reflexivity.
  - cbn [fold_left map List.filter].
    assert (S1 : select_step filter (acc, n) u
                 = (acc ++ [chosen filter u],
                    (n + (if filter u then 1 else 0))%nat)).
    { unfold select_step, chosen; simpl. destruct (filter u); f_equal; lia. }
    rewrite S1, IH, <- app_assoc. simpl.
    destruct (filter u); simpl; f_equal; lia.
Qed.

Lemma applySelectionFilter_units (filter : Unit -> bool) (g : Game) :
  units (applySelectionFilter filter false g)
  = map (chosen filter) (map deselect (units g)).
Proof.
  unfold applySelectionFilter. cbn [clearSelection emit with_units units].
  rewrite select_loop. reflexivity.
Qed.

Lemma applySelectionFilter_events (filter : Unit -> bool) (g : Game) :
  events (applySelectionFilter filter false g)
  = events g ++ [SelectionChanged 0;
                 SelectionChanged
                   (length (List.filter filter (map deselect (units g))))].
Proof.
  unfold applySelectionFilter. cbn [clearSelection emit with_units units events].
  rewrite select_loop. cbn [emit with_units events app].
  unfold clearSelection. cbn [emit with_units events].
  rewrite <- app_assoc. reflexivity.
Qed.

(** After the clearing, the selected units are exactly the chosen ones. *)
Lemma selected_after_replace (filter : Unit -> bool) (us : list Unit) :
  length (List.filter selected (map (chosen filter) (map deselect us)))
  = length (List.filter filter (map deselect us)).
Proof.
  induction us as [| u us IH]; simpl; [reflexivity |].
  unfold chosen at 1. destruct (filter (deselect u)); simpl; rewrite IH; reflexivity.
Qed.

Lemma applySelectionFilter_notifies (filter : Unit -> bool) (g : Game) :
  notified_twice g (applySelectionFilter filter false g).
Proof.
  unfold notified_twice.
  rewrite applySelectionFilter_events, applySelectionFilter_units,
    selected_after_replace.
  reflexivity.
Qed.

Lemma release_notifies (filter : Unit -> bool) (g : Game) :
  notified_twice g
    (end_drag (applySelectionFilter filter false (hide_selection g))).
Proof.
  pose proof (applySelectionFilter_notifies filter (hide_selection g)) as H.
  unfold notified_twice in *. exact H.
Qed.

Section Gestures.
Variable pickGround : R -> R -> option Vector3.
Variable pickUnit : R -> R -> list Unit -> option nat.
Variable projectToScreen : Vector3 -> R * R.

Let mouseUp := onMouseUp pickGround pickUnit projectToScreen.

Lemma mouseUp_box (e : MouseEvent) (g : Game) :
  button e = 0%nat ->
  5 < Math_hypot (clientX e - fst (dragStart g)) (clientY e - snd (dragStart g)) ->
  mouseUp e g
  = end_drag (applySelectionFilter
                (box_filter pickGround projectToScreen e g) (shiftKey e)
                (hide_selection g)).
Proof.
  intros Hb Hm. unfold mouseUp, onMouseUp. rewrite Hb. simpl Nat.eqb. cbv iota.
  apply Rltb_true_iff in Hm. rewrite Hm. simpl negb. cbv iota.
  unfold box_filter. cbn [hide_selection dragStartGround dragStart].
  destruct (dragStartGround g), (pickGround (clientX e) (clientY e)); reflexivity.
Qed.

Lemma mouseUp_click (e : MouseEvent) (g : Game) (hit : nat) :
  button e = 0%nat ->
  ~ 5 < Math_hypot (clientX e - fst (dragStart g)) (clientY e - snd (dragStart g)) ->
  pickUnit (clientX e) (clientY e) (units g) = Some hit ->
  mouseUp e g
  = end_drag (applySelectionFilter (fun u => (id u =? hit)%nat) (shiftKey e)
                                   (hide_selection g)).
Proof.
  intros Hb Hm Hp. unfold mouseUp, onMouseUp. rewrite Hb. simpl Nat.eqb. cbv iota.
  assert (E : Rltb 5 (Math_hypot (clientX e - fst (dragStart g))
                                 (clientY e - snd (dragStart g))) = false).
  { destruct (Rltb _ _) eqn:E; [| reflexivity].
    apply Rltb_true_iff in E. contradiction. }
  rewrite E. simpl negb. cbv iota.
  cbn [hide_selection units]. rewrite Hp. reflexivity.
Qed.
End Gestures.


End Selection.

(** ** Box selection *)

Section BoxSelect.
Import SpaceRunner Notions.
Local Open Scope R_scope.

Lemma lookup_map {A B : Type} (f : A -> B) (l : list A) (i : nat) :
  map f l !! i = option_map f (l !! i).
Proof.
  revert i. induction l as [| a l IH]; intros [| i]; simpl; auto.
Qed.

Lemma inWorldRect_spec (a b : Vector3) (u : Unit) :
  inWorldRect a b u = true <-> in_world_rect a b (position u).
Proof.
  unfold inWorldRect, in_world_rect.
  rewrite !andb_true_iff, !Rleb_true_iff. tauto.
Qed.

Lemma inScreenRect_spec projectToScreen (sx sy ex ey : R) (u : Unit) :
  inScreenRect projectToScreen sx sy ex ey u = true
  <-> in_screen_rect sx sy ex ey (projectToScreen (position u)).
Proof.
  unfold inScreenRect, in_screen_rect.
  rewrite !andb_true_iff, !Rleb_true_iff. tauto.
Qed.

Lemma chosen_deselect_selected (filter : Unit -> bool) (u : Unit) :
  selected (chosen filter (deselect u)) = filter (deselect u).
Proof. unfold chosen. destruct (filter (deselect u)); reflexivity. Qed.

Lemma chosen_deselect_id (filter : Unit -> bool) (u : Unit) :
  id (chosen filter (deselect u)) = id u.
Proof. unfold chosen. destruct (filter (deselect u)); reflexivity. Qed.

Lemma chosen_deselect_position (filter : Unit -> bool) (u : Unit) :
  position (chosen filter (deselect u)) = position u.
Proof. unfold chosen. destruct (filter (deselect u)); reflexivity. Qed.

(** C4.  A drag release beyond the click threshold, without the additive
    modifier: a unit ends up selected exactly when its position lies in the
    world rectangle of the two ground points (if both were hit) or else
    when its projection lies in the screen rectangle; units keep their
    place, id and position; the previous selection is replaced, and the
    host is told the number of selected units. *)
Theorem box_select_replaces_selection :
  forall pickGround pickUnit projectToScreen (e : MouseEvent) (g : Game),
    button e = 0%nat ->
    5 < Math_hypot (clientX e - fst (dragStart g))
                   (clientY e - snd (dragStart g)) ->
    shiftKey e = false ->
    let g' := onMouseUp pickGround pickUnit projectToScreen e g in
    let inside (p : Vector3) : Prop :=
      match dragStartGround g, pickGround (clientX e) (clientY e) with
      | Some a, Some b => in_world_rect a b p
      | _, _ =>
          in_screen_rect (fst (dragStart g)) (snd (dragStart g))
                         (clientX e) (clientY e) (projectToScreen p)
      end in
    length (units g') = length (units g)
    /\ (forall (i : nat) (u : Unit),
           units g !! i = Some u ->
           exists u' : Unit,
             units g' !! i = Some u'
             /\ id u' = id u /\ position u' = position u
             /\ (selected u' = true <-> inside (position u)))
    /\ last (events g')
       = Some (SelectionChanged (length (List.filter selected (units g'))))
    /\ notified_twice g g'.
Proof.
  intros pickGround pickUnit projectToScreen e g Hb Hm Hs g' inside.
  assert (Hn : notified_twice g g').
  { subst g'. rewrite mouseUp_box by assumption. rewrite Hs.
    apply release_notifies. }
  assert (Hu : units g'
               = map (chosen (box_filter pickGround projectToScreen e g))
                     (map deselect (units g))).
  { subst g'. rewrite mouseUp_box by assumption. rewrite Hs.
    cbn [end_drag units]. rewrite applySelectionFilter_units. reflexivity. }
  split; [| split; [| split]].
  - rewrite Hu, !length_map. reflexivity.
  - intros i u Hi. rewrite Hu, !lookup_map, Hi. simpl.
    eexists. split; [reflexivity |].
    rewrite chosen_deselect_id, chosen_deselect_position,
      chosen_deselect_selected.
    repeat split; try reflexivity.
    + intros H. unfold box_filter in H. unfold inside.
      destruct (dragStartGround g) as [a |],
               (pickGround (clientX e) (clientY e)) as [b |];
        first [apply inWorldRect_spec in H | apply inScreenRect_spec in H];
        exact H.
    + intros H. unfold inside in H. unfold box_filter.
      destruct (dragStartGround g) as [a |],
               (pickGround (clientX e) (clientY e)) as [b |];
        first [apply inWorldRect_spec | apply inScreenRect_spec];
        exact H.
  - unfold notified_twice in Hn. rewrite Hn.
    change [SelectionChanged 0;
            SelectionChanged (length (List.filter selected (units g')))]
      with ([SelectionChanged 0]
            ++ [SelectionChanged (length (List.filter selected (units g')))]).
    rewrite app_assoc. apply last_snoc.
  - exact Hn.
Qed.

End BoxSelect.

Section FixtureChecks.
Import SpaceRunner Notions.
Local Open Scope R_scope.

Lemma fixture_drag_moved :
  5 < Math_hypot (clientX release_at_6_6 - fst (dragStart fixture))
                 (clientY release_at_6_6 - snd (dragStart fixture)).
Proof. apply hypot_gt; simpl; lra. Qed.

Ltac min_max := unfold Rmin, Rmax; real_cases.

Lemma unitA_inside : in_world_rect (mkV 0 0 0) (mkV 6 0 6) (position unitA).
Proof. unfold in_world_rect; simpl. min_max. Qed.

Lemma unitB_outside : ~ in_world_rect (mkV 0 0 0) (mkV 6 0 6) (position unitB).
Proof. unfold in_world_rect; simpl. min_max. Qed.

Lemma unitC_inside : in_world_rect (mkV 0 0 0) (mkV 6 0 6) (position unitC).
Proof. unfold in_world_rect; simpl. min_max. Qed.

(** The fixture of C4: the rectangle contains exactly A and C, so exactly
    these two are selected and the count 2 is reported. *)
Lemma box_select_replaces_selection_witness :
  let g' := onMouseUp fixture_pickGround fixture_pickUnit fixture_project
                      release_at_6_6 fixture in
  map selected (units g') = [true; false; true]
  /\ map id (units g') = [1; 2; 3]%nat
  /\ last (events g') = Some (SelectionChanged 2).
Proof.
  intros g'.
  destruct (box_select_replaces_selection
              fixture_pickGround fixture_pickUnit fixture_project
              release_at_6_6 fixture eq_refl fixture_drag_moved eq_refl)
    as (Hlen & Hu & Hlast & _).
  fold g' in Hlen, Hu, Hlast.
  destruct (Hu 0%nat unitA eq_refl) as (a & Ha & Ia & _ & Sa).
  destruct (Hu 1%nat unitB eq_refl) as (b & Hb & Ib & _ & Sb).
  destruct (Hu 2%nat unitC eq_refl) as (c & Hc & Ic & _ & Sc).
  cbn in Sa, Sb, Sc.
  change (units fixture) with [unitA; unitB; unitC] in Hlen.
  destruct (units g') as [| a' [| b' [| c' [| d' rest]]]]; try discriminate Hlen.
  cbn in Ha, Hb, Hc. injection Ha as ->. injection Hb as ->. injection Hc as ->.
  assert (Ea : selected a = true) by (apply Sa, unitA_inside).
  assert (Ec : selected c = true) by (apply Sc, unitC_inside).
  assert (Eb : selected b = false).
  { destruct (selected b); [| reflexivity].
    exfalso. apply unitB_outside, Sb. reflexivity. }
  cbn [map List.filter length] in *.
  rewrite Ea, Eb, Ec in *. rewrite Ia, Ib, Ic.
  repeat split; exact Hlast.
Defined.


End FixtureChecks.

(** ** Formation and move commands *)

Section Formation.
Import SpaceRunner Notions.
Local Open Scope R_scope.

Lemma ceil_sqrt_nat (n : nat) : Math_ceil (sqrt (INR n)) = INR (Nat.sqrt_up n).
Proof.
  unfold Math_ceil. rewrite (INR_IZR_INZ (Nat.sqrt_up n)). f_equal.
  apply Zceil_eq. rewrite <- INR_IZR_INZ.
  destruct n as [| n].
  - simpl. rewrite sqrt_0. lra.
  - assert (Hpos : (0 < S n)%nat) by lia.
    destruct (Nat.sqrt_up_spec (S n) Hpos) as [Hlo Hhi].
    set (s := Nat.sqrt_up (S n)) in *.
    assert (Hs : (1 <= s)%nat).
    { destruct s; [simpl in Hhi; lia | lia]. }
    split.
    + (* s - 1 < sqrt n *)
      replace (INR s - 1) with (INR (Nat.pred s))
        by (rewrite <- Nat.sub_1_r, minus_INR by exact Hs; simpl; lra).
      rewrite <- (sqrt_square (INR (Nat.pred s))) by apply pos_INR.
      apply sqrt_lt_1_alt. split.
      * apply Rmult_le_pos; apply pos_INR.
      * rewrite <- mult_INR. apply lt_INR. exact Hlo.
    + (* sqrt n <= s *)
      rewrite <- (sqrt_square (INR s)) by apply pos_INR.
      apply sqrt_le_1_alt. rewrite <- mult_INR. apply le_INR. exact Hhi.
Qed.

Lemma INR_div_mod (i s : nat) :
  (0 < s)%nat -> INR i / INR s = INR (i / s) + INR (i mod s) / INR s.
Proof.
  intros Hs.
  assert (Hs' : INR s <> 0) by (apply not_0_INR; lia).
  rewrite (Nat.div_mod_eq i s) at 1.
  rewrite plus_INR, mult_INR. field. exact Hs'.
Qed.

Lemma frac_bounds (r s : nat) : (r < s)%nat -> 0 <= INR r / INR s < 1.
Proof.
  intros H.
  assert (Hs : 0 < INR s) by (apply lt_0_INR; lia).
  assert (Hr : 0 <= INR r) by apply pos_INR.
  assert (Hrs : INR r < INR s) by (apply lt_INR; exact H).
  split.
  - apply Rmult_le_pos; [exact Hr | left; apply Rinv_0_lt_compat, Hs].
  - apply (Rmult_lt_reg_r (INR s)); [exact Hs |].
    unfold Rdiv. rewrite Rmult_assoc, Rinv_l by lra. lra.
Qed.

Lemma floor_div_nat (i s : nat) :
  (0 < s)%nat -> Math_floor (INR i / INR s) = INR (i / s).
Proof.
  intros Hs. unfold Math_floor. rewrite (INR_IZR_INZ (i / s)). f_equal.
  apply Zfloor_eq. rewrite <- INR_IZR_INZ, INR_div_mod by exact Hs.
  pose proof (frac_bounds (i mod s) s (Nat.mod_upper_bound i s ltac:(lia))).
  lra.
Qed.

Lemma rem_nat (i s : nat) :
  (0 < s)%nat -> js_rem (INR i) (INR s) = INR (i mod s).
Proof.
  intros Hs. unfold js_rem.
  assert (Hq : 0 <= INR i / INR s).
  { apply Rmult_le_pos; [apply pos_INR |].
    left. apply Rinv_0_lt_compat, lt_0_INR. exact Hs. }
  destruct (Rlt_dec (INR i / INR s) 0) as [L | _]; [lra |].
  rewrite floor_div_nat by exact Hs.
  rewrite (Nat.div_mod_eq i s) at 1. rewrite plus_INR, mult_INR. ring.
Qed.

Lemma sqrt_up_pos (n : nat) : (0 < n)%nat -> (0 < Nat.sqrt_up n)%nat.
Proof.
  intros Hn. destruct (Nat.sqrt_up_spec n Hn) as [_ Hhi].
  destruct (Nat.sqrt_up n); [simpl in Hhi; lia | lia].
Qed.

(** The offsets that the code computes with [Math.ceil], [Math.sqrt],
    [Math.floor] and [%] are those of the integer grid. *)
Lemma formationOffsets_grid (n : nat) :
  formationOffsets n = map (grid_offset n) (seq 0 n).
Proof.
  unfold formationOffsets. apply map_ext_in. intros i Hi.
  apply in_seq in Hi.
  assert (Hs : (0 < Nat.sqrt_up n)%nat) by (apply sqrt_up_pos; lia).
  unfold grid_offset. rewrite ceil_sqrt_nat.
  rewrite floor_div_nat, rem_nat by exact Hs. reflexivity.
Qed.

Lemma nth_formationOffsets (n i : nat) :
  (i < n)%nat -> nth i (formationOffsets n) zero3 = grid_offset n i.
Proof.
  intros Hi. rewrite formationOffsets_grid.
  rewrite (nth_indep _ zero3 (grid_offset n 0)) by (rewrite length_map, length_seq; exact Hi).
  rewrite map_nth, seq_nth by exact Hi. reflexivity.
Qed.

Lemma grid_offset_inj (n i j : nat) :
  (0 < n)%nat -> grid_offset n i = grid_offset n j -> i = j.
Proof.
  intros Hn E. pose proof (sqrt_up_pos n Hn) as Hs.
  unfold grid_offset, spacing in E. injection E as Ex Ez.
  assert (Em : INR (i mod Nat.sqrt_up n) = INR (j mod Nat.sqrt_up n)) by lra.
  assert (Ed : INR (i / Nat.sqrt_up n) = INR (j / Nat.sqrt_up n)) by lra.
  apply INR_eq in Em. apply INR_eq in Ed.
  rewrite (Nat.div_mod_eq i (Nat.sqrt_up n)), (Nat.div_mod_eq j (Nat.sqrt_up n)).
  rewrite Em, Ed. reflexivity.
Qed.

Lemma v_add_cancel (p a b : Vector3) : v_add p a = v_add p b -> a = b.
Proof.
  destruct a, b. unfold v_add; simpl. intros E. injection E as E1 E2 E3.
  f_equal; lra.
Qed.

(** The move-command loop, seen from the list of selected units. *)
Lemma assignTargets_selected (p : Vector3) (offs : list Vector3)
    (us : list Unit) (k i : nat) (u : Unit) :
  List.filter selected us !! i = Some u ->
  List.filter selected (assignTargets p offs k us) !! i
  = Some (command u (v_add p (nth (k + i) offs zero3))).
Proof.
  revert k i. induction us as [| w us IH]; intros k i H; simpl in *.
  - discriminate.
  - destruct (selected w) eqn:Ew; simpl.
    + rewrite Ew. destruct i as [| i]; simpl in *.
      * injection H as ->. rewrite Nat.add_0_r. reflexivity.
      * rewrite (IH (S k) i H). do 4 f_equal. lia.
    + rewrite Ew. apply IH, H.
Qed.

Lemma assignTargets_selected_length (p : Vector3) (offs : list Vector3)
    (us : list Unit) (k : nat) :
  length (List.filter selected (assignTargets p offs k us))
  = length (List.filter selected us).
Proof.
  revert k. induction us as [| w us IH]; intros k; simpl; [reflexivity |].
  destruct (selected w) eqn:Ew; simpl; rewrite Ew; simpl; rewrite IH; reflexivity.
Qed.

Lemma assignTargets_unselected (p : Vector3) (offs : list Vector3)
    (us : list Unit) (k : nat) :
  List.filter (fun u => negb (selected u)) (assignTargets p offs k us)
  = List.filter (fun u => negb (selected u)) us.
Proof.
  revert k. induction us as [| w us IH]; intros k; simpl; [reflexivity |].
  destruct (selected w) eqn:Ew; simpl; rewrite Ew; simpl; rewrite IH; reflexivity.
Qed.

Lemma filter_lookup_length {A : Type} (f : A -> bool) (l : list A) (i : nat) (a : A) :
  List.filter f l !! i = Some a -> (i < length (List.filter f l))%nat.
Proof. intros H. apply lookup_lt_is_Some. eauto. Qed.

Lemma onContextMenu_hit pickGround (e : MouseEvent) (g : Game) (p : Vector3) :
  pickGround (clientX e) (clientY e) = Some p ->
  (1 <= length (List.filter selected (units g)))%nat ->
  onContextMenu pickGround e g
  = emit (spawnOrderMarker p
            (with_units g
               (assignTargets p
                  (formationOffsets (length (List.filter selected (units g))))
                  0 (units g))))
         (CommandMove (x p) (z p) (length (List.filter selected (units g)))).
Proof.
  intros Hp Hn. unfold onContextMenu. rewrite Hp.
  destruct (length (List.filter selected (units g))) as [| n] eqn:E; [lia |].
  reflexivity.
Qed.

(** C8.  A move command on the ground point [p] with [N >= 1] selected
    units: the [i]-th selected unit gets the target [p + grid_offset N i],
    the offset of cell [(i mod side, i / side)] in a square grid of side
    [ceil (sqrt N)] and spacing 1.4; the targets of different units differ;
    units that are not selected are left alone; and exactly one
    [command:move] event is emitted, carrying [p]'s x and z and [N]. *)
Theorem move_command_assigns_distinct_formation_targets :
  forall pickGround (e : MouseEvent) (g : Game) (p : Vector3),
    pickGround (clientX e) (clientY e) = Some p ->
    let sel := List.filter selected (units g) in
    let N := length sel in
    (1 <= N)%nat ->
    let g' := onContextMenu pickGround e g in
    let sel' := List.filter selected (units g') in
    INR (Nat.sqrt_up N) = Math_ceil (sqrt (INR N))
    /\ length sel' = N
    /\ (forall (i : nat) (u : Unit),
           sel !! i = Some u ->
           sel' !! i = Some (command u (v_add p (grid_offset N i))))
    /\ (forall (i j : nat) (ui uj : Unit),
           sel' !! i = Some ui -> sel' !! j = Some uj -> i <> j ->
           target ui <> target uj)
    /\ List.filter (fun u => negb (selected u)) (units g')
       = List.filter (fun u => negb (selected u)) (units g)
    /\ events g' = events g ++ [CommandMove (x p) (z p) N].
Proof.
  intros pickGround e g p Hp sel N HN g' sel'.
  assert (Eg : units g'
               = assignTargets p (formationOffsets N) 0 (units g)).
  { subst g'. rewrite (onContextMenu_hit _ _ _ p) by assumption. reflexivity. }
  assert (Hsel : forall i u, sel !! i = Some u ->
                   sel' !! i = Some (command u (v_add p (grid_offset N i)))).
  { intros i u Hi. subst sel'. rewrite Eg.
    rewrite (assignTargets_selected _ _ _ 0 i u Hi). simpl.
    rewrite nth_formationOffsets; [reflexivity |].
    apply (filter_lookup_length _ _ _ _ Hi). }
  assert (Hlen : length sel' = N).
  { subst sel'. rewrite Eg. apply assignTargets_selected_length. }
  split; [symmetry; apply ceil_sqrt_nat |].
  split; [exact Hlen |].
  split; [exact Hsel |].
  split; [| split].
  - intros i j ui uj Hi Hj Hij Et.
    assert (Li : (i < N)%nat) by (rewrite <- Hlen; apply lookup_lt_is_Some; eauto).
    assert (Lj : (j < N)%nat) by (rewrite <- Hlen; apply lookup_lt_is_Some; eauto).
    destruct (lookup_lt_is_Some_2 sel i Li) as (vi & Hvi).
    destruct (lookup_lt_is_Some_2 sel j Lj) as (vj & Hvj).
    rewrite (Hsel i vi Hvi) in Hi. rewrite (Hsel j vj Hvj) in Hj.
    injection Hi as <-. injection Hj as <-. cbn [command target] in Et.
    assert (E2 : v_add p (grid_offset N i) = v_add p (grid_offset N j))
      by congruence.
    apply v_add_cancel, grid_offset_inj in E2; [| lia].
    contradiction.
  - rewrite Eg. apply assignTargets_unselected.
  - subst g'. rewrite (onContextMenu_hit _ _ _ p) by assumption. reflexivity.
Qed.

End Formation.

(** ** Movement and arrival events *)

Section Movement.
Import SpaceRunner Notions.
Local Open Scope R_scope.

Lemma seek_no_target (dt : R) (u : Unit) :
  target u = None -> seek dt u = (u, []).
Proof. intros H. unfold seek. rewrite H. reflexivity. Qed.

Lemma seek_arrive (dt : R) (u : Unit) (tg : Vector3) :
  target u = Some tg -> remaining u tg < 0.12 ->
  target (fst (seek dt u)) = None
  /\ hadTarget (fst (seek dt u)) = false
  /\ id (fst (seek dt u)) = id u
  /\ snd (seek dt u)
     = if hadTarget u
       then [UnitArrived (id u) (x (position u)) (z (position u))]
       else [].
Proof.
  intros Ht Hd. unfold seek. rewrite Ht.
  apply Rltb_true_iff in Hd. unfold remaining in Hd. rewrite Hd.
  destruct (hadTarget u) eqn:E; simpl; auto.
Qed.

Lemma seek_move (dt : R) (u : Unit) (tg : Vector3) :
  target u = Some tg -> ~ remaining u tg < 0.12 ->
  target (fst (seek dt u)) = Some tg
  /\ hadTarget (fst (seek dt u)) = hadTarget u
  /\ id (fst (seek dt u)) = id u
  /\ snd (seek dt u) = [].
Proof.
  intros Ht Hd. unfold seek. rewrite Ht.
  assert (E : Rltb (v_length (setY (v_sub tg (position u)) 0)) 0.12 = false).
  { destruct (Rltb _ _) eqn:E; [| reflexivity].
    apply Rltb_true_iff in E. contradiction. }
  rewrite E. simpl. auto.
Qed.

Lemma seek_flagged (dt : R) (u : Unit) : flagged u -> flagged (fst (seek dt u)).
Proof.
  intros F. destruct (target u) as [tg |] eqn:Ht.
  - destruct (Rlt_dec (remaining u tg) 0.12) as [Hd | Hd].
    + destruct (seek_arrive dt u tg Ht Hd) as (H1 & _). intros H. congruence.
    + destruct (seek_move dt u tg Ht Hd) as (H1 & H2 & _). intros _.
      rewrite H2. apply F. congruence.
  - rewrite seek_no_target by exact Ht. exact F.
Qed.

Lemma seek_events (dt : R) (u : Unit) (ev : event) :
  In ev (snd (seek dt u)) ->
  target u <> None /\ hadTarget u = true
  /\ ev = UnitArrived (id u) (x (position u)) (z (position u)).
Proof.
  intros H. destruct (target u) as [tg |] eqn:Ht.
  - destruct (Rlt_dec (remaining u tg) 0.12) as [Hd | Hd].
    + destruct (seek_arrive dt u tg Ht Hd) as (_ & _ & _ & E). rewrite E in H.
      destruct (hadTarget u); simpl in H; [| contradiction].
      destruct H as [<- | []]. repeat split; congruence.
    + destruct (seek_move dt u tg Ht Hd) as (_ & _ & _ & E). rewrite E in H.
      contradiction.
  - rewrite seek_no_target in H by exact Ht. contradiction.
Qed.

Lemma unit_step_eq (dt : R) (us : list Unit) (evs : list event) (i : nat)
    (u : Unit) :
  us !! i = Some u ->
  unit_step dt (us, evs) i
  = (<[i := fst (seek dt (pushed dt us i u))]> us,
     evs ++ snd (seek dt (pushed dt us i u))).
Proof.
  intros H. unfold unit_step. rewrite H. fold (pushed dt us i u).
  destruct (seek dt (pushed dt us i u)); reflexivity.
Qed.

(** The loop of [updateUnits] up to index [k]: the units from [k] on are
    still untouched, and every event so far is an arrival of a unit that
    had a target. *)
Lemma loop_invariant (dt : R) (us : list Unit) (k : nat) :
  (k <= length us)%nat ->
  let st := fold_left (unit_step dt) (seq 0 k) (us, []) in
  length (fst st) = length us
  /\ (forall j, (k <= j)%nat -> fst st !! j = us !! j)
  /\ (Forall flagged us -> Forall flagged (fst st))
  /\ Forall (arrival_of us) (snd st).
Proof.
  induction k as [| k IH]; intros Hk.
  - simpl. repeat split; auto.
  - rewrite seq_S, fold_left_app. simpl fold_left at 1.
    destruct (IH ltac:(lia)) as (Hlen & Hsame & Hflag & Hev).
    destruct (fold_left (unit_step dt) (seq 0 k) (us, [])) as [cur evs].
    simpl in Hlen, Hsame, Hflag, Hev.
    destruct (lookup_lt_is_Some_2 us k ltac:(lia)) as (u & Hu).
    assert (Hcur : cur !! k = Some u) by (rewrite Hsame by lia; exact Hu).
    rewrite (unit_step_eq dt cur evs k u Hcur). cbn [fst snd].
    split; [rewrite length_insert; exact Hlen |].
    split; [intros j Hj; rewrite list_lookup_insert_ne by lia; apply Hsame; lia |].
    split.
    + intros F. apply Forall_insert; [apply Hflag, F |].
      apply seek_flagged. intros Ht. apply (Forall_lookup_1 _ _ _ _ F Hu). exact Ht.
    + apply Forall_app. split; [exact Hev |].
      apply Forall_forall. intros ev Hin. apply list_elem_of_In in Hin.
      apply seek_events in Hin. destruct Hin as (Ht & _ & ->).
      exists k, u. do 2 eexists. repeat split; [exact Hu | exact Ht].
Qed.

Lemma updateUnits_events (dt : R) (g : Game) :
  exists out : list event,
    events (updateUnits dt g) = events g ++ out
    /\ Forall (arrival_of (units g)) out
    /\ (Forall flagged (units g) -> Forall flagged (units (updateUnits dt g))).
Proof.
  unfold updateUnits, updateUnits_loop.
  destruct (loop_invariant dt (units g) (length (units g)) ltac:(lia))
    as (_ & _ & Hflag & Hev).
  destruct (fold_left (unit_step dt) (seq 0 (length (units g))) (units g, []))
    as [us out].
  exists out. simpl. auto.
Qed.

End Movement.

Section Reachability.
Import SpaceRunner Notions.
Local Open Scope R_scope.

Lemma Forall_map_flagged (f : Unit -> Unit) (us : list Unit) :
  (forall u, flagged u -> flagged (f u)) ->
  Forall flagged us -> Forall flagged (map f us).
Proof.
  intros Hf H. induction H; simpl; constructor; auto.
Qed.

Lemma deselect_flagged (u : Unit) : flagged u -> flagged (deselect u).
Proof. exact (fun F => F). Qed.

Lemma chosen_flagged (filter : Unit -> bool) (u : Unit) :
  flagged u -> flagged (chosen filter u).
Proof. unfold chosen. destruct (filter u); exact (fun F => F). Qed.

Lemma applySelectionFilter_units_gen (filter : Unit -> bool) (additive : bool)
    (g : Game) :
  units (applySelectionFilter filter additive g)
  = map (chosen filter)
        (if additive then units g else map deselect (units g)).
Proof.
  unfold applySelectionFilter.
  destruct additive; cbn [clearSelection emit with_units units];
    rewrite select_loop; reflexivity.
Qed.

Lemma applySelectionFilter_flagged (filter : Unit -> bool) (additive : bool)
    (g : Game) :
  Forall flagged (units g) ->
  Forall flagged (units (applySelectionFilter filter additive g)).
Proof.
  intros F. rewrite applySelectionFilter_units_gen.
  apply Forall_map_flagged; [apply chosen_flagged |].
  destruct additive; [exact F |].
  apply Forall_map_flagged; [apply deselect_flagged | exact F].
Qed.

Lemma clearSelection_flagged (g : Game) :
  Forall flagged (units g) -> Forall flagged (units (clearSelection g)).
Proof.
  intros F. cbn [clearSelection emit with_units units].
  apply Forall_map_flagged; [apply deselect_flagged | exact F].
Qed.

Lemma assignTargets_flagged (p : Vector3) (offs : list Vector3) (k : nat)
    (us : list Unit) :
  Forall flagged us -> Forall flagged (assignTargets p offs k us).
Proof.
  intros F. revert k. induction F as [| u us Fu _ IH]; intros k; simpl.
  - constructor.
  - destruct (selected u); constructor; auto.
    intros _. reflexivity.
Qed.

(** Every unit that a move command writes to has both the target and the
    flag afterwards. *)
Lemma assignTargets_commanded (p : Vector3) (offs : list Vector3) (k : nat)
    (us : list Unit) (u : Unit) :
  In u (assignTargets p offs k us) -> selected u = true ->
  target u <> None /\ hadTarget u = true.
Proof.
  revert k. induction us as [| w us IH]; intros k Hin Hs; simpl in Hin.
  - contradiction.
  - destruct (selected w) eqn:Ew; destruct Hin as [E | Hin]; eauto;
      subst u; first [congruence | simpl; split; [discriminate | reflexivity]].
Qed.

Lemma onContextMenu_commanded pickGround (e : MouseEvent) (g : Game)
    (p : Vector3) (u : Unit) :
  pickGround (clientX e) (clientY e) = Some p ->
  In u (units (onContextMenu pickGround e g)) -> selected u = true ->
  target u <> None /\ hadTarget u = true.
Proof.
  intros Hp Hin Hs. unfold onContextMenu in Hin. rewrite Hp in Hin.
  destruct (length (List.filter selected (units g)) =? 0)%nat eqn:E.
  - apply Nat.eqb_eq in E.
    assert (Hf : In u (List.filter selected (units g)))
      by (apply filter_In; split; assumption).
    destruct (List.filter selected (units g)); [contradiction | discriminate].
  - cbn [emit spawnOrderMarker with_units units] in Hin.
    eapply assignTargets_commanded; eassumption.
Qed.

Lemma roster_flagged : Forall flagged roster.
Proof.
  unfold roster. apply Forall_forall. intros u Hin.
  apply list_elem_of_In, in_flat_map in Hin. destruct Hin as (r & _ & Hin).
  apply in_map_iff in Hin. destruct Hin as (c & <- & _).
  intros H. contradiction H. reflexivity.
Qed.

Lemma reachable_flagged (g : Game) : reachable g -> Forall flagged (units g).
Proof.
  induction 1 as [| g _ IH | g _ IH | dt g _ IH | pg e g _ IH | pg e g _ IH
                  | pg pu ps e g _ IH | pu e g _ IH | pg e g _ IH | e g _ IH].
  - exact roster_flagged.
  - exact IH.
  - exact IH.
  - unfold tick. destruct (running g); [| exact IH].
    cbn [updateMarkers units].
    destruct (updateUnits_events dt g) as (_ & _ & _ & Hf). apply Hf, IH.
  - unfold onMouseDown. destruct (button e =? 0)%nat; exact IH.
  - exact IH.
  - unfold onMouseUp. destruct (button e =? 0)%nat; [| exact IH].
    cbn [end_drag units].
    destruct (negb _).
    + destruct (pu _ _ _).
      * apply applySelectionFilter_flagged. exact IH.
      * destruct (negb (shiftKey e)); [apply clearSelection_flagged |]; exact IH.
    + cbn [hide_selection dragStartGround].
      destruct (dragStartGround g), (pg (clientX e) (clientY e));
        apply applySelectionFilter_flagged; exact IH.
  - unfold onDblClick. destruct (pu _ _ _); [| exact IH].
    destruct (find _ _); [| exact IH].
    apply applySelectionFilter_flagged. exact IH.
  - unfold onContextMenu. destruct (pg _ _); [| exact IH].
    destruct (length _ =? 0)%nat; [exact IH |].
    cbn [emit spawnOrderMarker with_units units].
    apply assignTargets_flagged. exact IH.
  - unfold onKeyDown. destruct (_ && _); [| exact IH].
    apply applySelectionFilter_flagged. exact IH.
Qed.

(** C5, as the code has it.  When a unit's turn comes in [updateUnits] and
    its target is within 0.12 of it, the target is cleared and, the
    [hadTarget] flag being set, [unit:arrived] is emitted with the unit's
    id.  The flag is set by the move command together with the target, in
    every game the handlers can produce, so the event is emitted also when
    the target is within reach on the first tick after the command.  A unit
    without a target emits nothing, and a whole tick emits nothing but
    arrivals of units that had a target. *)
Theorem arrival_event_whenever_a_commanded_target_is_reached :
  (forall (g : Game), reachable g -> Forall flagged (units g))
  /\ (forall pickGround (e : MouseEvent) (g : Game) (p : Vector3) (u : Unit),
         pickGround (clientX e) (clientY e) = Some p ->
         In u (units (onContextMenu pickGround e g)) -> selected u = true ->
         target u <> None /\ hadTarget u = true)
  /\ (forall (dt : R) (us : list Unit) (evs : list event) (i : nat) (u : Unit),
         Forall flagged us -> us !! i = Some u ->
         let u1 := pushed dt us i u in
         let st := unit_step dt (us, evs) i in
         match target u with
         | None => snd st = evs
         | Some tg =>
             if Rlt_dec (remaining u1 tg) 0.12
             then snd st = evs ++ [UnitArrived (id u) (x (position u1))
                                               (z (position u1))]
                  /\ exists u2 : Unit,
                       fst st !! i = Some u2
                       /\ target u2 = None /\ hadTarget u2 = false
             else snd st = evs
         end)
  /\ (forall (dt : R) (g : Game),
         exists out : list event,
           events (updateUnits dt g) = events g ++ out
           /\ Forall (arrival_of (units g)) out).
Proof.
  split; [exact reachable_flagged |].
  split; [exact onContextMenu_commanded |].
  split.
  - intros dt us evs i u F Hu u1 st. subst st.
    rewrite (unit_step_eq dt us evs i u Hu). fold u1. cbn [fst snd].
    assert (Ht1 : target u1 = target u) by reflexivity.
    assert (Hh1 : hadTarget u1 = hadTarget u) by reflexivity.
    destruct (target u) as [tg |] eqn:Ht.
    + destruct (Rlt_dec (remaining u1 tg) 0.12) as [Hd | Hd].
      * destruct (seek_arrive dt u1 tg Ht1 Hd) as (H1 & H2 & _ & H4).
        rewrite H4, Hh1.
        rewrite (Forall_lookup_1 _ _ _ _ F Hu) by congruence.
        split; [reflexivity |].
        eexists. split; [| split; [exact H1 | exact H2]].
        apply list_lookup_insert_eq. apply lookup_lt_is_Some. eauto.
      * destruct (seek_move dt u1 tg Ht1 Hd) as (_ & _ & _ & H4).
        rewrite H4. apply app_nil_r.
    + rewrite seek_no_target by exact Ht1. apply app_nil_r.
  - intros dt g. destruct (updateUnits_events dt g) as (out & H1 & H2 & _).
    exists out. auto.
Qed.

End Reachability.

(** ** A tick in which nobody moves *)

Section StillTick.
Import SpaceRunner Notions.
Local Open Scope R_scope.

Lemma sep_loop_far (i : nat) (u : Unit) (l : list Unit) (sep : Vector3) (k : nat) :
  (forall j v, l !! j = Some v -> (k + j)%nat <> i ->
               sepRadius <= distanceTo (position u) (position v)) ->
  fold_left (sep_step i u) l (sep, k) = (sep, (k + length l)%nat).
Proof.
  revert sep k. induction l as [| v l IH]; intros sep k H.
  - simpl. rewrite Nat.add_0_r. reflexivity.
  - cbn [fold_left].
    assert (E : sep_step i u (sep, k) v = (sep, S k)).
    { unfold sep_step. destruct (i =? k)%nat eqn:Eik; [reflexivity |].
      apply Nat.eqb_neq in Eik.
      assert (Hf : sepRadius <= distanceTo (position u) (position v)).
      { apply (H 0%nat v eq_refl). lia. }
      assert (E2 : Rltb (distanceTo (position u) (position v)) sepRadius = false).
      { destruct (Rltb _ _) eqn:E2; [| reflexivity].
        apply Rltb_true_iff in E2. lra. }
      rewrite E2, andb_false_r. reflexivity. }
    rewrite E, IH.
    + f_equal. simpl. lia.
    + intros j w Hj Hne. apply (H (S j) w Hj). lia.
Qed.

Lemma separation_far (us : list Unit) (i : nat) (u : Unit) :
  (forall j q, map position us !! j = Some q -> j <> i ->
               sepRadius <= distanceTo (position u) q) ->
  separation us i u = zero3.
Proof.
  intros H. unfold separation. rewrite sep_loop_far; [reflexivity |].
  intros j v Hj Hne. apply (H j); [| exact Hne].
  rewrite lookup_map, Hj. reflexivity.
Qed.

Lemma pushed_nowhere (dt : R) (u : Unit) :
  with_position u (addScaledVector (position u) zero3 dt) = u.
Proof.
  destruct u as [i [px py pz] m r t s sel h].
  unfold with_position, addScaledVector; simpl.
  do 2 f_equal; ring.
Qed.

Lemma still_loop (dt : R) (us : list Unit) (k : nat) :
  spread (map position us) ->
  (forall u, In u us -> position (settle dt u) = position u) ->
  (k <= length us)%nat ->
  fold_left (unit_step dt) (seq 0 k) (us, [])
  = (map (settle dt) (take k us) ++ drop k us,
     flat_map (reports dt) (take k us)).
Proof.
  intros Hspread Hstill. induction k as [| k IH]; intros Hk.
  - simpl. rewrite drop_0. reflexivity.
  - rewrite seq_S, fold_left_app, IH by lia. cbn [fold_left Nat.add].
    destruct (lookup_lt_is_Some_2 us k ltac:(lia)) as (u & Hu).
    set (cur := map (settle dt) (take k us) ++ drop k us).
    assert (Hlen : length (map (settle dt) (take k us)) = k)
      by (rewrite length_map, length_take; lia).
    assert (Hcur : cur !! k = Some u).
    { unfold cur. rewrite lookup_app_r by lia.
      rewrite Hlen, Nat.sub_diag, lookup_drop, Nat.add_0_r. exact Hu. }
    assert (Hpos : map position cur = map position us).
    { unfold cur. rewrite map_app, map_map.
      rewrite (map_ext_in (fun x => position (settle dt x)) position).
      - rewrite <- map_app, take_drop. reflexivity.
      - intros a Ha. apply Hstill. apply list_elem_of_In.
        apply (subseteq_take k us). apply list_elem_of_In. exact Ha. }
    assert (Hsep : separation cur k u = zero3).
    { apply separation_far. intros j q Hj Hne. rewrite Hpos in Hj.
      apply (Hspread k j (position u) q); [| exact Hj | lia].
      rewrite lookup_map, Hu. reflexivity. }
    rewrite (unit_step_eq dt cur _ k u Hcur).
    unfold pushed. rewrite Hsep, pushed_nowhere.
    fold (settle dt u) (reports dt u).
    f_equal.
    + unfold cur. rewrite insert_app_r_alt by lia.
      rewrite Hlen, Nat.sub_diag.
      rewrite (drop_S us u k Hu). cbn [list_insert insert].
      rewrite (take_S_r us k u Hu), map_app, <- app_assoc. reflexivity.
    + rewrite (take_S_r us k u Hu), flat_map_app. simpl.
      rewrite app_nil_r. reflexivity.
Qed.

Lemma still_tick (dt : R) (us : list Unit) :
  spread (map position us) ->
  (forall u, In u us -> position (settle dt u) = position u) ->
  updateUnits_loop dt us = (map (settle dt) us, flat_map (reports dt) us).
Proof.
  intros H1 H2. unfold updateUnits_loop.
  rewrite (still_loop dt us (length us) H1 H2) by lia.
  rewrite take_ge, drop_ge by lia. rewrite app_nil_r. reflexivity.
Qed.

End StillTick.

(** ** The scenario: a target within reach on the tick after the command *)

Section Scenario.
Import SpaceRunner Notions.
Local Open Scope R_scope.

Lemma roster_eq :
  roster
  = [spawnUnit 1 (-8) (-6); spawnUnit 2 (-6) (-6); spawnUnit 3 (-4) (-6);
     spawnUnit 4 (-2) (-6); spawnUnit 5 (-8) (-4); spawnUnit 6 (-6) (-4);
     spawnUnit 7 (-4) (-4); spawnUnit 8 (-2) (-4); spawnUnit 9 (-8) (-2);
     spawnUnit 10 (-6) (-2); spawnUnit 11 (-4) (-2); spawnUnit 12 (-2) (-2)].
Proof.
  unfold roster. cbn [flat_map seq map app Nat.add Nat.mul INR].
  repeat (f_equal; try lra).
Qed.

Lemma units_init : units init = roster.
Proof. reflexivity. Qed.

Lemma events_init : events init = [].
Proof. reflexivity. Qed.

Lemma release_units (filter : Unit -> bool) (g : Game) :
  units (end_drag (applySelectionFilter filter false (hide_selection g)))
  = map (chosen filter) (map deselect (units g)).
Proof.
  change (units (end_drag (applySelectionFilter filter false (hide_selection g))))
    with (units (applySelectionFilter filter false (hide_selection g))).
  rewrite applySelectionFilter_units. reflexivity.
Qed.

Lemma release_events (filter : Unit -> bool) (g : Game) :
  events (end_drag (applySelectionFilter filter false (hide_selection g)))
  = events g ++ [SelectionChanged 0;
                 SelectionChanged
                   (length (List.filter filter (map deselect (units g))))].
Proof.
  change (events (end_drag (applySelectionFilter filter false (hide_selection g))))
    with (events (applySelectionFilter filter false (hide_selection g))).
  rewrite applySelectionFilter_events. reflexivity.
Qed.

Lemma scenario_selected_eq :
  scenario_selected
  = end_drag (applySelectionFilter (fun u => (id u =? 1)%nat) false
                                   (hide_selection init)).
Proof.
  unfold scenario_selected.
  apply (mouseUp_click scenario_pickGround scenario_pickUnit fixture_project
                       (mkMouse 0 0 0 false) init 1%nat).
  - reflexivity.
  - cbn [clientX clientY dragStart init fst snd]. unfold Math_hypot.
    replace ((0 - 0) * (0 - 0) + (0 - 0) * (0 - 0)) with 0 by ring.
    rewrite sqrt_0. lra.
  - reflexivity.
Qed.

Lemma scenario_selected_units :
  units scenario_selected = select (spawnUnit 1 (-8) (-6)) :: tl roster.
Proof.
  rewrite scenario_selected_eq, release_units, units_init, roster_eq.
  reflexivity.
Qed.

Lemma scenario_selected_events :
  events scenario_selected = [SelectionChanged 0; SelectionChanged 1].
Proof.
  rewrite scenario_selected_eq, release_events, units_init, events_init, roster_eq.
  reflexivity.
Qed.

Lemma contextMenu_units pickGround (e : MouseEvent) (g : Game) (p : Vector3) :
  pickGround (clientX e) (clientY e) = Some p ->
  (1 <= length (List.filter selected (units g)))%nat ->
  units (onContextMenu pickGround e g)
  = assignTargets p (formationOffsets (length (List.filter selected (units g))))
                  0 (units g).
Proof. intros Hp Hn. rewrite (onContextMenu_hit _ _ _ p) by assumption. reflexivity. Qed.

Lemma contextMenu_events pickGround (e : MouseEvent) (g : Game) (p : Vector3) :
  pickGround (clientX e) (clientY e) = Some p ->
  (1 <= length (List.filter selected (units g)))%nat ->
  events (onContextMenu pickGround e g)
  = events g ++ [CommandMove (x p) (z p)
                             (length (List.filter selected (units g)))].
Proof. intros Hp Hn. rewrite (onContextMenu_hit _ _ _ p) by assumption. reflexivity. Qed.

Lemma scenario_one_selected :
  length (List.filter selected (units scenario_selected)) = 1%nat.
Proof. rewrite scenario_selected_units, roster_eq. reflexivity. Qed.

Lemma scenario_commanded_units :
  units scenario_commanded
  = command (select (spawnUnit 1 (-8) (-6))) scenario_target :: tl roster.
Proof.
  unfold scenario_commanded.
  rewrite (contextMenu_units scenario_pickGround _ _ (mkV (-8) 0 (-6)) eq_refl)
    by (rewrite scenario_one_selected; lia).
  rewrite scenario_one_selected, scenario_selected_units, roster_eq.
  reflexivity.
Qed.

Lemma scenario_commanded_events :
  events scenario_commanded
  = [SelectionChanged 0; SelectionChanged 1; CommandMove (-8) (-6) 1].
Proof.
  unfold scenario_commanded.
  rewrite (contextMenu_events scenario_pickGround _ _ (mkV (-8) 0 (-6)) eq_refl)
    by (rewrite scenario_one_selected; lia).
  rewrite scenario_one_selected, scenario_selected_events.
  reflexivity.
Qed.

Lemma scenario_target_eq : scenario_target = mkV (-8) 0 (-6).
Proof.
  unfold scenario_target. rewrite nth_formationOffsets by lia.
  unfold grid_offset, v_add, spacing.
  change (Nat.sqrt_up 1) with 1%nat. cbn [Nat.modulo Nat.div INR x y z].
  simpl. f_equal; lra.
Qed.

Lemma dist_ge (c : R) (p q : Vector3) :
  0 <= c ->
  c * c <= (x p - x q) * (x p - x q) + (y p - y q) * (y p - y q)
           + (z p - z q) * (z p - z q) ->
  c <= distanceTo p q.
Proof.
  intros Hc H. unfold distanceTo.
  rewrite <- (sqrt_square c) at 1 by exact Hc.
  apply sqrt_le_1_alt. exact H.
Qed.

Ltac index_cases i H tac :=
  destruct i as [| i];
  [ cbn in H; injection H as <-; tac
  | cbn in H; try discriminate H; index_cases i H tac ].

Lemma roster_spread : spread (map position roster).
Proof.
  rewrite roster_eq. intros i j p q Hi Hj Hne.
  cbn [map position spawnUnit] in Hi, Hj.
  index_cases i Hi
    ltac:(index_cases j Hj
            ltac:(first [congruence
                        | apply dist_ge; unfold sepRadius; cbn [x y z]; lra])).
Qed.

Lemma reports_idle (dt : R) (u : Unit) : target u = None -> reports dt u = [].
Proof. intros H. unfold reports. rewrite seek_no_target by exact H. reflexivity. Qed.

Lemma settle_idle (dt : R) (u : Unit) : target u = None -> settle dt u = u.
Proof. intros H. unfold settle. rewrite seek_no_target by exact H. reflexivity. Qed.

Lemma settle_arrive (dt : R) (u : Unit) (tg : Vector3) :
  target u = Some tg -> remaining u tg < 0.12 ->
  position (settle dt u) = position u.
Proof.
  intros Ht Hd. unfold settle, seek. rewrite Ht.
  apply Rltb_true_iff in Hd. unfold remaining in Hd. rewrite Hd.
  destruct (hadTarget u); reflexivity.
Qed.

Lemma reports_all_idle (dt : R) (us : list Unit) :
  Forall (fun u => target u = None) us -> flat_map (reports dt) us = [].
Proof.
  induction 1 as [| u us Hu _ IH]; simpl; [reflexivity |].
  rewrite reports_idle by exact Hu. exact IH.
Qed.

Lemma roster_idle : Forall (fun u => target u = None) roster.
Proof. rewrite roster_eq. repeat constructor. Qed.

Lemma scenario_unit_in_reach : remaining scenario_unit (mkV (-8) 0 (-6)) < 0.12.
Proof.
  unfold remaining, v_length, setY, v_sub, scenario_unit. cbn [x y z position command select spawnUnit].
  replace ((-8 - -8) * (-8 - -8) + 0 * 0 + (-6 - -6) * (-6 - -6)) with 0 by ring.
  rewrite sqrt_0. lra.
Qed.

(** C5, the counter-example.  In the game as it starts, unit 1 is clicked
    and then ordered to the ground point it stands on.  Before the command
    it has no target and was never commanded; the command gives it a target
    within 0.12 of it; and the very next [updateUnits] emits [unit:arrived]
    for unit 1. *)
Lemma arrival_is_emitted_on_the_tick_of_assignment :
  (exists u : Unit,
      units scenario_selected !! 0%nat = Some u
      /\ id u = 1%nat /\ target u = None /\ hadTarget u = false)
  /\ (exists (u : Unit) (tg : Vector3),
         units scenario_commanded !! 0%nat = Some u
         /\ id u = 1%nat /\ target u = Some tg /\ remaining u tg < 0.12)
  /\ events (updateUnits 0.016 scenario_commanded)
     = events scenario_commanded ++ [UnitArrived 1 (-8) (-6)].
Proof.
  split; [| split].
  - rewrite scenario_selected_units. eexists. split; [reflexivity |].
    repeat split.
  - rewrite scenario_commanded_units, scenario_target_eq.
    exists scenario_unit, (mkV (-8) 0 (-6)).
    split; [reflexivity |]. repeat split. exact scenario_unit_in_reach.
  - assert (Hidle : Forall (fun u => target u = None) (tl roster)).
    { pose proof roster_idle as H. destruct roster; [constructor |].
      apply Forall_cons in H. tauto. }
    assert (Hloop : updateUnits_loop 0.016 (units scenario_commanded)
                    = (map (settle 0.016) (units scenario_commanded),
                       flat_map (reports 0.016) (units scenario_commanded))).
    { apply still_tick.
      - rewrite scenario_commanded_units.
        change (map position (command (select (spawnUnit 1 (-8) (-6))) scenario_target
                              :: tl roster))
          with (position (spawnUnit 1 (-8) (-6)) :: map position (tl roster)).
        pose proof roster_spread as H. rewrite roster_eq in H |- *. exact H.
      - rewrite scenario_commanded_units, scenario_target_eq.
        intros u [<- | Hin].
        + fold scenario_unit.
          apply (settle_arrive 0.016 scenario_unit (mkV (-8) 0 (-6)) eq_refl
                               scenario_unit_in_reach).
        + rewrite settle_idle; [reflexivity |].
          rewrite Forall_forall in Hidle. apply Hidle, list_elem_of_In, Hin. }
    unfold updateUnits. rewrite Hloop. cbn [events]. f_equal.
    rewrite scenario_commanded_units, scenario_target_eq. fold scenario_unit.
    cbn [flat_map]. rewrite (reports_all_idle _ _ Hidle), app_nil_r.
    unfold reports.
    destruct (seek_arrive 0.016 scenario_unit (mkV (-8) 0 (-6)) eq_refl
                          scenario_unit_in_reach) as (_ & _ & _ & ->).
    reflexivity.
Qed.
Lemma scenario_unit_not_pushed :
  pushed 0.016 (units scenario_commanded) 0 scenario_unit = scenario_unit.
Proof.
  unfold pushed. rewrite separation_far; [apply pushed_nowhere |].
  intros j q Hj Hne. rewrite scenario_commanded_units in Hj.
  change (map position (command (select (spawnUnit 1 (-8) (-6))) scenario_target
                        :: tl roster))
    with (position (spawnUnit 1 (-8) (-6)) :: map position (tl roster)) in Hj.
  pose proof roster_spread as H. rewrite roster_eq in H, Hj.
  apply (H 0%nat j (position scenario_unit) q); [reflexivity | exact Hj | lia].
Qed.

Lemma arrival_event_whenever_a_commanded_target_is_reached_witness :
  Forall flagged (units scenario_commanded)
  /\ snd (unit_step 0.016 (units scenario_commanded, []) 0)
     = [UnitArrived 1 (-8) (-6)]
  /\ exists out : list event,
       events (updateUnits 0.016 scenario_commanded)
       = events scenario_commanded ++ out
       /\ Forall (arrival_of (units scenario_commanded)) out.
Proof.
  destruct arrival_event_whenever_a_commanded_target_is_reached
    as (Hreach & _ & Hstep & Htick).
  assert (F : Forall flagged (units scenario_commanded))
    by (apply Hreach; apply reach_contextMenu, reach_mouseUp, reach_init).
  split; [exact F |]. split; [| apply Htick].
  assert (Hu : units scenario_commanded !! 0%nat = Some scenario_unit).
  { rewrite scenario_commanded_units, scenario_target_eq. reflexivity. }
  pose proof (Hstep 0.016 (units scenario_commanded) [] 0%nat scenario_unit F Hu)
    as H.
  cbv zeta in H. rewrite scenario_unit_not_pushed in H.
  change (target scenario_unit) with (Some (mkV (-8) 0 (-6))) in H.
  cbv beta iota in H.
  destruct (Rlt_dec (remaining scenario_unit (mkV (-8) 0 (-6))) 0.12) as [_ | N].
  - destruct H as (H & _). rewrite H. reflexivity.
  - contradiction N. exact scenario_unit_in_reach.
Defined.

End Scenario.

(** ** Teardown *)

Section Teardown.
Import Lifecycle.
Local Open Scope step_scope.

Lemma below_refl (h : Host) : below h h.
Proof. unfold below. repeat split; auto using incl_refl. Qed.

Lemma below_trans (h2 h1 h : Host) : below h2 h1 -> below h1 h -> below h2 h.
Proof.
  unfold below.
  intros (R2 & F2 & Z2 & K2 & L2 & C2 & O2 & A2 & G2)
         (R1 & F1 & Z1 & K1 & L1 & C1 & O1 & A1 & G1).
  repeat split; try tauto; try congruence; try lia;
    try (eapply incl_tran; eassumption).
  destruct C2 as [C2 | C2]; [left; exact C2 |].
  destruct C1 as [C1 | C1]; [left | right]; congruence.
Qed.

Lemma incl_remove {A : Type} (dec : forall a b : A, {a = b} + {a <> b})
    (x : A) (l : list A) :
  incl (List.remove dec x l) l.
Proof. intros a Ha. apply in_remove in Ha. tauto. Qed.

Lemma incl_filter {A : Type} (f : A -> bool) (l : list A) :
  incl (List.filter f l) l.
Proof. intros a Ha. apply filter_In in Ha. tauto. Qed.

Lemma filter_all {A : Type} (f : A -> bool) (l : list A) :
  (forall a, In a l -> f a = true) -> List.filter f l = l.
Proof.
  induction l as [| a l IH]; intros H; [reflexivity |]. simpl.
  rewrite (H a) by (left; reflexivity). f_equal. apply IH.
  intros b Hb. apply H. right. exact Hb.
Qed.

(** A step that frees nothing. *)
Ltac frees_nothing :=
  exists (@nil resource);
  split; [symmetry; apply app_nil_r
         | split; [constructor | intros ? H; destruct H]].

#[local] Instance skip_releasing : Releasing Returned (fun _ => True).
Proof.
  constructor.
  - intros h. eauto.
  - intros h h' E. injection E as <-. apply below_refl.
  - auto.
  - auto.
  - auto.
  - intros h h' E. injection E as <-. frees_nothing.
  - intros h h' E. injection E as <-. reflexivity.
Qed.

#[local] Instance cancelAnimationFrame_releasing :
  Releasing cancelAnimationFrame (fun h => frameRequested h = false).
Proof.
  constructor.
  - intros h. eexists. reflexivity.
  - intros h h' E. injection E as <-. unfold below. cbn.
    repeat split; auto using incl_refl. discriminate.
  - intros h h' E. injection E as <-. reflexivity.
  - intros h h' Q (_ & F & _). destruct (frameRequested h'); [| reflexivity].
    rewrite F in Q by reflexivity. discriminate.
  - intros [r f z k l c o a g fr] Q. cbn in Q. subst f. reflexivity.
  - intros h h' E. injection E as <-. frees_nothing.
  - intros h h' E. injection E as <-. reflexivity.
Qed.

#[local] Instance removeResize_releasing :
  Releasing removeResize (fun h => resizeObserved h = false).
Proof.
  constructor.
  - intros h. eexists. reflexivity.
  - intros h h' E. injection E as <-. unfold below. cbn.
    repeat split; auto using incl_refl. discriminate.
  - intros h h' E. injection E as <-. reflexivity.
  - intros h h' Q (_ & _ & F & _). destruct (resizeObserved h'); [| reflexivity].
    rewrite F in Q by reflexivity. discriminate.
  - intros [r f z k l c o a g fr] Q. cbn in Q. subst z. reflexivity.
  - intros h h' E. injection E as <-. frees_nothing.
  - intros h h' E. injection E as <-. reflexivity.
Qed.

#[local] Instance keys_detach_releasing :
  Releasing keys_detach (fun h => keysAttached h = false).
Proof.
  constructor.
  - intros h. eexists. reflexivity.
  - intros h h' E. injection E as <-. unfold below. cbn.
    repeat split; auto using incl_refl. discriminate.
  - intros h h' E. injection E as <-. reflexivity.
  - intros h h' Q (_ & _ & _ & F & _). destruct (keysAttached h'); [| reflexivity].
    rewrite F in Q by reflexivity. discriminate.
  - intros [r f z k l c o a g fr] Q. cbn in Q. subst k. reflexivity.
  - intros h h' E. injection E as <-. frees_nothing.
  - intros h h' E. injection E as <-. reflexivity.
Qed.

#[local] Instance removeEventListener_releasing (l : listener) :
  Releasing (removeEventListener l) (fun h => ~ In l (listeners h)).
Proof.
  constructor.
  - intros h. eexists. reflexivity.
  - intros h h' E. injection E as <-. unfold below. cbn.
    repeat split; auto using incl_refl, incl_remove.
  - intros h h' E. injection E as <-. cbn. apply remove_In.
  - intros h h' Q (_ & _ & _ & _ & L & _) H. apply Q, L, H.
  - intros [r f z k ls c o a g fr] Q. cbn in Q. unfold removeEventListener.
    cbn. rewrite notin_remove by exact Q. reflexivity.
  - intros h h' E. injection E as <-. frees_nothing.
  - intros h h' E. injection E as <-. reflexivity.
Qed.

Lemma remove_canvas_eq (h : Host) :
  remove_canvas h
  = Returned (mkHost (running h) (frameRequested h) (resizeObserved h)
                     (keysAttached h) (listeners h) None
                     (overlayChildren h) (attached h) (gpu h) (freed h)).
Proof.
  destruct h as [r f z k ls c o a g fr]. unfold remove_canvas.
  cbn [canvasParent]. destruct c as [p |]; unfold optional_call, removeChild;
    cbn [canvasParent running frameRequested resizeObserved keysAttached
         listeners overlayChildren attached gpu freed];
    rewrite ?String.eqb_refl; reflexivity.
Qed.

#[local] Instance remove_canvas_releasing :
  Releasing remove_canvas (fun h => canvasParent h = None).
Proof.
  constructor.
  - intros h. rewrite remove_canvas_eq. eauto.
  - intros h h' E. rewrite remove_canvas_eq in E. injection E as <-.
    unfold below. cbn. repeat split; auto using incl_refl.
  - intros h h' E. rewrite remove_canvas_eq in E. injection E as <-.
    reflexivity.
  - intros h h' Q (_ & _ & _ & _ & _ & C & _). destruct C as [C | C]; congruence.
  - intros [r f z k ls c o a g fr] Q. rewrite remove_canvas_eq. cbn in *.
    subst c. reflexivity.
  - intros h h' E. rewrite remove_canvas_eq in E. injection E as <-.
    cbn. frees_nothing.
  - intros h h' E. rewrite remove_canvas_eq in *. injection E as <-.
    reflexivity.
Qed.

#[local] Instance clear_overlay_releasing :
  Releasing clear_overlay (fun h => overlayChildren h = 0%nat).
Proof.
  constructor.
  - intros h. eexists. reflexivity.
  - intros h h' E. injection E as <-. unfold below. cbn.
    repeat split; auto using incl_refl. lia.
  - intros h h' E. injection E as <-. reflexivity.
  - intros h h' Q (_ & _ & _ & _ & _ & _ & O & _). lia.
  - intros [r f z k l c o a g fr] Q. cbn in Q. subst o. reflexivity.
  - intros h h' E. injection E as <-. frees_nothing.
  - intros h h' E. injection E as <-. reflexivity.
Qed.

#[local] Instance object_remove_releasing (parent child : node) :
  Releasing (object_remove parent child)
            (fun h => home child = parent -> ~ In child (attached h)).
Proof.
  constructor.
  - intros h. unfold object_remove. destruct (node_eq_dec _ _); eauto.
  - intros h h' E. unfold object_remove in E.
    destruct (node_eq_dec _ _); injection E as <-; [| apply below_refl].
    unfold below. cbn. repeat split; auto using incl_refl, incl_remove.
  - intros h h' E P. unfold object_remove in E.
    destruct (node_eq_dec _ _); [| contradiction].
    injection E as <-. cbn. apply remove_In.
  - intros h h' Q (_ & _ & _ & _ & _ & _ & _ & A & _) P H. apply (Q P), A, H.
  - intros [r f z k l c o a g fr] Q. unfold object_remove.
    destruct (node_eq_dec _ _) as [P | P]; [| reflexivity].
    unfold with_attached. cbn in *. rewrite notin_remove by (apply Q, P).
    reflexivity.
  - intros h h' E. unfold object_remove in E.
    destruct (node_eq_dec _ _); injection E as <-; frees_nothing.
  - intros h h' E. unfold object_remove in *.
    destruct (node_eq_dec _ _); injection E as <-; reflexivity.
Qed.

#[local] Instance remove_from_parent_releasing (child : node) :
  Releasing (remove_from_parent child) (fun h => ~ In child (attached h)).
Proof.
  assert (R : forall h,
             remove_from_parent child h
             = Returned (with_attached h
                           (List.remove node_eq_dec child (attached h)))).
  { intros [r f z k l c o a g fr].
    unfold remove_from_parent, parent_of. cbn [attached].
    destruct (in_dec node_eq_dec child a) as [I | I]; unfold optional_call.
    - unfold object_remove.
      destruct (node_eq_dec (home child) (home child)) as [_ | N];
        [reflexivity | exfalso; apply N; reflexivity].
    - unfold with_attached. cbn. rewrite notin_remove by exact I. reflexivity. }
  constructor.
  - intros h. rewrite R. eauto.
  - intros h h' E. rewrite R in E. injection E as <-. unfold below. cbn.
    repeat split; auto using incl_refl, incl_remove.
  - intros h h' E. rewrite R in E. injection E as <-. cbn. apply remove_In.
  - intros h h' Q (_ & _ & _ & _ & _ & _ & _ & A & _) H. apply Q, A, H.
  - intros h Q. rewrite R. destruct h as [r f z k l c o a g fr].
    unfold with_attached. cbn in *. rewrite notin_remove by exact Q. reflexivity.
  - intros h h' E. rewrite R in E. injection E as <-. frees_nothing.
  - intros h h' E. rewrite R in *. injection E as <-. reflexivity.
Qed.

#[local] Instance scene_clear_releasing :
  Releasing scene_clear
            (fun h => forall c, In c (attached h) -> home c <> sceneN).
Proof.
  constructor.
  - intros h. eexists. reflexivity.
  - intros h h' E. injection E as <-. unfold below. cbn.
    repeat split; auto using incl_refl, incl_filter.
  - intros h h' E. injection E as <-. cbn. intros c Hc.
    apply filter_In in Hc. destruct Hc as (_ & Hc).
    destruct (node_eq_dec (home c) sceneN); [discriminate | assumption].
  - intros h h' Q (_ & _ & _ & _ & _ & _ & _ & A & _) c Hc. apply Q, A, Hc.
  - intros [r f z k l c o a g fr] Q. unfold scene_clear, with_attached.
    cbn in *. rewrite filter_all; [reflexivity |].
    intros b Hb. destruct (node_eq_dec (home b) sceneN) as [E | E];
      [exfalso; exact (Q b Hb E) | reflexivity].
  - intros h h' E. injection E as <-. frees_nothing.
  - intros h h' E. injection E as <-. reflexivity.
Qed.

#[local] Instance dispose_resource_releasing (r : resource) :
  Releasing (dispose_resource r) (fun h => ~ In r (gpu h)).
Proof.
  constructor.
  - intros h. unfold dispose_resource. destruct (in_dec _ _ _); eauto.
  - intros h h' E. unfold dispose_resource in E.
    destruct (in_dec _ _ _); injection E as <-; [| apply below_refl].
    unfold below. cbn. repeat split; auto using incl_refl, incl_remove.
  - intros h h' E. unfold dispose_resource in E.
    destruct (in_dec _ _ _); injection E as <-; [cbn; apply remove_In | assumption].
  - intros h h' Q (_ & _ & _ & _ & _ & _ & _ & _ & G) H. apply Q, G, H.
  - intros h Q. unfold dispose_resource.
    destruct (in_dec _ _ _); [contradiction | reflexivity].
  - intros h h' E. unfold dispose_resource in E.
    destruct (in_dec _ _ _) as [I | I]; injection E as <-; [| frees_nothing].
    exists [r]. cbn. split; [reflexivity |]. split.
    + apply List.NoDup_cons; [intros H; destruct H | constructor].
    + intros x [<- | H]; [| destruct H]. split; [exact I | apply remove_In].
  - intros h h' E. unfold dispose_resource in *.
    change (gpu (start h)) with (gpu h).
    destruct (in_dec resource_eq_dec r (gpu h)); injection E as <-; reflexivity.
Qed.

#[local] Instance andThen_releasing (f g : step) (Qf Qg : Host -> Prop) :
  Releasing f Qf -> Releasing g Qg ->
  Releasing (f ;; g) (fun h => Qf h /\ Qg h).
Proof.
  intros Hf Hg.
  assert (S : forall h h2, (f ;; g) h = Returned h2 ->
                           exists h1, f h = Returned h1 /\ g h1 = Returned h2).
  { intros h h2 E. unfold andThen in E. destruct (f h) as [h1 | e] eqn:E1;
      [eauto | discriminate]. }
  constructor.
  - intros h. destruct (releasing_returns (p := f) h) as (h1 & E1).
    destruct (releasing_returns (p := g) h1) as (h2 & E2).
    exists h2. unfold andThen. rewrite E1. exact E2.
  - intros h h2 E. destruct (S h h2 E) as (h1 & E1 & E2).
    eapply below_trans; [eapply (releasing_below (p := g)) |
                         eapply (releasing_below (p := f))]; eassumption.
  - intros h h2 E. destruct (S h h2 E) as (h1 & E1 & E2). split.
    + eapply (releasing_closed (p := f)).
      * eapply (releasing_post (p := f)); eassumption.
      * eapply (releasing_below (p := g)); eassumption.
    + eapply (releasing_post (p := g)); eassumption.
  - intros h h' (Q1 & Q2) B. split.
    + eapply (releasing_closed (p := f)); eassumption.
    + eapply (releasing_closed (p := g)); eassumption.
  - intros h (Q1 & Q2). unfold andThen.
    rewrite (releasing_settled (p := f) h Q1).
    apply (releasing_settled (p := g) h Q2).
  - intros h h2 E. destruct (S h h2 E) as (h1 & E1 & E2).
    destruct (releasing_log (p := f) h h1 E1) as (n1 & F1 & N1 & G1).
    destruct (releasing_log (p := g) h1 h2 E2) as (n2 & F2 & N2 & G2).
    pose proof (releasing_below (p := f) h h1 E1)
      as (_ & _ & _ & _ & _ & _ & _ & _ & I1).
    pose proof (releasing_below (p := g) h1 h2 E2)
      as (_ & _ & _ & _ & _ & _ & _ & _ & I2).
    exists (n1 ++ n2). split; [rewrite F2, F1, app_assoc; reflexivity |].
    split.
    + apply List.NoDup_app; [exact N1 | exact N2 |].
      intros r H1 H2. apply (G1 r H1), (G2 r H2).
    + intros r H. apply in_app_or in H. destruct H as [H | H].
      * destruct (G1 r H) as (A & B). split; [exact A |].
        intros C. apply B, I2, C.
      * destruct (G2 r H) as (A & B). split; [apply I1, A | exact B].
  - intros h h2 E. destruct (S h h2 E) as (h1 & E1 & E2).
    unfold andThen. rewrite (releasing_started (p := f) h h1 E1).
    apply (releasing_started (p := g) h1 h2 E2).
Qed.

Lemma releasing_same (p : step) (Q Q' : Host -> Prop) :
  (forall h, Q h <-> Q' h) -> Releasing p Q -> Releasing p Q'.
Proof.
  intros E H. constructor.
  - apply (releasing_returns (p := p)).
  - apply (releasing_below (p := p)).
  - intros h h' R. apply E. eapply (releasing_post (p := p)); eassumption.
  - intros h h' Q1 B. apply E. eapply (releasing_closed (p := p)); [| eassumption].
    apply E. exact Q1.
  - intros h Q1. apply (releasing_settled (p := p)). apply E. exact Q1.
  - apply (releasing_log (p := p)).
  - apply (releasing_started (p := p)).
Qed.

#[local] Instance forEach_releasing {A : Type} (f : A -> step)
    (Q : A -> Host -> Prop) (l : list A) :
  (forall a, Releasing (f a) (Q a)) ->
  Releasing (forEach f l) (fun h => Forall (fun a => Q a h) l).
Proof.
  intros Hf. induction l as [| a l IH].
  - apply (releasing_same Returned (fun _ => True)); [| apply skip_releasing].
    intros h. split; auto.
  - apply (releasing_same (f a ;; forEach f l)
             (fun h => Q a h /\ Forall (fun a => Q a h) l)).
    + intros h. split.
      * intros (H1 & H2). constructor; assumption.
      * intros H. inversion H. auto.
    + apply andThen_releasing; [apply Hf | exact IH].
Qed.

#[local] Instance optional_releasing {A : Type} (a : option A) (f : A -> step)
    (Q : A -> Host -> Prop) :
  (forall x, Releasing (f x) (Q x)) ->
  Releasing (optional_call a f)
            (fun h => match a with Some x => Q x h | None => True end).
Proof. intros Hf. destruct a as [x |]; [apply Hf | apply skip_releasing]. Qed.

Lemma dispose_releasing (G : game) :
  exists Q, Releasing (dispose G) Q /\ forall h, Q h -> released h.
Proof.
  destruct G as [scene | g | scene | |]; eexists; (split; [
    unfold dispose, forest_dispose, runner_dispose, starfield_dispose,
      arena_dispose, ocean_dispose, stop_loop, release_renderer,
      renderer_dispose, scene_traverse, dispose_object, dispose_unit,
      dispose_marker;
    typeclasses eauto
  | unfold released; cbv beta; intros h HQ; tauto ]).
Qed.

Lemma ocean_dispose_frees_the_shared_wake_geometry_once :
  ocean_dispose
    (mkHost false true true true [] (Some "canvas"%string) 2 [childN 0]
            [rendererState; wakeGeo; wakeLMat; wakeRMat; waterGeo] [])
  = Returned
      (mkHost false false false false [] None 0 [] []
              [rendererState; waterGeo; wakeGeo; wakeLMat; wakeRMat]).
Proof. vm_compute. reflexivity. Qed.

#[local] Instance keeps_fields (r : resource) (p : step) :
  (forall h, exists h', p h = Returned h' /\ gpu h' = gpu h) -> Keeps r p | 10.
Proof.
  intros H h h' E I. destruct (H h) as (h1 & E1 & G).
  rewrite E1 in E. injection E as <-. rewrite G. exact I.
Qed.

#[local] Instance keeps_dispose_resource (r r' : resource) :
  r <> r' -> Keeps r (dispose_resource r').
Proof.
  intros N h h' E I. unfold dispose_resource in E.
  destruct (in_dec resource_eq_dec r' (gpu h)); injection E as <-; [| exact I].
  cbn. apply in_in_remove; assumption.
Qed.

#[local] Instance keeps_andThen (r : resource) (f g : step) :
  Keeps r f -> Keeps r g -> Keeps r (f ;; g).
Proof.
  intros Hf Hg h h2 E I. unfold andThen in E.
  destruct (f h) as [h1 | e] eqn:E1; [| discriminate].
  apply (Hg h1 h2 E). apply (Hf h h1 E1). exact I.
Qed.

#[local] Instance keeps_forEach {A : Type} (r : resource) (f : A -> step)
    (l : list A) :
  (forall a, Keeps r (f a)) -> Keeps r (forEach f l).
Proof.
  intros Hf. induction l as [| a l IH].
  - intros h h' E I. injection E as <-. exact I.
  - apply keeps_andThen; [apply Hf | exact IH].
Qed.

Lemma keeps_plain (r : resource) :
  Keeps r cancelAnimationFrame /\ Keeps r removeResize /\ Keeps r keys_detach
  /\ Keeps r remove_canvas /\ Keeps r clear_overlay /\ Keeps r scene_clear
  /\ (forall l, Keeps r (removeEventListener l))
  /\ (forall p c, Keeps r (object_remove p c))
  /\ (forall c, Keeps r (remove_from_parent c)).
Proof.
  repeat split; intros; apply keeps_fields; intros h;
    try (eexists; split; reflexivity).
  - rewrite remove_canvas_eq. eexists; split; reflexivity.
  - unfold object_remove. destruct (node_eq_dec _ _); eexists; split; reflexivity.
  - unfold remove_from_parent, parent_of, optional_call, object_remove.
    destruct (in_dec node_eq_dec c (attached h)); [| eexists; split; reflexivity].
    destruct (node_eq_dec (home c) (home c)); eexists; split; reflexivity.
Qed.

Lemma dispose_SpaceRunner (g : SpaceRunner.Game) :
  dispose (SpaceRunnerGame g) = runner_dispose g.
Proof. reflexivity. Qed.

Lemma runner_dispose_keeps (g : SpaceRunner.Game) (r : resource) :
  In r runner_unreached -> Keeps r (runner_dispose g).
Proof.
  intros Hr.
  destruct (keeps_plain r) as (K1 & K2 & K3 & K4 & K5 & K6 & K7 & K8 & K9).
  unfold runner_unreached in Hr. cbn in Hr.
  unfold runner_dispose, stop_loop, release_renderer, renderer_dispose,
    dispose_unit, dispose_marker.
  repeat match goal with
    | |- Keeps _ (andThen _ _) => apply keeps_andThen
    | |- Keeps _ (forEach _ _) => apply keeps_forEach; intros ?
    | |- Keeps _ (dispose_resource _) =>
        apply keeps_dispose_resource; intuition (subst; discriminate)
    | |- Keeps _ (removeEventListener _) => apply K7
    | |- Keeps _ (object_remove _ _) => apply K8
    | |- Keeps _ (remove_from_parent _) => apply K9
    | |- Keeps _ _ => assumption
    end.
Qed.

(** Without the [?.] the second call would throw: once the canvas is out
    of the page, [parentElement] is [null]. *)
Lemma removeChild_on_null_parent_throws (h : Host) :
  released h ->
  exists e, member_call (canvasParent h) removeChild h = Thrown e.
Proof.
  intros (_ & _ & _ & _ & C & _). rewrite C. cbn. eauto.
Qed.

(** C6.  For each of the five game modules and from every state of its
    handle, started or not: [dispose()] returns without throwing, with the
    frame loop, the listeners, the renderer, the canvas and the overlay
    released, and frees the GPU data of no geometry, material or renderer
    twice (a shared geometry is passed to [dispose()] once per mesh and
    freed by the first call only); a second [dispose()] returns without
    throwing, frees nothing and changes nothing; and the outcome is the
    same whether or not [start()] was called before. *)
Theorem dispose_twice_or_before_start_is_safe :
  forall (G : game) (h : Host),
    exists (h1 : Host) (new : list resource),
      dispose G h = Returned h1
      /\ released h1
      /\ freed h1 = freed h ++ new /\ List.NoDup new
      /\ dispose G h1 = Returned h1
      /\ dispose G (start h) = Returned (start h1).
Proof.
  intros G h. destruct (dispose_releasing G) as (Q & R & HQ).
  destruct (@releasing_returns _ _ R h) as (h1 & E).
  destruct (@releasing_log _ _ R h h1 E) as (new & F & N & _).
  pose proof (@releasing_post _ _ R h h1 E) as Q1.
  exists h1, new. split; [exact E |]. split; [apply HQ, Q1 |].
  split; [exact F |]. split; [exact N |]. split.
  - apply (@releasing_settled _ _ R). exact Q1.
  - apply (@releasing_started _ _ R). exact E.
Qed.

(** X29.  Space Runner's [dispose()] does not reach everything the game
    created: the geometries and materials of the ground, the grid and the
    cursor ring are never passed to [dispose()], so none of them is among
    what the call frees, and whichever of them held GPU data before the
    call holds it afterwards. *)
Theorem runner_dispose_leaves_ground_grid_and_cursor :
  forall (g : SpaceRunner.Game) (h : Host),
    exists (h1 : Host) (new : list resource),
      dispose (SpaceRunnerGame g) h = Returned h1
      /\ freed h1 = freed h ++ new
      /\ Forall (fun r => ~ In r new) runner_unreached
      /\ incl (List.filter
                 (fun r => if in_dec resource_eq_dec r runner_unreached
                           then true else false) (gpu h))
              (gpu h1).
Proof.
  intros g h.
  destruct (dispose_releasing (SpaceRunnerGame g)) as (Q & R & _).
  destruct (@releasing_returns _ _ R h) as (h1 & E).
  destruct (@releasing_log _ _ R h h1 E) as (new & F & _ & L).
  assert (K : forall r, In r runner_unreached -> In r (gpu h) -> In r (gpu h1)).
  { intros r Hr. pose proof (runner_dispose_keeps g r Hr) as Kr.
    rewrite <- dispose_SpaceRunner in Kr. apply (Kr h h1 E). }
  exists h1, new. split; [exact E |]. split; [exact F |]. split.
  - apply List.Forall_forall. intros r Hr Hn.
    destruct (L r Hn) as (A & B). apply B, (K r Hr A).
  - intros r Hr. apply filter_In in Hr. destruct Hr as (A & B).
    destruct (in_dec resource_eq_dec r runner_unreached) as [I | I];
      [| discriminate].
    apply (K r I A).
Qed.

End Teardown.

Section FormationCheck.
Import SpaceRunner Notions.
Local Open Scope R_scope.

Lemma fixture_all_selected_units :
  units fixture_all_selected = [select unitA; select unitB; select unitC].
Proof.
  change fixture_all_selected
    with (applySelectionFilter (fun _ => true) false fixture).
  rewrite applySelectionFilter_units. reflexivity.
Qed.

Lemma move_command_assigns_distinct_formation_targets_witness :
  let g' := onContextMenu fixture_pickGround (mkMouse 2 5 5 false)
                          fixture_all_selected in
  length (List.filter selected (units g')) = 3%nat
  /\ List.filter selected (units g') !! 1%nat
     = Some (command (select unitB) (v_add (mkV 5 0 5) (grid_offset 3 1)))
  /\ events g' = events fixture_all_selected ++ [CommandMove 5 5 3].
Proof.
  intros g'.
  assert (N3 : length (List.filter selected (units fixture_all_selected)) = 3%nat)
    by (rewrite fixture_all_selected_units; reflexivity).
  assert (H1 : (1 <= length (List.filter selected (units fixture_all_selected)))%nat)
    by (rewrite N3; lia).
  destruct (move_command_assigns_distinct_formation_targets
              fixture_pickGround (mkMouse 2 5 5 false) fixture_all_selected
              (mkV 5 0 5) eq_refl H1)
    as (_ & Hlen & Hsel & _ & _ & Hev).
  fold g' in Hlen, Hsel, Hev. rewrite N3 in Hlen, Hsel, Hev.
  split; [exact Hlen |]. split; [| exact Hev].
  apply Hsel. rewrite fixture_all_selected_units. reflexivity.
Defined.

End FormationCheck.

(** * Further properties of the code *)

(** ** Ocean Glide *)

Section OceanGlideMore.
Import JS THREE OceanGlide Notions MoreNotions.
Local Open Scope js_scope.

(** X1.  [norm2] normalises: for an input whose length [l] lies within
    [[1e-100, 1e100]] (where the squared length neither overflows nor
    underflows in doubles), it returns the input divided by [l], a vector
    of length 1 that points the way of the input; for the zero vector it
    returns [(1, 0)]. *)
Theorem norm2_returns_a_unit_vector :
  (forall a b : R,
      let l := sqrt (a * a + b * b) in
      (/ 10 ^ 100 <= l <= 10 ^ 100)%R ->
      norm2 (mkV2 #a #b) = mkV2 #(a * (1 / l)) #(b * (1 / l))
      /\ ((a * (1 / l)) * (a * (1 / l)) + (b * (1 / l)) * (b * (1 / l)) = 1)%R
      /\ (a * (1 / l) * l = a)%R /\ (b * (1 / l) * l = b)%R)
  /\ norm2 (mkV2 #0 #0) = mkV2 #1 #0.
Proof.
  split.
  - intros a b l (Hlo & _).
    assert (Hl : (0 < l)%R).
    { eapply Rlt_le_trans; [| exact Hlo].
      apply Rinv_0_lt_compat. apply pow_lt. lra. }
    assert (Hpos : (0 < a * a + b * b)%R).
    { destruct (Rle_lt_dec (a * a + b * b) 0) as [N | P]; [| exact P].
      exfalso. unfold l in Hl. rewrite sqrt_neg_0 in Hl by exact N. lra. }
    pose proof (sqrt_sqrt (a * a + b * b) ltac:(lra)) as Hll. fold l in Hll.
    unfold norm2, Vector2.lengthSq, strict_eq. cbn [v2x v2y mul add lift2].
    destruct (Req_dec_T (a * a + b * b) 0) as [E | NE]; [lra |].
    unfold Vector2.normalize, Vector2.length, Vector2.lengthSq.
    cbn [v2x v2y mul add lift2]. rewrite sqrt_Num by lra. fold l.
    unfold or_else. destruct (Req_dec_T l 0) as [E0 | _]; [lra |].
    unfold Vector2.divideScalar, Vector2.multiplyScalar.
    rewrite div_Num by lra. cbn [v2x v2y mul lift2].
    split; [reflexivity |]. split; [| split; field; lra].
    replace (a * (1 / l) * (a * (1 / l)) + b * (1 / l) * (b * (1 / l)))%R
      with ((a * a + b * b) * (1 / l) * (1 / l))%R by ring.
    rewrite <- Hll. field. lra.
  - unfold norm2, Vector2.lengthSq, strict_eq. cbn [v2x v2y mul add lift2].
    destruct (Req_dec_T (0 * 0 + 0 * 0) 0) as [_ | NE]; [reflexivity |].
    exfalso. apply NE. ring.
Qed.

Lemma norm2_returns_a_unit_vector_witness :
  let l := sqrt (0.2 * 0.2 + 0.98 * 0.98) in
  norm2 (mkV2 #0.2 #0.98) = mkV2 #(0.2 * (1 / l)) #(0.98 * (1 / l))
  /\ ((0.2 * (1 / l)) * (0.2 * (1 / l))
      + (0.98 * (1 / l)) * (0.98 * (1 / l)) = 1)%R
  /\ (0.2 * (1 / l) * l = 0.2)%R /\ (0.98 * (1 / l) * l = 0.98)%R.
Proof.
  apply (proj1 norm2_returns_a_unit_vector 0.2 0.98)%R.
  assert (H1 : (1 <= sqrt (0.2 * 0.2 + 0.98 * 0.98))%R).
  { rewrite <- sqrt_1 at 1. apply sqrt_le_1_alt. lra. }
  assert (H2 : (sqrt (0.2 * 0.2 + 0.98 * 0.98) <= 2)%R).
  { rewrite <- (sqrt_square 2) by lra. apply sqrt_le_1_alt. lra. }
  assert (H3 : (10 <= 10 ^ 100)%R).
  { change (10 ^ 100)%R with (10 * 10 ^ 99)%R.
    assert (1 <= 10 ^ 99)%R by (apply pow_R1_Rle; lra). lra. }
  split; [| lra].
  apply Rle_trans with 1%R; [| exact H1].
  rewrite <- Rinv_1. apply Rinv_le_contravar; lra.
Defined.

(** X2.  A wave field without components is flat: for every query, finite
    or not, the height is 0, the normal is world-up and the displacement is
    zero. *)
Theorem empty_wave_field_is_flat :
  forall x z t : number,
    heightAndNormal (makeWaveSampler []) x z t
    = mkSample #0 (mkV3 #0 #1 #0) (mkV3 #0 #0 #0).
Proof.
  intros x z t. unfold heightAndNormal, makeWaveSampler.
  cbn [s_waves length seq fold_left dispX dispY dispZ dHdX dHdZ neg lift1].
  f_equal.
  unfold Vector3.normalize, Vector3.length. cbn [vx vy vz mul add lift2].
  replace (- 0 * - 0 + 1 * 1 + - 0 * - 0)%R with 1%R by ring.
  rewrite sqrt_Num by lra. rewrite sqrt_1.
  unfold or_else. destruct (Req_dec_T 1 0) as [E | _]; [lra |].
  unfold Vector3.divideScalar, Vector3.multiplyScalar.
  rewrite div_Num by lra. cbn [vx vy vz mul lift2].
  f_equal; f_equal; field.
Qed.

Lemma Rpower_milli_bounds (dt : R) :
  (0 <= dt)%R -> (0 < Rpower 0.001 dt <= 1)%R.
Proof.
  intros Hdt. unfold Rpower. split; [apply exp_pos |].
  assert (Hln : (ln 0.001 < 0)%R).
  { rewrite <- ln_1. apply ln_increasing; lra. }
  rewrite <- exp_0.
  destruct (Req_dec_T (dt * ln 0.001) 0) as [-> | NE]; [lra |].
  left. apply exp_increasing. nra.
Qed.

Lemma smooth_within_unit (v w dt : R) :
  (0 <= dt)%R -> (-1 <= v <= 1)%R -> (-1 <= w <= 1)%R ->
  within_unit (smooth #v #w #dt).
Proof.
  intros Hdt Hv Hw. rewrite smooth_Num.
  pose proof (Rpower_milli_bounds dt Hdt) as Hk.
  set (k := Rpower 0.001 dt) in *.
  eexists. split; [reflexivity |]. nra.
Qed.

Lemma wantThrottle_values (keys : KeyInput) :
  exists w : R, wantThrottle keys = #w /\ (-1 <= w <= 1)%R.
Proof.
  unfold wantThrottle. destruct (pressed keys "w"), (pressed keys "s");
    eexists; (split; [reflexivity | lra]).
Qed.

Lemma wantSteer_values (keys : KeyInput) :
  exists w : R, wantSteer keys = #w /\ (-1 <= w <= 1)%R.
Proof.
  unfold wantSteer. destruct (pressed keys "d"), (pressed keys "a");
    eexists; (split; [reflexivity | lra]).
Qed.

Lemma smooth_run_within_unit (w : R) (dts : list R) (v : number) :
  (-1 <= w <= 1)%R -> Forall (fun dt => (0 <= dt)%R) dts ->
  within_unit v -> within_unit (smooth_run #w dts v).
Proof.
  intros Hw Hdts. revert v. induction Hdts as [| dt dts Hdt _ IH]; intros v Hv.
  - exact Hv.
  - rewrite smooth_run_cons. apply IH.
    destruct Hv as (r & -> & Hr). apply smooth_within_unit; assumption.
Qed.

(** X3.  The smoothed throttle and steer intents never leave [[-1, 1]]:
    whatever keys are held, over any ticks of non-negative size. *)
Theorem intents_stay_within_unit :
  forall (keys : KeyInput) (dts : list R) (b : Boat),
    Forall (fun dt => (0 <= dt)%R) dts ->
    within_unit (targetThrottle b) -> within_unit (targetSteer b) ->
    within_unit (targetThrottle (input_run keys dts b))
    /\ within_unit (targetSteer (input_run keys dts b)).
Proof.
  intros keys dts b Hdts Ht Hs. rewrite input_run_fields.
  cbn [targetThrottle targetSteer].
  destruct (wantThrottle_values keys) as (wt & -> & Hwt).
  destruct (wantSteer_values keys) as (ws & -> & Hws).
  split; apply smooth_run_within_unit; assumption.
Qed.

Lemma intents_stay_within_unit_witness :
  within_unit (targetThrottle (input_run {["w" := true]} [0.016; 0.5; 0]%R boat0))
  /\ within_unit (targetSteer (input_run {["w" := true]} [0.016; 0.5; 0]%R boat0)).
Proof.
  apply intents_stay_within_unit.
  - repeat constructor; lra.
  - exists 0%R. split; [reflexivity | lra].
  - exists 0%R. split; [reflexivity | lra].
Defined.

End OceanGlideMore.

Section BoatMotion.
Import JS THREE OceanGlide Notions MoreNotions.
Local Open Scope js_scope.

(** X4.  The defect of the sampler touches only the boat's height: with
    finite speed, intents and heading, the boat's x and z stay finite, and
    in one tick the boat moves horizontally by exactly [|speed * dt|], the
    new speed being within [[-3, 14]]. *)
Theorem boat_moves_horizontally_by_speed_times_dt :
  forall (slerp : Quaternion -> Quaternion -> number -> Quaternion)
         (dt t x0 z0 : R) (b : Boat),
    finite (b_speed b) -> finite (targetThrottle b) ->
    finite (targetSteer b) -> finite (heading b) ->
    vx (position b) = #x0 -> vz (position b) = #z0 ->
    exists v x1 z1 : R,
      b_speed (updateBoat slerp #dt #t b) = #v
      /\ vx (position (updateBoat slerp #dt #t b)) = #x1
      /\ vz (position (updateBoat slerp #dt #t b)) = #z1
      /\ ((x1 - x0) * (x1 - x0) + (z1 - z0) * (z1 - z0)
          = (v * dt) * (v * dt))%R
      /\ (-3 <= v <= 14)%R.
Proof.
  intros slerp dt t x0 z0 b Hs Hth (st & Hst) (h & Hh) Hx Hz.
  destruct (next_speed_in_bounds b dt Hs Hth) as (v & Hv & Hb).
  unfold updateBoat. cbn [b_speed position].
  unfold Vector3.setY, Vector3.addScaledVector, STEER_BASE, STEER_SPEED_FACTOR.
  cbn [vx vy vz].
  rewrite Hv, Hst, Hh, Hx, Hz.
  cbn [add sub mul neg lift1 lift2 Math_abs Math_sin Math_cos].
  do 3 eexists. split; [reflexivity |]. split; [reflexivity |].
  split; [reflexivity |]. split; [| exact Hb].
  set (h' := (h - st * (0.7 + 0.12 * Rabs v) * dt)%R).
  pose proof (sin2_cos2 h') as Hsc. unfold Rsqr in Hsc.
  replace ((x0 + - sin h' * (v * dt) - x0) * (x0 + - sin h' * (v * dt) - x0)
           + (z0 + - cos h' * (v * dt) - z0) * (z0 + - cos h' * (v * dt) - z0))%R
    with ((sin h' * sin h' + cos h' * cos h') * ((v * dt) * (v * dt)))%R by ring.
  rewrite Hsc. ring.
Qed.

Lemma boat_moves_horizontally_by_speed_times_dt_witness :
  exists v x1 z1 : R,
    b_speed (updateBoat (fun q _ _ => q) #0.016 #0.016 boat0) = #v
    /\ vx (position (updateBoat (fun q _ _ => q) #0.016 #0.016 boat0)) = #x1
    /\ vz (position (updateBoat (fun q _ _ => q) #0.016 #0.016 boat0)) = #z1
    /\ ((x1 - 0) * (x1 - 0) + (z1 - 0) * (z1 - 0)
        = (v * 0.016) * (v * 0.016))%R
    /\ (-3 <= v <= 14)%R.
Proof.
  assert (F : finite #0) by (eexists; reflexivity).
  exact (boat_moves_horizontally_by_speed_times_dt
           (fun q _ _ => q) 0.016 0.016 0 0 boat0 F F F F eq_refl eq_refl).
Defined.

(** X5.  Coasting: with the throttle intent at zero and a tick of at most
    2/7 s, quadratic drag never speeds the boat up and never reverses it. *)
Theorem coasting_never_speeds_up_or_reverses :
  forall (slerp : Quaternion -> Quaternion -> number -> Quaternion)
         (s dt t : R) (b : Boat),
    b_speed b = #s -> (-3 <= s <= 14)%R -> targetThrottle b = #0 ->
    (0 <= dt <= 2 / 7)%R ->
    exists v : R,
      b_speed (updateBoat slerp #dt #t b) = #v
      /\ (v = s * (1 - 0.25 * Rabs s * dt))%R
      /\ (Rabs v <= Rabs s)%R /\ (0 <= s * v)%R.
Proof.
  intros slerp s dt t b Hs Hb Hth Hdt.
  rewrite updateBoat_speed. unfold next_speed, clamp, ACCEL, DRAG, MAX_REV, MAX_FWD.
  rewrite Hs, Hth. cbn [add sub mul neg lift1 lift2 Math_abs Math_min Math_max].
  set (f := (1 - 0.25 * Rabs s * dt)%R).
  assert (Ha : (0 <= Rabs s <= 14)%R).
  { split; [apply Rabs_pos |]. unfold Rabs. destruct (Rcase_abs s); lra. }
  assert (Hf : (0 <= f <= 1)%R) by (unfold f; nra).
  assert (E : (s + 7 * 0 * dt
               - 0.25 * (s + 7 * 0 * dt) * Rabs (s + 7 * 0 * dt) * dt
               = s * f)%R).
  { replace (s + 7 * 0 * dt)%R with s by ring. unfold f. ring. }
  rewrite E.
  assert (Hv : (-3 <= s * f <= 14)%R) by nra.
  rewrite Rmin_right by lra.
  rewrite Rmax_right by lra.
  exists (s * f)%R. split; [reflexivity |]. split; [reflexivity |]. split.
  - rewrite Rabs_mult, (Rabs_right f) by lra. nra.
  - nra.
Qed.

Lemma coasting_never_speeds_up_or_reverses_witness :
  exists v : R,
    b_speed (updateBoat (fun q _ _ => q) #0.016 #1
               (mkBoat #14 #0 #0 #0 (mkV3 #0 #0 #0) (mkQ #0 #0 #0 #1) true)) = #v
    /\ (v = 14 * (1 - 0.25 * Rabs 14 * 0.016))%R
    /\ (Rabs v <= Rabs 14)%R /\ (0 <= 14 * v)%R.
Proof.
  apply coasting_never_speeds_up_or_reverses; try reflexivity; lra.
Defined.

End BoatMotion.

(** ** Space Runner: selection *)

Section SelectionMore.
Import SpaceRunner Notions MoreNotions.
Local Open Scope R_scope.

Lemma filter_selected_deselect (us : list Unit) :
  List.filter selected (map deselect us) = [].
Proof. induction us as [| u us IH]; simpl; auto. Qed.

(** X6.  A click (no drag) that hits no unit: without Shift the selection
    is cleared, nothing is selected afterwards and one [selection:changed]
    event with count 0 is emitted; with Shift neither the units nor the
    events change. *)
Theorem click_on_empty_ground_clears_unless_shift :
  forall pickGround pickUnit projectToScreen (e : MouseEvent) (g : Game),
    button e = 0%nat ->
    ~ 5 < Math_hypot (clientX e - fst (dragStart g))
                     (clientY e - snd (dragStart g)) ->
    pickUnit (clientX e) (clientY e) (units g) = None ->
    let g' := onMouseUp pickGround pickUnit projectToScreen e g in
    dragging g' = false
    /\ if shiftKey e
       then units g' = units g /\ events g' = events g
       else units g' = map deselect (units g)
            /\ List.filter selected (units g') = []
            /\ map movement_state (units g') = map movement_state (units g)
            /\ events g' = events g ++ [SelectionChanged 0].
Proof.
  intros pickGround pickUnit projectToScreen e g Hb Hm Hp g'. subst g'.
  unfold onMouseUp. rewrite Hb. cbn [Nat.eqb].
  assert (E : Rltb 5 (Math_hypot (clientX e - fst (dragStart g))
                                 (clientY e - snd (dragStart g))) = false).
  { destruct (Rltb _ _) eqn:E; [| reflexivity].
    apply Rltb_true_iff in E. contradiction. }
  rewrite E. cbn [negb hide_selection units]. rewrite Hp.
  split; [reflexivity |].
  destruct (shiftKey e); cbn [negb end_drag units events clearSelection emit with_units].
  - split; reflexivity.
  - split; [reflexivity |]. split; [apply filter_selected_deselect |].
    split; [| reflexivity].
    rewrite map_map. reflexivity.
Qed.

Lemma click_on_empty_ground_clears_unless_shift_witness :
  let g' := onMouseUp fixture_pickGround fixture_pickUnit fixture_project
                      (mkMouse 0 1 1 false) fixture_all_selected in
  dragging g' = false
  /\ units g' = map deselect (units fixture_all_selected)
  /\ List.filter selected (units g') = []
  /\ map movement_state (units g')
     = map movement_state (units fixture_all_selected)
  /\ events g' = events fixture_all_selected ++ [SelectionChanged 0].
Proof.
  apply (click_on_empty_ground_clears_unless_shift
           fixture_pickGround fixture_pickUnit fixture_project
           (mkMouse 0 1 1 false) fixture_all_selected eq_refl).
  - intros H. apply (Rlt_irrefl 5). eapply Rlt_trans; [exact H |].
    unfold Math_hypot.
    change (clientX (mkMouse 0 1 1 false)) with 1.
    change (clientY (mkMouse 0 1 1 false)) with 1.
    change (fst (dragStart fixture_all_selected)) with 0.
    change (snd (dragStart fixture_all_selected)) with 0.
    replace ((1 - 0) * (1 - 0) + (1 - 0) * (1 - 0)) with 2 by ring.
    rewrite <- (sqrt_square 5) by lra. apply sqrt_lt_1_alt. lra.
  - reflexivity.
Defined.

(** X7.  An additive application ([additive = true]) never deselects: a
    unit is selected afterwards exactly when it was selected or matches the
    filter.  It emits one event only, and the count it carries is the
    number of units matching the filter, which is at most (not always equal
    to) the number of units selected afterwards. *)
Theorem additive_selection_unions_and_counts_matches :
  forall (filter : Unit -> bool) (g : Game),
    let g' := applySelectionFilter filter true g in
    units g' = map (chosen filter) (units g)
    /\ map selected (units g')
       = map (fun u => selected u || filter u) (units g)
    /\ events g' = events g
                   ++ [SelectionChanged (length (List.filter filter (units g)))]
    /\ (length (List.filter filter (units g))
        <= length (List.filter selected (units g')))%nat.
Proof.
  intros filter g g'. subst g'.
  assert (Hu : units (applySelectionFilter filter true g)
               = map (chosen filter) (units g))
    by apply (applySelectionFilter_units_gen filter true g).
  rewrite Hu. clear Hu. split; [reflexivity |]. split; [| split].
  - rewrite map_map. apply map_ext. intros u. unfold chosen.
    destruct (filter u); [rewrite orb_true_r | rewrite orb_false_r]; reflexivity.
  - unfold applySelectionFilter. rewrite select_loop. reflexivity.
  - induction (units g) as [| u us IH]; simpl; [lia |].
    unfold chosen at 1. destruct (filter u) eqn:E; simpl.
    + lia.
    + destruct (selected u); simpl; lia.
Qed.

(** X8.  Selecting never moves or re-targets a unit: [clearSelection] and
    [applySelectionFilter], additive or not, keep every unit's id, position,
    target, speed and [hadTarget] flag, and keep the order markers. *)
Theorem selection_leaves_movement_state_alone :
  forall (filter : Unit -> bool) (additive : bool) (g : Game),
    map movement_state (units (applySelectionFilter filter additive g))
    = map movement_state (units g)
    /\ markers (applySelectionFilter filter additive g) = markers g
    /\ map movement_state (units (clearSelection g))
       = map movement_state (units g)
    /\ markers (clearSelection g) = markers g.
Proof.
  intros filter additive g.
  assert (Hc : forall us, map movement_state (map (chosen filter) us)
                          = map movement_state us).
  { intros us. rewrite map_map. apply map_ext. intros u. unfold chosen.
    destruct (filter u); reflexivity. }
  assert (Hd : forall us, map movement_state (map deselect us)
                          = map movement_state us).
  { intros us. rewrite map_map. reflexivity. }
  split; [| split; [| split]].
  - rewrite applySelectionFilter_units_gen, Hc.
    destruct additive; [reflexivity | apply Hd].
  - unfold applySelectionFilter.
    destruct additive; rewrite select_loop; reflexivity.
  - apply Hd.
  - reflexivity.
Qed.

End SelectionMore.

(** ** Space Runner: move commands *)

Section CommandMore.
Import SpaceRunner Notions MoreNotions.
Local Open Scope R_scope.

Lemma assignTargets_keeps (p : Vector3) (offs : list Vector3) (k : nat)
    (us : list Unit) :
  map id (assignTargets p offs k us) = map id us
  /\ map position (assignTargets p offs k us) = map position us
  /\ map selected (assignTargets p offs k us) = map selected us
  /\ map speed (assignTargets p offs k us) = map speed us.
Proof.
  revert k. induction us as [| u us IH]; intros k; simpl.
  - repeat split.
  - destruct (selected u) eqn:E; simpl;
      [destruct (IH (S k)) as (A & B & C & D)
      | destruct (IH k) as (A & B & C & D)];
      rewrite A, B, C, D, ?E; repeat split.
Qed.

(** X9.  A right click that misses the ground, or one made while no unit is
    selected, changes nothing: no target, no marker, no event. *)
Theorem move_command_without_ground_or_selection_does_nothing :
  forall pickGround (e : MouseEvent) (g : Game),
    pickGround (clientX e) (clientY e) = None
    \/ List.filter selected (units g) = [] ->
    onContextMenu pickGround e g = g.
Proof.
  intros pickGround e g H. unfold onContextMenu.
  destruct (pickGround (clientX e) (clientY e)) as [p |]; [| reflexivity].
  destruct H as [H | H]; [discriminate |].
  rewrite H. reflexivity.
Qed.

Lemma move_command_without_ground_or_selection_does_nothing_witness :
  onContextMenu (fun _ _ => Some zero3) (mkMouse 2 0 0 false)
                (with_units init [unitA; unitB; unitC])
  = with_units init [unitA; unitB; unitC].
Proof.
  apply (move_command_without_ground_or_selection_does_nothing
           (fun _ _ => Some zero3) (mkMouse 2 0 0 false)
           (with_units init [unitA; unitB; unitC])).
  right. reflexivity.
Defined.

(** X10.  A move command that hits the ground at [p] with a unit selected
    leaves one order marker at [(p.x, 0.03, p.z)] with a lifetime of one
    second after the markers already there, and moves, selects, deselects,
    adds or removes no unit: positions change in the movement step only. *)
Theorem move_command_marks_the_point_and_moves_nothing :
  forall pickGround (e : MouseEvent) (g : Game) (p : Vector3),
    pickGround (clientX e) (clientY e) = Some p ->
    List.filter selected (units g) <> [] ->
    let g' := onContextMenu pickGround e g in
    markers g' = markers g ++ [mkMarker (mkV (x p) 0.03 (z p)) 1]
    /\ map id (units g') = map id (units g)
    /\ map position (units g') = map position (units g)
    /\ map selected (units g') = map selected (units g)
    /\ map speed (units g') = map speed (units g).
Proof.
  intros pickGround e g p Hp Hs g'. subst g'.
  rewrite (onContextMenu_hit pickGround e g p Hp).
  2: { destruct (List.filter selected (units g)); [congruence | simpl; lia]. }
  cbn [emit spawnOrderMarker with_units markers units].
  split; [reflexivity |]. apply assignTargets_keeps.
Qed.

Lemma move_command_marks_the_point_and_moves_nothing_witness :
  let g := with_units init [select unitA; unitB] in
  let g' := onContextMenu (fun _ _ => Some zero3) (mkMouse 2 0 0 false) g in
  markers g' = markers g ++ [mkMarker (mkV (x zero3) 0.03 (z zero3)) 1]
  /\ map id (units g') = map id (units g)
  /\ map position (units g') = map position (units g)
  /\ map selected (units g') = map selected (units g)
  /\ map speed (units g') = map speed (units g).
Proof.
  apply (move_command_marks_the_point_and_moves_nothing
           (fun _ _ => Some zero3) (mkMouse 2 0 0 false)
           (with_units init [select unitA; unitB]) zero3 eq_refl).
  discriminate.
Defined.

Lemma grid_index_bounds (n i : nat) :
  (i < n)%nat ->
  0 <= INR (i mod Nat.sqrt_up n) <= INR (Nat.sqrt_up n) - 1
  /\ 0 <= INR (i / Nat.sqrt_up n) <= INR (Nat.sqrt_up n) - 1.
Proof.
  intros Hi.
  assert (Hs : (0 < Nat.sqrt_up n)%nat) by (apply sqrt_up_pos; lia).
  assert (Hn : (n <= Nat.sqrt_up n * Nat.sqrt_up n)%nat)
    by (apply Nat.sqrt_up_spec; lia).
  assert (Hm : (i mod Nat.sqrt_up n <= Nat.sqrt_up n - 1)%nat).
  { pose proof (Nat.mod_upper_bound i (Nat.sqrt_up n)). lia. }
  assert (Hd : (i / Nat.sqrt_up n <= Nat.sqrt_up n - 1)%nat).
  { assert (i / Nat.sqrt_up n < Nat.sqrt_up n)%nat
      by (apply Nat.Div0.div_lt_upper_bound; lia).
    lia. }
  assert (E : INR (Nat.sqrt_up n) - 1 = INR (Nat.sqrt_up n - 1)).
  { rewrite minus_INR by lia. reflexivity. }
  rewrite E. repeat split; try apply pos_INR; apply le_INR; assumption.
Qed.

(** X11.  [formationOffsets n] has exactly [n] offsets, all in the ground
    plane and inside the square of half-width [(side - 1) / 2 * 1.4] centred
    on the clicked point, with [side = ceil (sqrt n)]. *)
Theorem formation_offsets_fill_a_centred_square :
  forall n : nat,
    let side := Math_ceil (sqrt (INR n)) in
    length (formationOffsets n) = n
    /\ Forall (fun off =>
                 y off = 0
                 /\ Rabs (x off) <= (side - 1) * 0.5 * spacing
                 /\ Rabs (z off) <= (side - 1) * 0.5 * spacing)
              (formationOffsets n).
Proof.
  intros n side. subst side. split.
  - unfold formationOffsets. rewrite length_map, length_seq. reflexivity.
  - rewrite formationOffsets_grid, ceil_sqrt_nat.
    apply List.Forall_forall. intros off Hin.
    apply in_map_iff in Hin. destruct Hin as (i & <- & Hi).
    apply in_seq in Hi.
    destruct (grid_index_bounds n i) as ((c0 & c1) & (r0 & r1)); [lia |].
    unfold grid_offset, spacing. cbn [x y z].
    split; [reflexivity |].
    split; apply Rabs_le; lra.
Qed.

End CommandMore.

(** ** Space Runner: movement *)

Section MovementMore.
Import SpaceRunner Notions MoreNotions.
Local Open Scope R_scope.

Lemma Rltb_false_iff (a b : R) : Rltb a b = false <-> ~ a < b.
Proof.
  unfold Rltb. destruct (Rlt_dec a b); split; intros H;
    try discriminate; try contradiction; auto.
Qed.

(** One step of length [a] from [p] along the ground towards [tg]. *)
Lemma step_towards (p tg : Vector3) (a : R) :
  v_length (setY (v_sub tg p) 0) <> 0 ->
  v_length (setY (v_sub tg (addScaledVector p
                              (normalize (setY (v_sub tg p) 0)) a)) 0)
  = Rabs (v_length (setY (v_sub tg p) 0) - a).
Proof.
  destruct p as [px py pz], tg as [tx ty tz].
  unfold normalize.
  set (d := v_length (setY (v_sub (mkV tx ty tz) (mkV px py pz)) 0)).
  intros Hd. destruct (Req_dec_T d 0) as [C | _]; [contradiction |].
  assert (Hsq : d * d = (tx - px) * (tx - px) + 0 * 0 + (tz - pz) * (tz - pz)).
  { unfold d, v_length, setY, v_sub. cbn [x y z]. apply sqrt_sqrt.
    pose proof (Rle_0_sqr (tx - px)) as H1.
    pose proof (Rle_0_sqr (tz - pz)) as H2. unfold Rsqr in H1, H2. lra. }
  unfold v_length at 1.
  unfold setY, v_sub, addScaledVector, multiplyScalar. cbn [x y z].
  rewrite <- sqrt_Rsqr_abs. f_equal. unfold Rsqr.
  replace (tx - (px + (tx - px) * (1 / d) * a))
    with ((tx - px) * ((d - a) / d)) by (field; exact Hd).
  replace (tz - (pz + (tz - pz) * (1 / d) * a))
    with ((tz - pz) * ((d - a) / d)) by (field; exact Hd).
  transitivity ((d * d) * ((d - a) / d) * ((d - a) / d)).
  - rewrite Hsq. ring.
  - field. exact Hd.
Qed.

Lemma seek_far (dt : R) (u : Unit) (tg : Vector3) :
  target u = Some tg -> ~ remaining u tg < 0.12 ->
  remaining (settle dt u) tg = Rabs (remaining u tg - speed u * dt)
  /\ speed (settle dt u) = speed u
  /\ y (position (settle dt u)) = y (position u).
Proof.
  intros Ht Hd. unfold settle, seek. rewrite Ht.
  assert (E : Rltb (v_length (setY (v_sub tg (position u)) 0)) 0.12 = false)
    by (apply Rltb_false_iff; exact Hd).
  rewrite E. cbn [fst]. unfold remaining in *. cbn [with_position position speed].
  split; [| split; [reflexivity |]].
  - apply step_towards. lra.
  - unfold addScaledVector, normalize, multiplyScalar, setY. cbn [x y z]. ring.
Qed.

Lemma seek_standing (dt : R) (u : Unit) : standing (settle dt u) = standing u.
Proof.
  unfold settle, seek. destruct (target u) as [tg |]; [| reflexivity].
  destruct (Rltb _ _).
  - destruct (hadTarget u); reflexivity.
  - unfold standing. cbn [fst with_position id material ringVisible speed
                          selected position].
    f_equal. unfold addScaledVector, normalize, multiplyScalar, setY.
    cbn [x y z]. ring.
Qed.

Lemma sep_loop_level (i : nat) (u : Unit) (l : list Unit) (sep : Vector3)
    (k : nat) :
  y sep = 0 -> y (fst (fold_left (sep_step i u) l (sep, k))) = 0.
Proof.
  revert sep k. induction l as [| v l IH]; intros sep k H; [exact H |].
  cbn [fold_left]. unfold sep_step at 2.
  destruct (i =? k)%nat; [apply IH; exact H |].
  destruct (_ && _); [| apply IH; exact H].
  apply IH. unfold v_add, normalize, multiplyScalar, setY. cbn [x y z].
  rewrite H. ring.
Qed.

Lemma pushed_standing (dt : R) (us : list Unit) (i : nat) (u : Unit) :
  standing (pushed dt us i u) = standing u.
Proof.
  unfold pushed, standing.
  cbn [with_position id material ringVisible speed selected position].
  f_equal. unfold addScaledVector. cbn [y].
  assert (H : y (separation us i u) = 0)
    by (apply sep_loop_level; reflexivity).
  rewrite H. ring.
Qed.

Lemma map_insert_same {A B : Type} (f : A -> B) (l : list A) (i : nat)
    (a b : A) :
  l !! i = Some a -> f b = f a -> map f (<[i := b]> l) = map f l.
Proof.
  revert i. induction l as [| c l IH]; intros i Hi E; [reflexivity |].
  destruct i as [| i]; simpl in *.
  - injection Hi as ->. rewrite E. reflexivity.
  - rewrite (IH i Hi E). reflexivity.
Qed.

Lemma loop_standing (dt : R) (us : list Unit) (k : nat) :
  (k <= length us)%nat ->
  map standing (fst (fold_left (unit_step dt) (seq 0 k) (us, [])))
  = map standing us.
Proof.
  induction k as [| k IH]; intros Hk; [reflexivity |].
  rewrite seq_S, fold_left_app. cbn [fold_left Nat.add].
  specialize (IH ltac:(lia)).
  destruct (loop_invariant dt us k ltac:(lia)) as (Hlen & _).
  destruct (fold_left (unit_step dt) (seq 0 k) (us, [])) as [cur evs].
  cbn [fst] in *.
  destruct (lookup_lt_is_Some_2 cur k ltac:(lia)) as (u & Hu).
  rewrite (unit_step_eq dt cur evs k u Hu). cbn [fst].
  rewrite (map_insert_same standing cur k u _ Hu); [exact IH |].
  fold (settle dt (pushed dt cur k u)).
  rewrite seek_standing. apply pushed_standing.
Qed.

(** X12.  The movement step and a whole frame add or remove no unit and
    change nothing of a unit but its position on the ground, its target and
    its [hadTarget] flag: ids, materials, rings, speeds, selection and
    heights stay; the movement step leaves the markers alone. *)
Theorem movement_keeps_identity_selection_and_height :
  forall (dt : R) (g : Game),
    map standing (units (updateUnits dt g)) = map standing (units g)
    /\ markers (updateUnits dt g) = markers g
    /\ map standing (units (tick dt g)) = map standing (units g).
Proof.
  intros dt g.
  assert (H : map standing (units (updateUnits dt g)) = map standing (units g)).
  { unfold updateUnits.
    pose proof (loop_standing dt (units g) (length (units g)) (Nat.le_refl _)) as H.
    fold (updateUnits_loop dt (units g)) in H.
    destruct (updateUnits_loop dt (units g)) as [us out]. exact H. }
  assert (M : markers (updateUnits dt g) = markers g).
  { unfold updateUnits. destruct (updateUnits_loop dt (units g)). reflexivity. }
  split; [exact H |]. split; [exact M |].
  unfold tick. destruct (running g); [exact H | reflexivity].
Qed.

Lemma lone_tick (dt : R) (g : Game) (u : Unit) :
  running g = true -> units g = [u] ->
  units (tick dt g) = [settle dt u]
  /\ events (tick dt g) = events g ++ reports dt u
  /\ running (tick dt g) = true.
Proof.
  intros Hr Hu. unfold tick. rewrite Hr.
  assert (E : updateUnits_loop dt (units g) = ([settle dt u], reports dt u)).
  { rewrite Hu. unfold updateUnits_loop. cbn [length seq fold_left].
    rewrite (unit_step_eq dt [u] [] 0 u eq_refl).
    assert (P : pushed dt [u] 0 u = u) by apply pushed_nowhere.
    rewrite P. reflexivity. }
  unfold updateUnits. rewrite E.
  cbn [updateMarkers units events running]. auto.
Qed.

Lemma lone_arrived_stays (dt : R) (n : nat) (g : Game) (u : Unit) :
  running g = true -> units g = [u] -> target u = None ->
  units (frames dt n g) = [u] /\ events (frames dt n g) = events g.
Proof.
  revert g. induction n as [| n IH]; intros g Hr Hu Ht; [auto |].
  destruct (lone_tick dt g u Hr Hu) as (U & E & R1).
  unfold settle in U. unfold reports in E.
  rewrite (seek_no_target dt u Ht) in U, E. cbn [fst snd] in U, E.
  rewrite app_nil_r in E.
  cbn [frames]. destruct (IH (tick dt g) R1 U Ht) as (U2 & E2).
  rewrite U2, E2, E. auto.
Qed.

Lemma remaining_east (a : R) : 0 <= a -> remaining (sent_east a) (mkV a 0 0) = a.
Proof.
  intros Ha. unfold remaining, sent_east, command, v_length, setY, v_sub, zero3.
  cbn [position x y z].
  replace ((a - 0) * (a - 0) + 0 * 0 + (0 - 0) * (0 - 0)) with (a * a) by ring.
  apply sqrt_square. exact Ha.
Qed.

(** X13.  One frame of a lone unit that is not yet within 0.12 of its
    target: it keeps the target, emits nothing, and its ground distance to
    the target becomes [|distance - speed * dt|]; the step is not capped at
    the target, so a step longer than the distance carries the unit past
    it. *)
Theorem lone_unit_steps_by_speed_times_dt :
  forall (dt : R) (g : Game) (u : Unit) (tg : Vector3),
    running g = true -> units g = [u] ->
    target u = Some tg -> 0.12 <= remaining u tg ->
    exists u' : Unit,
      units (tick dt g) = [u']
      /\ target u' = Some tg
      /\ remaining u' tg = Rabs (remaining u tg - speed u * dt)
      /\ events (tick dt g) = events g.
Proof.
  intros dt g u tg Hr Hu Ht Hd.
  destruct (lone_tick dt g u Hr Hu) as (U & E & _).
  assert (Hn : ~ remaining u tg < 0.12) by lra.
  destruct (seek_move dt u tg Ht Hn) as (T & _ & _ & Ev).
  destruct (seek_far dt u tg Ht Hn) as (D & _).
  exists (settle dt u). split; [exact U |]. split; [exact T |].
  split; [exact D |].
  rewrite E. unfold reports. rewrite Ev. apply app_nil_r.
Qed.

Lemma lone_unit_steps_by_speed_times_dt_witness :
  exists u' : Unit,
    units (tick 0.1 (lone_game (sent_east 1))) = [u']
    /\ target u' = Some (mkV 1 0 0)
    /\ remaining u' (mkV 1 0 0)
       = Rabs (remaining (sent_east 1) (mkV 1 0 0) - speed (sent_east 1) * 0.1)
    /\ events (tick 0.1 (lone_game (sent_east 1)))
       = events (lone_game (sent_east 1)).
Proof.
  apply (lone_unit_steps_by_speed_times_dt 0.1 (lone_game (sent_east 1))
           (sent_east 1) (mkV 1 0 0) eq_refl eq_refl eq_refl).
  rewrite remaining_east; lra.
Defined.

Lemma lone_arrival (dt : R) (tg : Vector3) (s : R) (n : nat) :
  0 < s * dt < 0.24 ->
  forall (g : Game) (u : Unit),
    running g = true -> units g = [u] ->
    target u = Some tg -> hadTarget u = true -> speed u = s ->
    remaining u tg < 0.12 + INR n * (s * dt) ->
    exists u' : Unit,
      units (frames dt (S n) g) = [u']
      /\ target u' = None /\ hadTarget u' = false
      /\ remaining u' tg < 0.12
      /\ events (frames dt (S n) g)
         = events g ++ [UnitArrived (id u) (x (position u')) (z (position u'))].
Proof.
  intros Hstep.
  assert (Arr : forall m (g : Game) (u : Unit),
             running g = true -> units g = [u] ->
             target u = Some tg -> hadTarget u = true ->
             remaining u tg < 0.12 ->
             exists u' : Unit,
               units (frames dt (S m) g) = [u']
               /\ target u' = None /\ hadTarget u' = false
               /\ remaining u' tg < 0.12
               /\ events (frames dt (S m) g)
                  = events g
                    ++ [UnitArrived (id u) (x (position u')) (z (position u'))]).
  { intros m g u Hr Hu Ht Hh Hd.
    destruct (lone_tick dt g u Hr Hu) as (U & E & R1).
    pose proof (seek_arrive dt u tg Ht Hd) as (T & H & I & Ev).
    rewrite Hh in Ev. fold (settle dt u) in T, H, I. fold (reports dt u) in Ev.
    assert (P : position (settle dt u) = position u).
    { unfold settle, seek. rewrite Ht.
      apply Rltb_true_iff in Hd. unfold remaining in Hd. rewrite Hd, Hh.
      reflexivity. }
    destruct (lone_arrived_stays dt m (tick dt g) (settle dt u) R1 U T)
      as (U2 & E2).
    exists (settle dt u). cbn [frames]. rewrite U2, E2, E, Ev, P.
    repeat split; auto.
    unfold remaining. rewrite P. exact Hd. }
  induction n as [| n IH]; intros g u Hr Hu Ht Hh Hs Hd.
  - apply Arr; auto. simpl in Hd. lra.
  - destruct (Rlt_dec (remaining u tg) 0.12) as [Hc | Hf];
      [apply Arr; auto |].
    destruct (lone_tick dt g u Hr Hu) as (U & E & R1).
    destruct (seek_move dt u tg Ht Hf) as (T & H & I & Ev).
    destruct (seek_far dt u tg Ht Hf) as (D & S1 & _).
    fold (settle dt u) in T, H, I. fold (reports dt u) in Ev.
    rewrite Ev, app_nil_r in E. rewrite Hs in D.
    assert (Hd1 : remaining (settle dt u) tg < 0.12 + INR n * (s * dt)).
    { rewrite D. rewrite S_INR in Hd.
      assert (0 <= INR n * (s * dt))
        by (apply Rmult_le_pos; [apply pos_INR | lra]).
      unfold Rabs. destruct (Rcase_abs _); lra. }
    destruct (IH (tick dt g) (settle dt u) R1 U T) as (u' & A);
      [congruence | congruence | exact Hd1 |].
    exists u'. cbn [frames]. rewrite E, I in A. exact A.
Qed.

(** X14.  A lone commanded unit whose step [speed * dt] is positive and
    below 0.24 (twice the arrival radius) does arrive: from a ground
    distance below [0.12 + n * speed * dt] it has no target after [n + 1]
    frames, stands within 0.12 of the target, and the frames have emitted
    exactly one event, its [unit:arrived] with its final position. *)
Theorem lone_unit_arrives_when_step_is_short :
  forall (dt : R) (n : nat) (g : Game) (u : Unit) (tg : Vector3),
    running g = true -> units g = [u] ->
    target u = Some tg -> hadTarget u = true ->
    0 < speed u * dt < 0.24 ->
    remaining u tg < 0.12 + INR n * (speed u * dt) ->
    exists u' : Unit,
      units (frames dt (S n) g) = [u']
      /\ target u' = None /\ hadTarget u' = false
      /\ remaining u' tg < 0.12
      /\ events (frames dt (S n) g)
         = events g ++ [UnitArrived (id u) (x (position u')) (z (position u'))].
Proof.
  intros dt n g u tg Hr Hu Ht Hh Hstep Hd.
  apply (lone_arrival dt tg (speed u) n Hstep g u); auto.
Qed.

Lemma lone_unit_arrives_when_step_is_short_witness :
  exists u' : Unit,
    units (frames 0.02 9 (lone_game (sent_east 1))) = [u']
    /\ target u' = None /\ hadTarget u' = false
    /\ remaining u' (mkV 1 0 0) < 0.12
    /\ events (frames 0.02 9 (lone_game (sent_east 1)))
       = events (lone_game (sent_east 1))
         ++ [UnitArrived (id (sent_east 1)) (x (position u')) (z (position u'))].
Proof.
  apply (lone_unit_arrives_when_step_is_short 0.02 8 (lone_game (sent_east 1))
           (sent_east 1) (mkV 1 0 0) eq_refl eq_refl eq_refl eq_refl).
  - change (speed (sent_east 1)) with 6. lra.
  - rewrite remaining_east by lra. change (speed (sent_east 1)) with 6.
    change (INR 8) with (1 + 1 + 1 + 1 + 1 + 1 + 1 + 1). lra.
Defined.

Lemma lone_overshoot (dt : R) (tg : Vector3) (s r : R) (n : nat) :
  forall (g : Game) (u : Unit),
    running g = true -> units g = [u] ->
    target u = Some tg -> speed u = s ->
    remaining u tg = r -> 0.12 <= r <= s * dt - 0.12 ->
    exists u' : Unit,
      units (frames dt n g) = [u']
      /\ target u' = Some tg
      /\ remaining u' tg = (if Nat.even n then r else s * dt - r)
      /\ events (frames dt n g) = events g.
Proof.
  revert r. induction n as [| n IH]; intros r g u Hr Hu Ht Hs Hd Hb.
  - exists u. cbn [frames Nat.even]. auto.
  - destruct (lone_tick dt g u Hr Hu) as (U & E & R1).
    assert (Hf : ~ remaining u tg < 0.12) by lra.
    destruct (seek_move dt u tg Ht Hf) as (T & _ & _ & Ev).
    destruct (seek_far dt u tg Ht Hf) as (D & S1 & _).
    fold (settle dt u) in T. fold (reports dt u) in Ev.
    rewrite Ev, app_nil_r in E. rewrite Hs, Hd in D.
    assert (D1 : remaining (settle dt u) tg = s * dt - r).
    { rewrite D. unfold Rabs. destruct (Rcase_abs _); lra. }
    destruct (IH (s * dt - r) (tick dt g) (settle dt u) R1 U T)
      as (u' & U' & T' & D' & E'); [congruence | exact D1 | lra |].
    exists u'. cbn [frames]. rewrite U', T', E', E.
    repeat split; auto.
    rewrite D', Nat.even_succ, <- Nat.negb_even.
    destruct (Nat.even n); cbn [negb]; [reflexivity | ring].
Qed.

(** X15.  With a long step the same unit never arrives: if its ground
    distance [r] to the target satisfies [0.12 <= r <= speed * dt - 0.12]
    (possible once [speed * dt >= 0.24]), then after any number of frames
    it still has its target, no event has been emitted, and it stands at
    distance [r] or [speed * dt - r], jumping across the target on every
    frame. *)
Theorem lone_unit_jumps_across_its_target_forever :
  forall (dt : R) (n : nat) (g : Game) (u : Unit) (tg : Vector3),
    running g = true -> units g = [u] ->
    target u = Some tg ->
    0.12 <= remaining u tg <= speed u * dt - 0.12 ->
    exists u' : Unit,
      units (frames dt n g) = [u']
      /\ target u' = Some tg
      /\ remaining u' tg
         = (if Nat.even n then remaining u tg
            else speed u * dt - remaining u tg)
      /\ 0.12 <= remaining u' tg
      /\ events (frames dt n g) = events g.
Proof.
  intros dt n g u tg Hr Hu Ht Hb.
  destruct (lone_overshoot dt tg (speed u) (remaining u tg) n g u
              Hr Hu Ht eq_refl eq_refl Hb) as (u' & U & T & D & E).
  exists u'. repeat split; auto.
  rewrite D. destruct (Nat.even n); lra.
Qed.

Lemma lone_unit_jumps_across_its_target_forever_witness :
  exists u' : Unit,
    units (frames 0.1 7 (lone_game (sent_east 0.3))) = [u']
    /\ target u' = Some (mkV 0.3 0 0)
    /\ remaining u' (mkV 0.3 0 0)
       = (if Nat.even 7 then remaining (sent_east 0.3) (mkV 0.3 0 0)
          else speed (sent_east 0.3) * 0.1
               - remaining (sent_east 0.3) (mkV 0.3 0 0))
    /\ 0.12 <= remaining u' (mkV 0.3 0 0)
    /\ events (frames 0.1 7 (lone_game (sent_east 0.3)))
       = events (lone_game (sent_east 0.3)).
Proof.
  apply (lone_unit_jumps_across_its_target_forever 0.1 7
           (lone_game (sent_east 0.3)) (sent_east 0.3) (mkV 0.3 0 0)
           eq_refl eq_refl eq_refl).
  rewrite remaining_east by lra. change (speed (sent_east 0.3)) with 6. lra.
Defined.

End MovementMore.

(** ** Space Runner: separation *)

Section SeparationMore.
Import SpaceRunner Notions MoreNotions.
Local Open Scope R_scope.

Lemma distanceTo_sym (p q : Vector3) : distanceTo p q = distanceTo q p.
Proof. unfold distanceTo. f_equal. ring. Qed.

Lemma addScaledVector_zero (p : Vector3) (dt : R) :
  addScaledVector p zero3 dt = p.
Proof.
  destruct p as [px py pz]. unfold addScaledVector, zero3. cbn [x y z].
  f_equal; ring.
Qed.

(** The push of the separation rule for one neighbour [q], of strength [k],
    applied for [dt]: the distance to [q] grows by [k * dt]. *)
Lemma push_apart (p q : Vector3) (k dt : R) :
  y p = y q -> distanceTo p q <> 0 -> 0 <= k * dt ->
  distanceTo
    (addScaledVector p
       (v_add zero3 (multiplyScalar (normalize (setY (v_sub p q) 0)) k)) dt) q
  = distanceTo p q + k * dt.
Proof.
  destruct p as [px py pz], q as [qx qy qz]. cbn [y]. intros <- Hd Hk.
  assert (El : v_length (setY (v_sub (mkV px py pz) (mkV qx py qz)) 0)
               = distanceTo (mkV px py pz) (mkV qx py qz)).
  { unfold v_length, distanceTo, setY, v_sub. cbn [x y z]. f_equal. ring. }
  unfold normalize. rewrite El.
  set (d := distanceTo (mkV px py pz) (mkV qx py qz)) in *.
  destruct (Req_dec_T d 0) as [C | _]; [contradiction |].
  assert (Hsq : d * d = (px - qx) * (px - qx) + (pz - qz) * (pz - qz)).
  { unfold d, distanceTo. cbn [x y z].
    rewrite sqrt_sqrt; [ring |].
    pose proof (Rle_0_sqr (px - qx)) as H1.
    pose proof (Rle_0_sqr (py - py)) as H2.
    pose proof (Rle_0_sqr (pz - qz)) as H3. unfold Rsqr in H1, H2, H3. lra. }
  assert (Hpos : 0 <= d) by (unfold d, distanceTo; apply sqrt_pos).
  unfold distanceTo at 1.
  unfold setY, v_sub, v_add, addScaledVector, multiplyScalar, zero3.
  cbn [x y z].
  rewrite <- (sqrt_square (d + k * dt)) by lra. f_equal.
  replace (px + (0 + (px - qx) * (1 / d) * k) * dt - qx)
    with ((px - qx) * ((d + k * dt) / d)) by (field; exact Hd).
  replace (pz + (0 + (pz - qz) * (1 / d) * k) * dt - qz)
    with ((pz - qz) * ((d + k * dt) / d)) by (field; exact Hd).
  replace (py + (0 + 0 * (1 / d) * k) * dt - py) with 0 by ring.
  transitivity ((d * d) * ((d + k * dt) / d) * ((d + k * dt) / d)).
  - rewrite Hsq. ring.
  - field. exact Hd.
Qed.

Lemma push_level (p q : Vector3) (k dt : R) :
  y (addScaledVector p
       (v_add zero3 (multiplyScalar (normalize (setY (v_sub p q) 0)) k)) dt)
  = y p.
Proof.
  unfold addScaledVector, v_add, normalize, multiplyScalar, setY, zero3.
  cbn [x y z]. ring.
Qed.

Lemma separation_pair_first (u v : Unit) :
  separation [u; v] 0 u
  = if Rltb 0 (distanceTo (position u) (position v))
       && Rltb (distanceTo (position u) (position v)) sepRadius
    then v_add zero3
           (multiplyScalar
              (normalize (setY (v_sub (position u) (position v)) 0))
              ((sepRadius - distanceTo (position u) (position v)) * 2))
    else zero3.
Proof.
  unfold separation. cbn [fold_left]. unfold sep_step. cbn [Nat.eqb].
  destruct (_ && _); reflexivity.
Qed.

Lemma separation_pair_second (u v : Unit) :
  separation [u; v] 1 v
  = if Rltb 0 (distanceTo (position v) (position u))
       && Rltb (distanceTo (position v) (position u)) sepRadius
    then v_add zero3
           (multiplyScalar
              (normalize (setY (v_sub (position v) (position u)) 0))
              ((sepRadius - distanceTo (position v) (position u)) * 2))
    else zero3.
Proof.
  unfold separation. cbn [fold_left]. unfold sep_step. cbn [Nat.eqb].
  destruct (_ && _); reflexivity.
Qed.

Lemma pair_loop (dt : R) (u v : Unit) :
  target u = None -> target v = None ->
  updateUnits_loop dt [u; v]
  = ([pushed dt [u; v] 0 u; pushed dt [pushed dt [u; v] 0 u; v] 1 v], []).
Proof.
  intros Hu Hv. unfold updateUnits_loop. cbn [length seq fold_left].
  rewrite (unit_step_eq dt [u; v] [] 0 u eq_refl).
  rewrite (seek_no_target dt (pushed dt [u; v] 0 u)) by exact Hu.
  cbn [fst snd app list_insert insert].
  set (u1 := pushed dt [u; v] 0 u).
  rewrite (unit_step_eq dt [u1; v] [] 1 v eq_refl).
  rewrite (seek_no_target dt (pushed dt [u1; v] 1 v)) by exact Hv.
  reflexivity.
Qed.

(** X16.  Two idle units on the same level, closer than 1.2 but not on the
    same point, are pushed apart by a frame with [dt >= 0]: the first moves
    away from the second so that their distance [d] becomes
    [d1 = d + 2 (1.2 - d) dt]; the second then sees the moved first unit and,
    if [d1] is still below 1.2, adds [2 (1.2 - d1) dt].  The distance never
    shrinks, no event is emitted and both stay on their level. *)
Theorem crowded_pair_is_pushed_apart :
  forall (dt : R) (g : Game) (u v : Unit),
    running g = true -> units g = [u; v] ->
    target u = None -> target v = None ->
    y (position u) = y (position v) ->
    0 < distanceTo (position u) (position v) < 1.2 ->
    0 <= dt ->
    exists u' v' : Unit,
      let d := distanceTo (position u) (position v) in
      let d1 := d + (1.2 - d) * 2 * dt in
      units (tick dt g) = [u'; v']
      /\ distanceTo (position u') (position v')
         = (if Rlt_dec d1 1.2 then d1 + (1.2 - d1) * 2 * dt else d1)
      /\ d <= distanceTo (position u') (position v')
      /\ y (position u') = y (position u)
      /\ y (position v') = y (position v)
      /\ events (tick dt g) = events g.
Proof.
  intros dt g u v Hr Hu Tu Tv Hy Hd Hdt.
  set (d := distanceTo (position u) (position v)) in *.
  set (u1 := pushed dt [u; v] 0 u).
  set (v1 := pushed dt [u1; v] 1 v).
  exists u1, v1. cbv zeta.
  assert (Pu : position u1
               = addScaledVector (position u)
                   (v_add zero3
                      (multiplyScalar
                         (normalize (setY (v_sub (position u) (position v)) 0))
                         ((sepRadius - d) * 2))) dt).
  { unfold u1, pushed. cbn [with_position position].
    rewrite separation_pair_first. fold d.
    assert (C : Rltb 0 d && Rltb d sepRadius = true).
    { apply andb_true_iff. split; apply Rltb_true_iff; unfold sepRadius; lra. }
    rewrite C. reflexivity. }
  assert (D1 : distanceTo (position v) (position u1)
               = d + (1.2 - d) * 2 * dt).
  { rewrite distanceTo_sym, Pu. rewrite push_apart.
    - reflexivity.
    - exact Hy.
    - fold d. lra.
    - unfold sepRadius. apply Rmult_le_pos; lra. }
  assert (Yu : y (position u1) = y (position u))
    by (rewrite Pu; apply push_level).
  assert (Hd1 : d <= d + (1.2 - d) * 2 * dt).
  { assert (0 <= (1.2 - d) * 2 * dt) by (apply Rmult_le_pos; lra). lra. }
  assert (Pv : position v1
               = addScaledVector (position v)
                   (if Rlt_dec (d + (1.2 - d) * 2 * dt) 1.2
                    then v_add zero3
                           (multiplyScalar
                              (normalize
                                 (setY (v_sub (position v) (position u1)) 0))
                              ((sepRadius
                                - distanceTo (position v) (position u1)) * 2))
                    else zero3) dt).
  { unfold v1, pushed. cbn [with_position position].
    rewrite separation_pair_second. rewrite D1 at 1 2.
    assert (C0 : Rltb 0 (d + (1.2 - d) * 2 * dt) = true)
      by (apply Rltb_true_iff; lra).
    rewrite C0. cbn [andb]. unfold Rltb, sepRadius.
    destruct (Rlt_dec _ _); reflexivity. }
  assert (E : updateUnits_loop dt (units g) = ([u1; v1], [])).
  { rewrite Hu. apply pair_loop; assumption. }
  assert (U : units (tick dt g) = [u1; v1]).
  { unfold tick. rewrite Hr. unfold updateUnits. rewrite E. reflexivity. }
  assert (Ev : events (tick dt g) = events g).
  { unfold tick. rewrite Hr. unfold updateUnits. rewrite E.
    cbn [updateMarkers events]. apply app_nil_r. }
  assert (Dist : distanceTo (position u1) (position v1)
                 = (if Rlt_dec (d + (1.2 - d) * 2 * dt) 1.2
                    then d + (1.2 - d) * 2 * dt
                         + (1.2 - (d + (1.2 - d) * 2 * dt)) * 2 * dt
                    else d + (1.2 - d) * 2 * dt)).
  { rewrite distanceTo_sym, Pv.
    destruct (Rlt_dec (d + (1.2 - d) * 2 * dt) 1.2) as [L | L].
    - rewrite push_apart.
      + rewrite D1. reflexivity.
      + rewrite Yu. symmetry. exact Hy.
      + rewrite D1. lra.
      + rewrite D1. unfold sepRadius. apply Rmult_le_pos; lra.
    - rewrite addScaledVector_zero. exact D1. }
  split; [exact U |]. split; [exact Dist |]. split; [| split; [| split]].
  - rewrite Dist. destruct (Rlt_dec _ _) as [L | L]; [| exact Hd1].
    assert (0 <= (1.2 - (d + (1.2 - d) * 2 * dt)) * 2 * dt)
      by (apply Rmult_le_pos; lra).
    lra.
  - exact Yu.
  - rewrite Pv. destruct (Rlt_dec _ _).
    + apply push_level.
    + rewrite addScaledVector_zero. reflexivity.
  - exact Ev.
Qed.

Lemma distance_along_x (a b : R) :
  distanceTo (mkV a 0 0) (mkV b 0 0) = Rabs (a - b).
Proof.
  unfold distanceTo. cbn [x y z]. rewrite <- sqrt_Rsqr_abs. f_equal.
  unfold Rsqr. ring.
Qed.

Lemma crowded_pair_is_pushed_apart_witness :
  exists u' v' : Unit,
    let d := distanceTo (position (idle_unit 1 (mkV 0 0 0)))
                        (position (idle_unit 2 (mkV 1 0 0))) in
    let d1 := d + (1.2 - d) * 2 * 0.1 in
    units (tick 0.1 (game_of [idle_unit 1 (mkV 0 0 0);
                              idle_unit 2 (mkV 1 0 0)])) = [u'; v']
    /\ distanceTo (position u') (position v')
       = (if Rlt_dec d1 1.2 then d1 + (1.2 - d1) * 2 * 0.1 else d1)
    /\ d <= distanceTo (position u') (position v')
    /\ y (position u') = y (position (idle_unit 1 (mkV 0 0 0)))
    /\ y (position v') = y (position (idle_unit 2 (mkV 1 0 0)))
    /\ events (tick 0.1 (game_of [idle_unit 1 (mkV 0 0 0);
                                  idle_unit 2 (mkV 1 0 0)]))
       = events (game_of [idle_unit 1 (mkV 0 0 0); idle_unit 2 (mkV 1 0 0)]).
Proof.
  apply (crowded_pair_is_pushed_apart 0.1
           (game_of [idle_unit 1 (mkV 0 0 0); idle_unit 2 (mkV 1 0 0)])
           (idle_unit 1 (mkV 0 0 0)) (idle_unit 2 (mkV 1 0 0))
           eq_refl eq_refl eq_refl eq_refl eq_refl).
  - change (position (idle_unit 1 (mkV 0 0 0))) with (mkV 0 0 0).
    change (position (idle_unit 2 (mkV 1 0 0))) with (mkV 1 0 0).
    rewrite distance_along_x. unfold Rabs. destruct (Rcase_abs _); lra.
  - lra.
Defined.

Lemma sep_loop_none (i : nat) (u : Unit) (l : list Unit) (sep : Vector3)
    (k : nat) :
  (forall j v, l !! j = Some v -> (k + j)%nat <> i ->
               ~ (0 < distanceTo (position u) (position v) < sepRadius)) ->
  fold_left (sep_step i u) l (sep, k) = (sep, (k + length l)%nat).
Proof.
  revert sep k. induction l as [| v l IH]; intros sep k H.
  - simpl. rewrite Nat.add_0_r. reflexivity.
  - cbn [fold_left].
    assert (E : sep_step i u (sep, k) v = (sep, S k)).
    { unfold sep_step. destruct (i =? k)%nat eqn:Eik; [reflexivity |].
      apply Nat.eqb_neq in Eik.
      destruct (_ && _) eqn:C; [| reflexivity].
      apply andb_true_iff in C. destruct C as (C1 & C2).
      apply Rltb_true_iff in C1. apply Rltb_true_iff in C2.
      exfalso. apply (H 0%nat v eq_refl); [lia | split; assumption]. }
    rewrite E, IH.
    + f_equal. simpl. lia.
    + intros j w Hj Hne. apply (H (S j) w Hj). lia.
Qed.

Lemma idle_loop (dt : R) (us : list Unit) (k : nat) :
  Forall (fun u => target u = None) us ->
  no_push (map position us) ->
  (k <= length us)%nat ->
  fold_left (unit_step dt) (seq 0 k) (us, []) = (us, []).
Proof.
  intros Hidle Hfar. induction k as [| k IH]; intros Hk; [reflexivity |].
  rewrite seq_S, fold_left_app, IH by lia. cbn [fold_left Nat.add].
  destruct (lookup_lt_is_Some_2 us k ltac:(lia)) as (u & Hu).
  rewrite (unit_step_eq dt us [] k u Hu).
  assert (Hsep : separation us k u = zero3).
  { unfold separation. rewrite sep_loop_none; [reflexivity |].
    intros j v Hj Hne. apply (Hfar k j (position u) (position v)).
    - rewrite lookup_map, Hu. reflexivity.
    - rewrite lookup_map, Hj. reflexivity.
    - simpl in Hne. lia. }
  unfold pushed. rewrite Hsep, pushed_nowhere.
  assert (Ht : target u = None).
  { rewrite Forall_lookup in Hidle. apply (Hidle k u Hu). }
  rewrite (seek_no_target dt u Ht). cbn [fst snd app].
  rewrite list_insert_id by exact Hu. reflexivity.
Qed.

(** X17.  A frame leaves an idle crowd alone: when no unit has a target and
    no two units are at a distance strictly between 0 and 1.2, a frame of
    the running game changes no unit and emits no event.  Units that stand
    on exactly the same point are therefore never separated. *)
Theorem idle_units_at_rest_stay_put :
  forall (dt : R) (g : Game),
    Forall (fun u => target u = None) (units g) ->
    no_push (map position (units g)) ->
    units (tick dt g) = units g /\ events (tick dt g) = events g.
Proof.
  intros dt g Hidle Hfar. unfold tick.
  destruct (running g); [| auto].
  assert (E : updateUnits_loop dt (units g) = (units g, [])).
  { unfold updateUnits_loop. apply idle_loop; auto. }
  unfold updateUnits. rewrite E.
  cbn [updateMarkers units events]. split; [reflexivity | apply app_nil_r].
Qed.

Lemma idle_units_at_rest_stay_put_witness :
  units (tick 0.1 (game_of [idle_unit 1 (mkV 0 0 0); idle_unit 2 (mkV 0 0 0);
                            idle_unit 3 (mkV 2 0 0)]))
  = units (game_of [idle_unit 1 (mkV 0 0 0); idle_unit 2 (mkV 0 0 0);
                    idle_unit 3 (mkV 2 0 0)])
  /\ events (tick 0.1 (game_of [idle_unit 1 (mkV 0 0 0);
                                idle_unit 2 (mkV 0 0 0);
                                idle_unit 3 (mkV 2 0 0)]))
     = events (game_of [idle_unit 1 (mkV 0 0 0); idle_unit 2 (mkV 0 0 0);
                        idle_unit 3 (mkV 2 0 0)]).
Proof.
  apply (idle_units_at_rest_stay_put 0.1
           (game_of [idle_unit 1 (mkV 0 0 0); idle_unit 2 (mkV 0 0 0);
                     idle_unit 3 (mkV 2 0 0)])).
  - repeat constructor.
  - change (map position
              (units (game_of [idle_unit 1 (mkV 0 0 0);
                               idle_unit 2 (mkV 0 0 0);
                               idle_unit 3 (mkV 2 0 0)])))
      with [mkV 0 0 0; mkV 0 0 0; mkV 2 0 0].
    intros i j p q Hi Hj Hne.
    assert (Hp : exists a, p = mkV a 0 0 /\ (a = 0 \/ a = 2)).
    { destruct i as [| [| [| i]]]; simpl in Hi; try discriminate;
        injection Hi as <-; eauto. }
    assert (Hq : exists b, q = mkV b 0 0 /\ (b = 0 \/ b = 2)).
    { destruct j as [| [| [| j]]]; simpl in Hj; try discriminate;
        injection Hj as <-; eauto. }
    destruct Hp as (a & -> & Ha). destruct Hq as (b & -> & Hb).
    rewrite distance_along_x. unfold sepRadius, Rabs.
    destruct (Rcase_abs _); destruct Ha, Hb; subst; lra.
Defined.

End SeparationMore.

(** ** Space Runner: order markers *)

Section MarkersMore.
Import PrimFloat.
Local Open Scope float_scope.

Lemma updateMarkers_with_ttl {A : Type} (dt t : float) (meshes : list A) :
  Doubles.updateMarkers dt (Doubles.with_ttl t meshes)
  = if t - dt <=? 0 then [] else Doubles.with_ttl (t - dt) meshes.
Proof.
  unfold Doubles.updateMarkers, Doubles.with_ttl.
  induction meshes as [| m meshes IH]; [destruct (_ <=? _); reflexivity |].
  cbn [map List.filter fst snd]. rewrite IH.
  destruct (t - dt <=? 0); reflexivity.
Qed.

Lemma frames_none {A : Type} (n : nat) (dt : float) :
  Doubles.frames n dt (@nil (A * float)) = [].
Proof. induction n as [| n IH]; [reflexivity | exact IH]. Qed.

(** X18.  Markers spawned together go together, after as many frames as
    the repeated subtraction on doubles takes to bring the lifetime to 0 or
    below; that number depends on the tick size and not only on the time
    that has passed: a marker spawned with lifetime 1 is still there after
    ten frames of 0.1 s (its lifetime is then [1.25 * 2^-53], about
    [1.4e-16], not 0) and goes with the eleventh, while one frame of 1 s
    removes it. *)
Theorem marker_lifetime_depends_on_the_tick_size :
  (forall (A : Type) (n : nat) (dt t : float) (meshes : list A),
      Doubles.frames n dt (Doubles.with_ttl t meshes)
      = match Doubles.left_after n dt t with
        | Some t' => Doubles.with_ttl t' meshes
        | None => []
        end)
  /\ Doubles.left_after 10 Doubles.tenth 1 = Some 0x1.4p-53
  /\ Doubles.left_after 11 Doubles.tenth 1 = None
  /\ Doubles.left_after 1 1 1 = None.
Proof.
  split.
  - intros A n. induction n as [| n IH]; intros dt t meshes; [reflexivity |].
    cbn [Doubles.frames Doubles.left_after]. rewrite updateMarkers_with_ttl.
    destruct (t - dt <=? 0); [apply frames_none | apply IH].
  - repeat split; reflexivity.
Qed.

End MarkersMore.

(** ** Screen coordinates, zoom and sizing *)

Section ViewportMore.
Import Viewport Renderer.
Local Open Scope R_scope.

(** X19.  On a canvas of positive size, [screenToNDC] and the screen
    mapping of [projectToScreen] are inverse to each other, and a pointer
    position lies on the canvas exactly when both of its normalised device
    coordinates lie in [[-1, 1]] (the top edge maps to 1, the bottom edge
    to -1). *)
Theorem screen_and_device_coordinates_are_inverse :
  forall (rect : DOMRect) (sx sy a b : R),
    0 < width rect -> 0 < height rect ->
    toScreen rect (screenToNDC rect sx sy) = (sx, sy)
    /\ screenToNDC rect (fst (toScreen rect (a, b))) (snd (toScreen rect (a, b)))
       = (a, b)
    /\ (left rect <= sx <= left rect + width rect
        <-> -1 <= fst (screenToNDC rect sx sy) <= 1)
    /\ (top rect <= sy <= top rect + height rect
        <-> -1 <= snd (screenToNDC rect sx sy) <= 1).
Proof.
  intros [l t w h] sx sy a b Hw Hh. cbn [width height] in Hw, Hh.
  unfold toScreen, screenToNDC. cbn [left top width height fst snd].
  split; [| split; [| split]].
  - f_equal; field; lra.
  - f_equal; field; lra.
  - assert (E : (sx - l) / w * 2 - 1 = (2 * (sx - l) - w) / w) by (field; lra).
    rewrite E. split.
    + intros [H1 H2]. split.
      * apply Rmult_le_reg_r with w; [exact Hw |].
        unfold Rdiv. rewrite Rmult_assoc, Rinv_l by lra. lra.
      * apply Rmult_le_reg_r with w; [exact Hw |].
        unfold Rdiv. rewrite Rmult_assoc, Rinv_l by lra. lra.
    + intros [H1 H2].
      apply Rmult_le_compat_r with (r := w) in H1; [| lra].
      apply Rmult_le_compat_r with (r := w) in H2; [| lra].
      unfold Rdiv in H1, H2. rewrite Rmult_assoc, Rinv_l in H1, H2 by lra.
      lra.
  - assert (E : - ((sy - t) / h) * 2 + 1 = (h - 2 * (sy - t)) / h) by (field; lra).
    rewrite E. split.
    + intros [H1 H2]. split.
      * apply Rmult_le_reg_r with h; [exact Hh |].
        unfold Rdiv. rewrite Rmult_assoc, Rinv_l by lra. lra.
      * apply Rmult_le_reg_r with h; [exact Hh |].
        unfold Rdiv. rewrite Rmult_assoc, Rinv_l by lra. lra.
    + intros [H1 H2].
      apply Rmult_le_compat_r with (r := h) in H1; [| lra].
      apply Rmult_le_compat_r with (r := h) in H2; [| lra].
      unfold Rdiv in H1, H2. rewrite Rmult_assoc, Rinv_l in H1, H2 by lra.
      lra.
Qed.

Lemma screen_and_device_coordinates_are_inverse_witness :
  toScreen (mkRect 10 20 800 600) (screenToNDC (mkRect 10 20 800 600) 410 320)
  = (410, 320)
  /\ screenToNDC (mkRect 10 20 800 600)
       (fst (toScreen (mkRect 10 20 800 600) (0, 0)))
       (snd (toScreen (mkRect 10 20 800 600) (0, 0)))
     = (0, 0)
  /\ (left (mkRect 10 20 800 600) <= 410
      <= left (mkRect 10 20 800 600) + width (mkRect 10 20 800 600)
      <-> -1 <= fst (screenToNDC (mkRect 10 20 800 600) 410 320) <= 1)
  /\ (top (mkRect 10 20 800 600) <= 320
      <= top (mkRect 10 20 800 600) + height (mkRect 10 20 800 600)
      <-> -1 <= snd (screenToNDC (mkRect 10 20 800 600) 410 320) <= 1).
Proof.
  apply (screen_and_device_coordinates_are_inverse
           (mkRect 10 20 800 600) 410 320 0 0).
  - cbn [width]. lra.
  - cbn [height]. lra.
Defined.

Lemma onWheel_cases (deltaY d : R) :
  14 <= d <= 60 ->
  onWheel deltaY d
  = if Rlt_dec 0 deltaY then Rmin 60 (d + 2.5)
    else if Rlt_dec deltaY 0 then Rmax 14 (d - 2.5) else d.
Proof.
  intros Hd. unfold onWheel, Math_sign.
  destruct (Rlt_dec 0 deltaY) as [P | P].
  - rewrite Rmult_1_l. apply Rmax_right.
    unfold Rmin. destruct (Rle_dec _ _); lra.
  - destruct (Rlt_dec deltaY 0) as [N | N].
    + replace (d + -1 * 2.5) with (d - 2.5) by ring.
      rewrite Rmin_right by lra. reflexivity.
    + replace (d + 0 * 2.5) with d by ring.
      rewrite Rmin_right by lra. apply Rmax_right. lra.
Qed.

Lemma onWheel_range (deltaY d : R) : 14 <= onWheel deltaY d <= 60.
Proof.
  unfold onWheel. split; [apply Rmax_l |].
  apply Rmax_lub; [lra | apply Rmin_l].
Qed.

(** X20.  The zoom distance stays within [[14, 60]] under any sequence of
    wheel events; from a distance in that range one event moves it by 2.5
    in the direction of the sign of [deltaY], stopping at the bound, and an
    event with [deltaY = 0] leaves it alone. *)
Theorem zoom_stays_between_14_and_60 :
  forall (deltas : list R) (deltaY d : R),
    14 <= d <= 60 ->
    14 <= zoom deltas d <= 60
    /\ onWheel deltaY d
       = (if Rlt_dec 0 deltaY then Rmin 60 (d + 2.5)
          else if Rlt_dec deltaY 0 then Rmax 14 (d - 2.5) else d).
Proof.
  intros deltas deltaY d Hd. split; [| apply onWheel_cases; exact Hd].
  revert d Hd. induction deltas as [| e deltas IH]; intros d Hd; [exact Hd |].
  unfold zoom. cbn [fold_left]. apply IH. apply onWheel_range.
Qed.

Lemma zoom_stays_between_14_and_60_witness :
  14 <= zoom [120; 120; -120] camDist0 <= 60
  /\ onWheel 120 camDist0
     = (if Rlt_dec 0 120 then Rmin 60 (camDist0 + 2.5)
        else if Rlt_dec 120 0 then Rmax 14 (camDist0 - 2.5) else camDist0).
Proof.
  apply (zoom_stays_between_14_and_60 [120; 120; -120] 120 camDist0).
  unfold camDist0. lra.
Defined.

(** X21.  [sizeOf] never returns a size below one pixel: both sides are
    whole numbers, at least 1, at most the larger of 1 and the measured side
    and less than one pixel below it; so the aspect ratio that the resize
    handler gives the camera is positive, also for a collapsed container. *)
Theorem sizeOf_is_at_least_one_pixel :
  forall width height : R,
    let s := sizeOf width height in
    1 <= fst s /\ 1 <= snd s
    /\ (exists a b : Z, fst s = IZR a /\ snd s = IZR b)
    /\ fst s <= Rmax 1 width < fst s + 1
    /\ snd s <= Rmax 1 height < snd s + 1
    /\ 0 < aspect width height.
Proof.
  assert (F : forall v : R,
             1 <= Rmax 1 (SpaceRunner.Math_floor v)
             /\ (exists a : Z, Rmax 1 (SpaceRunner.Math_floor v) = IZR a)
             /\ Rmax 1 (SpaceRunner.Math_floor v) <= Rmax 1 v
                < Rmax 1 (SpaceRunner.Math_floor v) + 1).
  { intros v. unfold SpaceRunner.Math_floor.
    pose proof (Zfloor_bound v) as [B1 B2].
    split; [apply Rmax_l |]. split.
    - unfold Rmax. destruct (Rle_dec _ _); [exists (Zfloor v) | exists 1%Z];
        reflexivity.
    - unfold Rmax.
      destruct (Rle_dec 1 (IZR (Zfloor v))), (Rle_dec 1 v); lra. }
  intros width height s. subst s. unfold aspect, sizeOf. cbn [fst snd].
  destruct (F width) as (W1 & (a & Wa) & W2).
  destruct (F height) as (H1 & (b & Hb) & H2).
  repeat split; try lra; try tauto.
  - exists a, b. auto.
  - apply Rdiv_lt_0_compat; lra.
Qed.

End ViewportMore.

(** ** Keyboard input *)

Section KeysMore.
Import Keys.

Lemma truthy_write (d : gmap string bool) (n m : string) (b : bool) :
  n <> "__proto__" ->
  truthy (write n b d) m = if String.eqb m n then b else truthy d m.
Proof.
  intros Hn. unfold write.
  destruct (String.eqb n "__proto__") eqn:E;
    [apply String.eqb_eq in E; contradiction |].
  unfold truthy. destruct (String.eqb m n) eqn:Emn.
  - apply String.eqb_eq in Emn. subst m. rewrite E.
    rewrite lookup_insert_eq. reflexivity.
  - apply String.eqb_neq in Emn.
    rewrite lookup_insert_ne by congruence. reflexivity.
Qed.

(** X22.  Between [attach()] and [detach()] a key is looked up as it was
    written, whatever the letter case on either side: for key names of
    ASCII characters, after a [keydown] of [key], [pressed(name)] is true
    for every [name] equal to [key] up to case, after a [keyup] it is
    false, and every other name reads as before.  (A key named [__proto__]
    is the one exception: the write to the plain object [down] is
    ignored.) *)
Theorem key_state_follows_the_last_event_ignoring_case :
  forall (k : KeyInput) (key name : string),
    attached k = true ->
    ascii_only key = true -> ascii_only name = true ->
    SpaceRunner.toLowerCase key <> "__proto__" ->
    pressed (keydown key k) name
    = (if String.eqb (SpaceRunner.toLowerCase name) (SpaceRunner.toLowerCase key)
       then true else pressed k name)
    /\ pressed (keyup key k) name
       = (if String.eqb (SpaceRunner.toLowerCase name)
                        (SpaceRunner.toLowerCase key)
          then false else pressed k name)
    /\ attached (keydown key k) = true /\ attached (keyup key k) = true.
Proof.
  intros k key name Ha _ _ Hk. unfold pressed, keydown, keyup. rewrite Ha.
  cbn [down attached]. rewrite !truthy_write by exact Hk. auto.
Qed.

Lemma key_state_follows_the_last_event_ignoring_case_witness :
  pressed (keydown "W" (attach create)) "w"
  = (if String.eqb (SpaceRunner.toLowerCase "w") (SpaceRunner.toLowerCase "W")
     then true else pressed (attach create) "w")
  /\ pressed (keyup "W" (attach create)) "w"
     = (if String.eqb (SpaceRunner.toLowerCase "w") (SpaceRunner.toLowerCase "W")
        then false else pressed (attach create) "w")
  /\ attached (keydown "W" (attach create)) = true
  /\ attached (keyup "W" (attach create)) = true.
Proof.
  apply (key_state_follows_the_last_event_ignoring_case
           (attach create) "W" "w" eq_refl eq_refl eq_refl).
  discriminate.
Defined.

Lemma handle_all_detached (es : list key_event) (k : KeyInput) :
  attached k = false -> handle_all es k = k.
Proof.
  intros Ha. induction es as [| e es IH]; [reflexivity |].
  unfold handle_all in *. cbn [fold_left].
  assert (E : handle k e = k)
    by (destruct e; unfold handle, keydown, keyup; rewrite Ha; reflexivity).
  rewrite E. exact IH.
Qed.

(** X23.  [detach()] forgets every key that was held, and key events that
    arrive before the next [attach()] are not recorded.  [pressed(name)] is
    then false for every name, except [constructor] and [__proto__] (in any
    letter case), which the empty object [down] inherits and which therefore
    always read as pressed on a fresh or detached [KeyInput]. *)
Theorem detached_keys_read_as_released :
  forall (k : KeyInput) (es : list key_event) (name : string),
    pressed (handle_all es (detach k)) name
    = (String.eqb (SpaceRunner.toLowerCase name) "constructor"
       || String.eqb (SpaceRunner.toLowerCase name) "__proto__")
    /\ pressed (handle_all es create) name
       = pressed (handle_all es (detach k)) name
    /\ pressed (detach k) "Constructor" = true
    /\ pressed (detach k) "w" = false.
Proof.
  intros k es name.
  rewrite (handle_all_detached es (detach k) eq_refl).
  rewrite (handle_all_detached es create eq_refl).
  unfold pressed, detach, create, truthy. cbn [down].
  rewrite !lookup_empty.
  repeat split.
  destruct (String.eqb (SpaceRunner.toLowerCase name) "__proto__");
    [rewrite orb_true_r | rewrite orb_false_r]; reflexivity.
Qed.

End KeysMore.

(** ** The host *)

Section HostMore.
Import Host.

Lemma contract_snoc (cs : list call) (c : call) :
  contract (cs ++ [c]) = contract_step (contract cs) c.
Proof. unfold contract. rewrite fold_left_app. reflexivity. Qed.

Lemma contract_pause_dispose (st : State) :
  contract (calls st) = Some (instanceRef st, fresh st) ->
  contract (pause_and_dispose st) = Some (None, fresh st).
Proof.
  intros H. unfold pause_and_dispose.
  destruct (instanceRef st) as [h |] eqn:E; [| exact H].
  change [Pause h; Dispose h] with ([Pause h] ++ [Dispose h]).
  rewrite app_assoc, !contract_snoc, H. cbn [contract_step].
  rewrite Nat.eqb_refl. cbn [contract_step]. rewrite Nat.eqb_refl. reflexivity.
Qed.

Lemma step_contract (games : list string) (st : State) (a : action) :
  contract (calls st) = Some (instanceRef st, fresh st) ->
  contract (calls (step games st a))
  = Some (instanceRef (step games st a), fresh (step games st a)).
Proof.
  intros H. pose proof (contract_pause_dispose st H) as P.
  destruct a as [webgl id | | |]; cbn [step].
  - unfold joinGame. destruct (existsb _ games); [destruct webgl |];
      cbn [calls instanceRef fresh]; rewrite ?contract_snoc, P;
      cbn [contract_step]; rewrite ?Nat.eqb_refl; reflexivity.
  - exact P.
  - unfold startGame. cbn [calls instanceRef fresh].
    destruct (instanceRef st) as [h |]; [| exact H].
    rewrite contract_snoc, H. cbn [contract_step]. rewrite Nat.eqb_refl.
    reflexivity.
  - unfold pauseGame. cbn [calls instanceRef fresh].
    destruct (instanceRef st) as [h |]; [| exact H].
    rewrite contract_snoc, H. cbn [contract_step]. rewrite Nat.eqb_refl.
    reflexivity.
Qed.

(** X24.  Whatever the user does (load, close, play, pause, in any order,
    with loads that fail or succeed), the calls the host makes on game
    handles follow the handle lifecycle: a game is initialised only when no
    other is live, [start], [pause] and [dispose] go to the live handle
    only, no handle is disposed twice or used after its disposal, and the
    handle the host holds at the end is the live one. *)
Theorem host_calls_follow_the_handle_lifecycle :
  forall (games : list string) (acts : list action),
    contract (calls (run games acts initial))
    = Some (instanceRef (run games acts initial),
            fresh (run games acts initial)).
Proof.
  intros games acts.
  assert (G : forall st,
             contract (calls st) = Some (instanceRef st, fresh st) ->
             contract (calls (run games acts st))
             = Some (instanceRef (run games acts st),
                     fresh (run games acts st))).
  { induction acts as [| a acts IH]; intros st H; [exact H |].
    unfold run in *. cbn [fold_left]. apply IH. apply step_contract. exact H. }
  apply G. reflexivity.
Qed.

(** X25.  A load that fails (unknown id, or [init] throws for want of a
    WebGL context) while a game is loaded disposes that game and drops its
    handle, but leaves [activeId], [running] and the stored id as they
    were and reports the error: the list keeps showing the disposed game as
    loaded.  A following Play makes no call at all and still sets
    [running]. *)
Theorem failed_load_disposes_the_game_but_keeps_it_listed :
  forall (games : list string) (webgl : bool) (id : string) (st : State)
         (h : nat),
    instanceRef st = Some h ->
    existsb (String.eqb id) games = false \/ webgl = false ->
    let st' := joinGame games webgl id st in
    instanceRef st' = None
    /\ activeId st' = activeId st
    /\ running st' = running st
    /\ storage st' = storage st
    /\ error st' <> None
    /\ (exists rest, calls st' = calls st ++ [Pause h; Dispose h] ++ rest
                     /\ Forall (fun c => c = InitFailed id) rest)
    /\ calls (startGame st') = calls st'
    /\ running (startGame st') = true.
Proof.
  intros games webgl id st h Hi Hf st'. subst st'.
  unfold joinGame, pause_and_dispose. rewrite Hi.
  destruct (existsb (String.eqb id) games) eqn:E.
  - destruct Hf as [Hf | ->]; [discriminate |].
    cbn [instanceRef activeId running storage error calls startGame].
    repeat split; try discriminate.
    exists [InitFailed id]. rewrite <- app_assoc. split; [reflexivity |].
    repeat constructor.
  - cbn [instanceRef activeId running storage error calls startGame].
    repeat split; try discriminate.
    exists []. rewrite app_nil_r. split; [reflexivity | constructor].
Qed.

Lemma failed_load_disposes_the_game_but_keeps_it_listed_witness :
  let st := startGame (joinGame ["space-runner"] true "space-runner" initial) in
  let st' := joinGame ["space-runner"] true "star-field" st in
  instanceRef st' = None
  /\ activeId st' = activeId st
  /\ running st' = running st
  /\ storage st' = storage st
  /\ error st' <> None
  /\ (exists rest, calls st' = calls st ++ [Pause 0; Dispose 0] ++ rest
                   /\ Forall (fun c => c = InitFailed "star-field") rest)
  /\ calls (startGame st') = calls st'
  /\ running (startGame st') = true.
Proof.
  apply (failed_load_disposes_the_game_but_keeps_it_listed
           ["space-runner"] true "star-field"
           (startGame (joinGame ["space-runner"] true "space-runner" initial))
           0 eq_refl).
  left. reflexivity.
Defined.

End HostMore.

(** ** Ocean Glide: what the sampler's NaN does to the scene *)

Section OceanSceneMore.
Import JS THREE OceanGlide OceanScene.
Local Open Scope js_scope.

Lemma updateCamera_NaN (dt : number) (b : Boat) (cam : Vector3) :
  vy (position b) = NaN \/ vy cam = NaN ->
  vy (updateCamera dt b cam) = NaN.
Proof.
  intros H. unfold updateCamera, v3_lerp. cbn [vy].
  destruct H as [H | H]; rewrite H; [| reflexivity].
  destruct (vy cam); reflexivity.
Qed.

Lemma step_keeps_NaN slerp (a : action) (s : Scene) :
  vy (position (boat s)) = NaN -> vy (camera s) = NaN ->
  vy (position (boat (step slerp s a))) = NaN
  /\ vy (camera (step slerp s a)) = NaN.
Proof.
  intros Hb Hc. destruct a as [keys dt t | r]; cbn [step].
  - unfold tick. destruct (running (boat s)); cbn [boat camera].
    + split; [| apply updateCamera_NaN; right; exact Hc].
      unfold updateBoat. cbn [position]. unfold sampler, waves.
      rewrite height_NaN. reflexivity.
    + split; [exact Hb | apply updateCamera_NaN; right; exact Hc].
  - cbn [boat camera set_running position]. auto.
Qed.

(** X27.  One running frame is enough to lose the scene: whatever the keys,
    [dt] and [t], every buoy, the boat and the camera come out of it with a
    NaN height (the sampled wave height is NaN), the buoys keeping their
    [x] and [z]; and the boat and the camera stay at NaN height through
    every later frame, running or paused. *)
Theorem one_running_frame_puts_buoys_boat_and_camera_at_NaN :
  forall (slerp : Quaternion -> Quaternion -> number -> Quaternion)
         keys (dt t : number) (s : Scene) (later : list action),
    running (boat s) = true ->
    let s1 := tick slerp keys dt t s in
    let s2 := run slerp later s1 in
    Forall (fun m => vy (bpos m) = NaN) (buoys s1)
    /\ map (fun m => (vx (bpos m), vz (bpos m))) (buoys s1)
       = map (fun m => (vx (bpos m), vz (bpos m))) (buoys s)
    /\ vy (position (boat s1)) = NaN
    /\ vy (camera s1) = NaN
    /\ vy (position (boat s2)) = NaN
    /\ vy (camera s2) = NaN.
Proof.
  intros slerp keys dt t s later Hr s1 s2.
  assert (B : vy (position (boat s1)) = NaN).
  { subst s1. unfold tick. rewrite Hr. cbn [boat].
    unfold updateBoat. cbn [position]. unfold sampler, waves.
    rewrite height_NaN. reflexivity. }
  assert (C : vy (camera s1) = NaN).
  { subst s1. unfold tick in *. rewrite Hr in *. cbn [boat camera] in *.
    apply updateCamera_NaN. left. exact B. }
  split; [| split; [| split; [exact B | split; [exact C |]]]].
  - subst s1. unfold tick. rewrite Hr. cbn [buoys]. unfold updateBuoys.
    apply List.Forall_forall. intros m Hm. apply in_map_iff in Hm.
    destruct Hm as (m0 & <- & _). cbn [bpos]. unfold Vector3.setY. cbn [vy].
    unfold sampler, waves. rewrite height_NaN. reflexivity.
  - subst s1. unfold tick. rewrite Hr. cbn [buoys]. unfold updateBuoys.
    rewrite map_map. reflexivity.
  - subst s2.
    assert (G : forall acts s0,
               vy (position (boat s0)) = NaN -> vy (camera s0) = NaN ->
               vy (position (boat (run slerp acts s0))) = NaN
               /\ vy (camera (run slerp acts s0)) = NaN).
    { induction acts as [| a acts IH]; intros s0 H1 H2; [auto |].
      unfold run in *. cbn [fold_left].
      destruct (step_keeps_NaN slerp a s0 H1 H2). apply IH; assumption. }
    apply G; [exact B | exact C].
Qed.

Lemma one_running_frame_puts_buoys_boat_and_camera_at_NaN_witness :
  let slerp := fun (a _ : Quaternion) (_ : number) => a in
  let s := scene0 [mkBuoy (mkV3 #3 #0.5 (- #20)) (mkQ #0 #0 #0 #1)] in
  let s1 := tick slerp ∅ #0.016 #0.016 s in
  let s2 := run slerp [SetRunning false; Frame ∅ #0.016 #0.032] s1 in
  Forall (fun m => vy (bpos m) = NaN) (buoys s1)
  /\ map (fun m => (vx (bpos m), vz (bpos m))) (buoys s1)
     = map (fun m => (vx (bpos m), vz (bpos m))) (buoys s)
  /\ vy (position (boat s1)) = NaN
  /\ vy (camera s1) = NaN
  /\ vy (position (boat s2)) = NaN
  /\ vy (camera s2) = NaN.
Proof.
  apply (one_running_frame_puts_buoys_boat_and_camera_at_NaN
           (fun (a _ : Quaternion) (_ : number) => a) ∅ #0.016 #0.016
           (scene0 [mkBuoy (mkV3 #3 #0.5 (- #20)) (mkQ #0 #0 #0 #1)])
           [SetRunning false; Frame ∅ #0.016 #0.032]).
  reflexivity.
Defined.

End OceanSceneMore.

(** ** Space Runner: double click *)

Section DoubleClick.
Import SpaceRunner Notions MoreNotions.
Local Open Scope R_scope.

Lemma distanceTo_self (p : Vector3) : distanceTo p p = 0.
Proof.
  unfold distanceTo.
  replace ((x p - x p) * (x p - x p) + (y p - y p) * (y p - y p)
           + (z p - z p) * (z p - z p)) with 0 by ring.
  apply sqrt_0.
Qed.

Lemma filter_deselect_length (f : Unit -> bool) (us : list Unit) :
  (forall u, f (deselect u) = f u) ->
  length (List.filter f (map deselect us)) = length (List.filter f us).
Proof.
  intros H. induction us as [| u us IH]; [reflexivity |].
  cbn [map List.filter]. rewrite H. destruct (f u); simpl; rewrite IH; reflexivity.
Qed.

Lemma filter_has (f : Unit -> bool) (us : list Unit) (h : Unit) :
  In h us -> f h = true -> (1 <= length (List.filter f us))%nat.
Proof.
  intros Hin Hf.
  assert (H : In h (List.filter f us)) by (apply filter_In; auto).
  destruct (List.filter f us); [contradiction | simpl; lia].
Qed.

(** X26.  A double click on a unit selects every unit closer than 4 to it,
    the unit itself included, so the count it reports is at least 1; with
    Shift the units selected before stay selected, without it they are
    deselected first.  No unit is moved or re-targeted. *)
Theorem double_click_selects_the_neighbourhood :
  forall pickUnit (e : MouseEvent) (g : Game) (hit : nat) (h : Unit),
    pickUnit (clientX e) (clientY e) (units g) = Some hit ->
    List.find (fun u => (id u =? hit)%nat) (units g) = Some h ->
    let near := fun u => Rltb (distanceTo (position u) (position h)) 4 in
    let g' := onDblClick pickUnit e g in
    map selected (units g')
    = map (fun u => (shiftKey e && selected u) || near u) (units g)
    /\ last (events g')
       = Some (SelectionChanged (length (List.filter near (units g))))
    /\ (1 <= length (List.filter near (units g)))%nat
    /\ map movement_state (units g') = map movement_state (units g).
Proof.
  intros pickUnit e g hit h Hp Hf near g'. subst g'.
  unfold onDblClick. rewrite Hp, Hf. fold near.
  assert (Hd : forall u, near (deselect u) = near u) by reflexivity.
  split; [| split; [| split]].
  - rewrite applySelectionFilter_units_gen.
    destruct (shiftKey e); cbn [andb]; rewrite ?map_map; apply map_ext;
      intros u; unfold chosen; rewrite ?Hd; destruct (near u);
      cbn [selected select deselect]; rewrite ?orb_true_r, ?orb_false_r;
      reflexivity.
  - destruct (shiftKey e).
    + unfold applySelectionFilter. rewrite select_loop.
      cbn [emit events]. apply last_snoc.
    + rewrite applySelectionFilter_events.
      rewrite (filter_deselect_length near (units g) Hd).
      change [SelectionChanged 0;
              SelectionChanged (length (List.filter near (units g)))]
        with ([SelectionChanged 0]
              ++ [SelectionChanged (length (List.filter near (units g)))]).
      rewrite app_assoc. apply last_snoc.
  - apply find_some in Hf. destruct Hf as (Hin & _).
    apply (filter_has near (units g) h Hin).
    unfold near. apply Rltb_true_iff. rewrite distanceTo_self. lra.
  - rewrite applySelectionFilter_units_gen.
    destruct (shiftKey e); rewrite ?map_map; apply map_ext; intros u;
      unfold chosen; rewrite ?Hd; destruct (near u); reflexivity.
Qed.

Lemma double_click_selects_the_neighbourhood_witness :
  let g := game_of [idle_unit 1 (mkV 0 0 0); idle_unit 2 (mkV 1 0 0)] in
  let e := mkMouse 0 0 0 false in
  let near := fun u =>
    Rltb (distanceTo (position u) (position (idle_unit 1 (mkV 0 0 0)))) 4 in
  let g' := onDblClick (fun _ _ _ => Some 1%nat) e g in
  map selected (units g')
  = map (fun u => (shiftKey e && selected u) || near u) (units g)
  /\ last (events g')
     = Some (SelectionChanged (length (List.filter near (units g))))
  /\ (1 <= length (List.filter near (units g)))%nat
  /\ map movement_state (units g') = map movement_state (units g).
Proof.
  apply (double_click_selects_the_neighbourhood
           (fun _ _ _ => Some 1%nat) (mkMouse 0 0 0 false)
           (game_of [idle_unit 1 (mkV 0 0 0); idle_unit 2 (mkV 1 0 0)])
           1%nat (idle_unit 1 (mkV 0 0 0)) eq_refl eq_refl).
Defined.

End DoubleClick.

(** ** Space Runner: the camera rig *)

Section CameraMore.
Import SpaceRunner CameraRig.
Local Open Scope R_scope.

Lemma camTilt_range : 0 < camTilt < PI / 2.
Proof. unfold camTilt, degToRad. pose proof PI_RGT_0. lra. Qed.

Lemma cos_tilt_pos : 0 < cos camTilt.
Proof. pose proof camTilt_range. apply cos_gt_0; lra. Qed.

Lemma sin_tilt_pos : 0 < sin camTilt.
Proof. pose proof camTilt_range. pose proof PI_RGT_0. apply sin_gt_0; lra. Qed.

Lemma half_neg (a : R) : - a / 2 = - (a / 2).
Proof. field. Qed.

Lemma zero_half : 0 / 2 = 0.
Proof. field. Qed.

Lemma cos_double (a : R) : cos a = 1 - 2 * sin (a / 2) * sin (a / 2).
Proof.
  replace a with (2 * (a / 2)) at 1 by field. rewrite cos_2a_sin. ring.
Qed.

Lemma sin_double (a : R) : sin a = 2 * sin (a / 2) * cos (a / 2).
Proof. replace a with (2 * (a / 2)) at 1 by field. apply sin_2a. Qed.

Lemma pan_forward :
  normalize (setY (applyQuaternion (mkV 0 0 (-1))
                                   (setFromEuler (- camTilt) 0 0)) 0)
  = mkV 0 0 (-1).
Proof.
  pose proof cos_tilt_pos as Hc.
  assert (E : setY (applyQuaternion (mkV 0 0 (-1))
                                    (setFromEuler (- camTilt) 0 0)) 0
              = mkV 0 0 (- cos camTilt)).
  { unfold setY, applyQuaternion, setFromEuler. cbn [x y z qx qy qz qw].
    rewrite zero_half, cos_0, sin_0, half_neg, sin_neg, cos_neg.
    rewrite (cos_double camTilt). f_equal; ring. }
  rewrite E. unfold normalize, v_length, multiplyScalar. cbn [x y z].
  replace (0 * 0 + 0 * 0 + - cos camTilt * - cos camTilt)
    with (cos camTilt * cos camTilt) by ring.
  rewrite sqrt_square by lra.
  destruct (Req_dec_T (cos camTilt) 0) as [C | _]; [lra |].
  f_equal; field; lra.
Qed.

Lemma camera_direction :
  applyQuaternion (mkV 0 0 1) (setFromAxisAngle (mkV 1 0 0) (- camTilt))
  = mkV 0 (sin camTilt) (cos camTilt).
Proof.
  unfold applyQuaternion, setFromAxisAngle. cbn [x y z qx qy qz qw].
  rewrite half_neg, sin_neg, cos_neg.
  rewrite (cos_double camTilt), (sin_double camTilt). f_equal; ring.
Qed.

Lemma pan_target (r : Rig) (dx dz dt : R) :
  addScaledVector
    (addScaledVector (camTarget r)
       (negate (crossVectors (mkV 0 0 (-1)) (mkV 0 1 0))) (dx * 14 * dt))
    (mkV 0 0 (-1)) (dz * 14 * dt)
  = mkV (x (camTarget r) - dx * 14 * dt) (y (camTarget r))
        (z (camTarget r) - dz * 14 * dt).
Proof.
  unfold addScaledVector, negate, crossVectors. cbn [x y z]. f_equal; ring.
Qed.

(** X28.  Panning is mirrored against the view.  The camera sits at
    [camDist * (0, sin 58deg, cos 58deg)] from its target, that is above it
    on the [+z] side, looking towards [-z] with [+x] to its right; and
    [cameraPan] moves the target by [-14 dt] along [x] per unit of
    [dx] (D or ArrowRight minus A or ArrowLeft) and by [-14 dt] along [z]
    per unit of [dz] (S or ArrowDown minus W or ArrowUp): D moves it to
    the camera's left and W towards the camera.  Its height does not
    change. *)
Theorem camera_pan_moves_the_target_against_the_keys :
  forall (keys : Keys.KeyInput) (dt : R) (r : Rig),
    let dx := held keys "d" "arrowright" - held keys "a" "arrowleft" in
    let dz := held keys "s" "arrowdown" - held keys "w" "arrowup" in
    camTarget (cameraPan keys dt r)
    = mkV (x (camTarget r) - dx * 14 * dt) (y (camTarget r))
          (z (camTarget r) - dz * 14 * dt)
    /\ cameraPos (placeCamera r)
       = mkV (x (camTarget r)) (y (camTarget r) + sin camTilt * camDist r)
             (z (camTarget r) + cos camTilt * camDist r)
    /\ 0 < sin camTilt /\ 0 < cos camTilt.
Proof.
  intros keys dt r dx dz.
  split; [| split; [| split; [apply sin_tilt_pos | apply cos_tilt_pos]]].
  - unfold cameraPan. fold dx dz. rewrite pan_forward.
    destruct (Req_dec_T dx 0) as [X | X].
    + destruct (Req_dec_T dz 0) as [Z | Z].
      * rewrite X, Z. destruct (camTarget r) as [tx ty tz]. cbn [x y z].
        f_equal; ring.
      * cbn [placeCamera camTarget]. apply pan_target.
    + cbn [placeCamera camTarget]. apply pan_target.
  - unfold placeCamera. cbn [cameraPos]. rewrite camera_direction.
    unfold addScaledVector. cbn [x y z]. f_equal. ring.
Qed.

End CameraMore.
